(** * models.py: LIF cell, surrogate spike gradient, trace filter, time shift
      and gradient checker

    A shallow embedding of [models.py].  The arithmetic of the tensors is
    taken over the real numbers (the float32/float64 rounding of the
    TensorFlow and numpy kernels is not part of the model).  Tensors carry
    their static shape next to their entries, as TensorFlow tensors and
    numpy arrays do; a kernel that TensorFlow or numpy rejects (a shape
    mismatch, an index out of bounds) returns [None]. *)

From Stdlib Require Import String Ascii.
From Stdlib Require Import Reals Lra Lia ZArith Arith Bool List.
Import ListNotations.

Local Open Scope R_scope.

(** ** Tensors *)

Class Default (A : Type) := dflt : A.

#[export] Instance Default_R : Default R := 0.
#[export] Instance Default_bool : Default bool := false.
#[export] Instance Default_Z : Default Z := 0%Z.

(** The error monad of the kernels. *)
Definition bind {A B : Type} (m : option A) (k : A -> option B) : option B :=
  match m with
  | Some a => k a
  | None => None
  end.

Notation "x <- m ;; k" := (bind m (fun x => k))
  (at level 61, m at next level, right associativity).

Module TF.

(** Rank-2 tensors: [rows2 x cols2] entries, row-major. *)
Record Tensor2 (A : Type) : Type := mkTensor2 {
  rows2 : nat;
  cols2 : nat;
  data2 : list (list A)
}.
Arguments mkTensor2 {A}.
Arguments rows2 {A}.
Arguments cols2 {A}.
Arguments data2 {A}.

(** Rank-3 tensors: [dim0 x dim1 x dim2] entries. *)
Record Tensor3 (A : Type) : Type := mkTensor3 {
  dim0 : nat;
  dim1 : nat;
  dim2 : nat;
  data3 : list (list (list A))
}.
Arguments mkTensor3 {A}.
Arguments dim0 {A}.
Arguments dim1 {A}.
Arguments dim2 {A}.
Arguments data3 {A}.

Section Access.
Context {A : Type} `{Default A}.

Definition get2 (M : Tensor2 A) (i j : nat) : A :=
  nth j (nth i (data2 M) []) dflt.

Definition get3 (T : Tensor3 A) (i j k : nat) : A :=
  nth k (nth j (nth i (data3 T) []) []) dflt.
End Access.

(** A tensor given by its shape and its entries. *)
Definition tab2 {A : Type} (r c : nat) (f : nat -> nat -> A) : Tensor2 A :=
  mkTensor2 r c (map (fun i => map (fun j => f i j) (seq 0 c)) (seq 0 r)).

Definition tab3 {A : Type} (a b c : nat) (f : nat -> nat -> nat -> A)
  : Tensor3 A :=
  mkTensor3 a b c
    (map (fun i => map (fun j => map (fun k => f i j k) (seq 0 c)) (seq 0 b))
         (seq 0 a)).

Definition shape2 {A : Type} (M : Tensor2 A) : nat * nat :=
  (rows2 M, cols2 M).

Definition shape3 {A : Type} (T : Tensor3 A) : nat * nat * nat :=
  (dim0 T, dim1 T, dim2 T).

(** The entries agree with the declared shape. *)
Definition wf2 {A : Type} (M : Tensor2 A) : Prop :=
  length (data2 M) = rows2 M /\
  Forall (fun row => length row = cols2 M) (data2 M).

Definition wf3 {A : Type} (T : Tensor3 A) : Prop :=
  length (data3 T) = dim0 T /\
  Forall (fun m => length m = dim1 T /\
                   Forall (fun row => length row = dim2 T) m) (data3 T).

(** *** Elementwise kernels *)

(** A unary elementwise kernel, and a kernel with a scalar operand
    ([decay * v], [tf.abs], [tf.cast], [x / dt]). *)
Definition map2d {A B : Type} `{Default A} (f : A -> B) (M : Tensor2 A)
  : Tensor2 B :=
  tab2 (rows2 M) (cols2 M) (fun i j => f (get2 M i j)).

(** Broadcasting of one dimension: equal sizes, or one of them is 1. *)
Definition broadcast_dim (a b : nat) : option nat :=
  if (a =? b)%nat then Some a
  else if (a =? 1)%nat then Some b
  else if (b =? 1)%nat then Some a
  else None.

Definition bidx (dim i : nat) : nat := if (dim =? 1)%nat then 0%nat else i.

(** A binary elementwise kernel with broadcasting ([+], [-], [*], [/],
    [<] between two tensors). *)
Definition zip2d {A B C : Type} `{Default A} `{Default B}
    (f : A -> B -> C) (M : Tensor2 A) (N : Tensor2 B) : option (Tensor2 C) :=
  r <- broadcast_dim (rows2 M) (rows2 N) ;;
  c <- broadcast_dim (cols2 M) (cols2 N) ;;
  Some (tab2 r c (fun i j =>
          f (get2 M (bidx (rows2 M) i) (bidx (cols2 M) j))
            (get2 N (bidx (rows2 N) i) (bidx (cols2 N) j)))).

Definition zeros (r c : nat) : Tensor2 R := tab2 r c (fun _ _ => 0).

Definition zeros_like {A : Type} (M : Tensor2 A) : Tensor2 R :=
  zeros (rows2 M) (cols2 M).

Definition identity {A : Type} (x : A) : A := x.

(** [tf.stop_gradient]: the value passes through; only the backward graph
    is cut. *)
Definition stop_gradient {A : Type} (x : A) : A := x.

(** [tf.where(condition, x, y)] with three tensors of one shape. *)
Definition where_ {A : Type} `{Default A}
    (cond : Tensor2 bool) (x y : Tensor2 A) : option (Tensor2 A) :=
  if ((rows2 cond =? rows2 x) && (cols2 cond =? cols2 x) &&
      (rows2 x =? rows2 y) && (cols2 x =? cols2 y))%nat
  then Some (tab2 (rows2 x) (cols2 x)
               (fun i j => if get2 cond i j then get2 x i j else get2 y i j))
  else None.

(** *** Matrix product *)

Definition sum_n (n : nat) (f : nat -> R) : R :=
  fold_right Rplus 0 (map f (seq 0 n)).

Definition matmul (M N : Tensor2 R) : option (Tensor2 R) :=
  if (cols2 M =? rows2 N)%nat
  then Some (tab2 (rows2 M) (cols2 N)
               (fun i j => sum_n (cols2 M)
                             (fun k => get2 M i k * get2 N k j)))
  else None.

(** *** Rank-3 kernels *)

Section Rank3.
Context {A : Type} `{Default A}.

(** Position of axis [a] in the permutation. *)
Fixpoint index_of (a : nat) (perm : list nat) : nat :=
  match perm with
  | [] => 0%nat
  | p :: rest => if (p =? a)%nat then 0%nat else S (index_of a rest)
  end.

Definition is_perm3 (perm : list nat) : bool :=
  ((length perm =? 3)%nat &&
   forallb (fun a => existsb (Nat.eqb a) perm) [0%nat; 1%nat; 2%nat]).

(** [tf.transpose(t, perm)]: axis [k] of the result is axis [perm[k]] of
    the argument. *)
Definition transpose (T : Tensor3 A) (perm : list nat)
  : option (Tensor3 A) :=
  if is_perm3 perm then
    let shp := [dim0 T; dim1 T; dim2 T] in
    Some (tab3 (nth (nth 0 perm 0%nat) shp 0%nat)
               (nth (nth 1 perm 0%nat) shp 0%nat)
               (nth (nth 2 perm 0%nat) shp 0%nat)
               (fun i0 i1 i2 =>
                  let out := [i0; i1; i2] in
                  get3 T (nth (index_of 0 perm) out 0%nat)
                         (nth (index_of 1 perm) out 0%nat)
                         (nth (index_of 2 perm) out 0%nat)))
  else None.

(** The slice [t[i]] along the first axis. *)
Definition slice0 (T : Tensor3 A) (i : nat) : Tensor2 A :=
  tab2 (dim1 T) (dim2 T) (fun j k => get3 T i j k).

(** [t[0]]: out of bounds when the first axis is empty. *)
Definition index0 (T : Tensor3 A) : option (Tensor2 A) :=
  if (dim0 T =? 0)%nat then None else Some (slice0 T 0).

Definition unstack (T : Tensor3 A) : list (Tensor2 A) :=
  map (slice0 T) (seq 0 (dim0 T)).

Definition stack (r c : nat) (l : list (Tensor2 A)) : Tensor3 A :=
  tab3 (length l) r c
       (fun i j k => get2 (nth i l (mkTensor2 r c [])) j k).

(** [t[:-1]]: all but the last slice; empty stays empty. *)
Definition drop_last (T : Tensor3 A) : Tensor3 A :=
  tab3 (dim0 T - 1) (dim1 T) (dim2 T) (fun i j k => get3 T i j k).

(** [m[None, :, :]]: a new leading axis of size 1. *)
Definition expand0 (M : Tensor2 A) : Tensor3 A :=
  tab3 1 (rows2 M) (cols2 M) (fun _ j k => get2 M j k).

(** [tf.concat([s, t], axis=0)]: the other axes must agree. *)
Definition concat0 (S T : Tensor3 A) : option (Tensor3 A) :=
  if ((dim1 S =? dim1 T) && (dim2 S =? dim2 T))%nat
  then Some (tab3 (dim0 S + dim0 T) (dim1 S) (dim2 S)
               (fun i j k => if (i <? dim0 S)%nat then get3 S i j k
                             else get3 T (i - dim0 S) j k))
  else None.
End Rank3.

(** [tf.scan(fn, elems, initializer)]: the accumulator after each element
    of [elems], in order, stacked along a new first axis. *)
Fixpoint scan_list {X Acc : Type} (fn : Acc -> X -> option Acc)
    (xs : list X) (a : Acc) : option (list Acc) :=
  match xs with
  | [] => Some []
  | x :: rest =>
      a' <- fn a x ;;
      accs <- scan_list fn rest a' ;;
      Some (a' :: accs)
  end.

Definition scan (fn : Tensor2 R -> Tensor2 R -> option (Tensor2 R))
    (elems : Tensor3 R) (initializer : Tensor2 R) : option (Tensor3 R) :=
  accs <- scan_list fn (unstack elems) initializer ;;
  Some (stack (rows2 initializer) (cols2 initializer) accs).

End TF.

Import TF.

(** ** The surrogate spike function *)

(** [tf.greater(x, s)] against a scalar, and [tf.cast(., tf.float32)] of a
    boolean tensor. *)
Definition Rgtb (x y : R) : bool := if Rgt_dec x y then true else false.

Definition greater (M : Tensor2 R) (s : R) : Tensor2 bool :=
  map2d (fun x => Rgtb x s) M.

Definition cast_float (M : Tensor2 bool) : Tensor2 R :=
  map2d (fun b : bool => if b then 1 else 0) M.

(** [tf.maximum(1 - tf.abs(v_scaled), 0) * dampening_factor] *)
Definition pseudo_derivative (v_scaled : Tensor2 R) (dampening_factor : R)
  : Tensor2 R :=
  map2d (fun x => x * dampening_factor)
    (map2d (fun x => Rmax x 0)
       (map2d (fun x => 1 - x)
          (map2d Rabs v_scaled))).

(** A [tf.custom_gradient] function is its forward value together with its
    backward rule.  The rule returns one gradient per argument; the
    dampening factor is a scalar, and so is [tf.zeros_like] of it. *)
Definition SpikeFunction (v_scaled : Tensor2 R) (dampening_factor : R)
  : Tensor2 R * (Tensor2 R -> option (Tensor2 R * R)) :=
  let z_ := greater v_scaled 0 in
  let z_ := cast_float z_ in
  let grad := fun dy : Tensor2 R =>
    let dE_dz := dy in
    let dz_dv_scaled := pseudo_derivative v_scaled dampening_factor in
    dE_dv_scaled <- zip2d Rmult dE_dz dz_dv_scaled ;;
    Some (dE_dv_scaled, 0) in
  (identity z_, grad).

(** ** The LIF cell *)

Record LightLIFStateTuple : Type := mkLightLIFStateTuple {
  v : Tensor2 R;
  z : Tensor2 R
}.

(** The attributes of a cell.  [w_in_var] and [w_rec_var] hold the current
    values of the two [tf.Variable]s: they are drawn at random at
    construction and an optimizer may assign them between runs, so they are
    arbitrary here.  [_decay], [w_in_val], [recurrent_disconnect_mask] and
    [w_rec_val] are graph nodes over these attributes and are evaluated
    against the current values at every run. *)
Record LightLIF : Type := mkLightLIF {
  n_in : nat;
  n_rec : nat;
  tau : R;
  thr : R;
  dt : R;
  dampening_factor : R;
  stop_z_gradients : bool;
  w_in_var : Tensor2 R;
  w_rec_var : Tensor2 R
}.

Definition _decay (self : LightLIF) : R := exp (- dt self / tau self).

Definition w_in_val (self : LightLIF) : Tensor2 R := identity (w_in_var self).

(** [np.diag(np.ones(n_rec, dtype=bool))] *)
Definition recurrent_disconnect_mask (self : LightLIF) : Tensor2 bool :=
  tab2 (n_rec self) (n_rec self) (fun i j => (i =? j)%nat).

Definition w_rec_val (self : LightLIF) : option (Tensor2 R) :=
  where_ (recurrent_disconnect_mask self) (zeros_like (w_rec_var self))
         (w_rec_var self).

Definition zero_state (self : LightLIF) (batch_size : nat)
    (n_rec_arg : option nat) : LightLIFStateTuple :=
  let n_rec := match n_rec_arg with None => n_rec self | Some n => n end in
  let v0 := zeros batch_size n_rec in
  let z0 := zeros batch_size n_rec in
  mkLightLIFStateTuple v0 z0.

(** [LightLIF.__call__]: one time step; the result is
    [([new_z, new_v], new_state)]. *)
Definition __call__ (self : LightLIF) (inputs : Tensor2 R)
    (state : LightLIFStateTuple)
  : option ((Tensor2 R * Tensor2 R) * LightLIFStateTuple) :=
  let thr_ := thr self in
  let z := z state in
  let v := v state in
  let decay := _decay self in
  let z := if stop_z_gradients self then stop_gradient z else z in
  (* update the voltage *)
  w_rec <- w_rec_val self ;;
  in_drive <- matmul inputs (w_in_val self) ;;
  rec_drive <- matmul z w_rec ;;
  i_t <- zip2d Rplus in_drive rec_drive ;;
  let I_reset := map2d (fun x => x * dt self)
                   (map2d (fun x => x * thr self) z) in
  leak_plus_drive <- zip2d Rplus (map2d (fun x => decay * x) v)
                                 (map2d (fun x => (1 - decay) * x) i_t) ;;
  new_v <- zip2d Rminus leak_plus_drive I_reset ;;
  (* Spike generation *)
  let v_scaled := map2d (fun x => x / thr_)
                    (map2d (fun x => x - thr_) new_v) in
  let new_z := fst (SpikeFunction v_scaled (dampening_factor self)) in
  let new_z := map2d (fun x => x / dt self) (map2d (fun x => x * 1) new_z) in
  let new_state := mkLightLIFStateTuple new_v new_z in
  Some ((new_z, new_v), new_state).

(** ** Exponential filter and time shift *)

Definition exp_convolve (tensor : Tensor3 R) (decay : R)
  : option (Tensor3 R) :=
  let r_shp := seq 0 3 in
  let transpose_perm := [1%nat; 0%nat] ++ skipn 2 r_shp in
  tensor_time_major <- transpose tensor transpose_perm ;;
  first_slice <- index0 tensor_time_major ;;
  let initializer := zeros_like first_slice in
  filtered_tensor <-
    scan (fun a x => zip2d Rplus (map2d (fun y => y * decay) a)
                                 (map2d (fun y => (1 - decay) * y) x))
         tensor_time_major initializer ;;
  transpose filtered_tensor transpose_perm.

Definition shift_by_one_time_step (tensor : Tensor3 R)
    (initializer : option (Tensor2 R)) : option (Tensor3 R) :=
  let r_shp := seq 0 3 in
  let transpose_perm := [1%nat; 0%nat] ++ skipn 2 r_shp in
  tensor_time_major <- transpose tensor transpose_perm ;;
  initializer <-
    match initializer with
    | None => first_slice <- index0 tensor_time_major ;;
              Some (zeros_like first_slice)
    | Some init => Some init
    end ;;
  shifted_tensor <- concat0 (expand0 initializer)
                            (drop_last tensor_time_major) ;;
  transpose shifted_tensor transpose_perm.

(** ** The gradient checker *)

(** Of a [tf.Variable] the checker reads the name only. *)
Record TfVariable : Type := mkTfVariable { name : string }.

Inductive exn : Type := ValueError | IndexError.

Inductive outcome : Type :=
| Returned
| Raised (e : exn).

(** What one [print] call writes.  The rendering of numbers by
    [np.array_str] and by [print] is kept abstract: the printed array or
    list stands for its text. *)
Inductive printed : Type :=
| Line (s : string)
| ArrayStr (a : Tensor2 R)
| IndexList (label : string) (l : list (nat * nat))
| ValueList (label : string) (l : list R).

Definition Rltb (x y : R) : bool := if Rlt_dec x y then true else false.

Definition np_abs (a : Tensor2 R) : Tensor2 R := map2d Rabs a.

(** [a[:5, :5]] *)
Definition upto5 (a : Tensor2 R) : Tensor2 R :=
  tab2 (Nat.min 5 (rows2 a)) (Nat.min 5 (cols2 a)) (fun i j => get2 a i j).

Definition np_all (b : Tensor2 bool) : bool :=
  forallb (fun i => forallb (fun j => get2 b i j) (seq 0 (cols2 b)))
          (seq 0 (rows2 b)).

(** [np.where(m)]: the row indices and the column indices of the non-zero
    entries, in row-major order. *)
Definition np_where (m : Tensor2 Z) : list nat * list nat :=
  let hits :=
    flat_map (fun i =>
      flat_map (fun j => if (get2 m i j =? 0)%Z then [] else [(i, j)])
               (seq 0 (cols2 m)))
      (seq 0 (rows2 m)) in
  (map fst hits, map snd hits).

Definition tab_char : ascii := ascii_of_nat 9.

Definition correct_line (v : TfVariable) : printed :=
  Line (String tab_char (name v ++ " is correct.")).

Definition wrong_line (v : TfVariable) : printed :=
  Line (String tab_char (name v ++ " is wrong")).

(** The loop of [check_gradients] from position [k_v] on: what was printed,
    and how the call ended. *)
Fixpoint check_gradients_from (k_v : nat) (var_list : list TfVariable)
    (eprop_grads_np true_grads_np : list (Tensor2 R))
  : list printed * outcome :=
  match var_list with
  | [] => ([], Returned)
  | v :: rest =>
    match nth_error eprop_grads_np k_v with
    | None => ([], Raised IndexError)
    | Some eprop_grad =>
    match nth_error true_grads_np k_v with
    | None => ([], Raised IndexError)
    | Some true_grad =>
    match zip2d Rminus eprop_grad true_grad with
    | None => ([], Raised ValueError)
    | Some diff =>
      let is_correct := map2d (fun x => Rltb x 1e-4) (np_abs diff) in
      if np_all is_correct then
        let (out, res) :=
          check_gradients_from (S k_v) rest eprop_grads_np true_grads_np in
        (correct_line v :: out, res)
      else
        match zip2d Rdiv (np_abs eprop_grad)
                    (map2d (fun x => 1e-8 + x) (np_abs true_grad)) with
        | None => ([wrong_line v], Raised ValueError)
        | Some ratio =>
          let mismatch_indices :=
            np_where (map2d (fun b : bool => (1 - Z.b2z b)%Z) is_correct) in
          let mismatch_indices :=
            combine (fst mismatch_indices) (snd mismatch_indices) in
          ([ wrong_line v;
             Line "E-prop"; ArrayStr (upto5 eprop_grad);
             Line "True gradients"; ArrayStr (upto5 true_grad);
             Line "Difference"; ArrayStr (upto5 diff);
             Line "Ratio"; ArrayStr (upto5 ratio);
             IndexList "mismatch indices" (firstn 5 mismatch_indices);
             ValueList "diff. vals"
               (map (fun ij => get2 diff (fst ij) (snd ij))
                    (firstn 5 mismatch_indices)) ],
           Raised ValueError)
        end
    end end end
  end.

Definition check_gradients (var_list : list TfVariable)
    (eprop_grads_np true_grads_np : list (Tensor2 R))
  : list printed * outcome :=
  check_gradients_from 0 var_list eprop_grads_np true_grads_np.

(** [LightLIF.__init__]: the two weight variables are created with the
    shapes [(n_in, n_rec)] and [(n_rec, n_rec)]; [w_in_init] and
    [w_rec_init] are the values drawn for them. *)
Definition __init__ (n_in n_rec : nat) (tau thr dt dampening_factor : R)
    (stop_z_gradients : bool) (w_in_init w_rec_init : nat -> nat -> R)
  : LightLIF :=
  mkLightLIF n_in n_rec tau thr dt dampening_factor stop_z_gradients
             (tab2 n_in n_rec w_in_init) (tab2 n_rec n_rec w_rec_init).

(** A variable keeps its shape under assignment. *)
Definition cell_shapes (self : LightLIF) : Prop :=
  shape2 (w_in_var self) = (n_in self, n_rec self) /\
  shape2 (w_rec_var self) = (n_rec self, n_rec self).

(** An assignment to the recurrent weight variable between two runs. *)
Definition assign_w_rec (self : LightLIF) (w : Tensor2 R) : LightLIF :=
  mkLightLIF (n_in self) (n_rec self) (tau self) (thr self) (dt self)
             (dampening_factor self) (stop_z_gradients self)
             (w_in_var self) w.

(** The cell run over a sequence of inputs, one [__call__] per time step,
    each step starting from the state the step before returned. *)
Fixpoint unroll (self : LightLIF) (inputs : list (Tensor2 R))
    (state : LightLIFStateTuple)
  : option (list (Tensor2 R * Tensor2 R) * LightLIFStateTuple) :=
  match inputs with
  | [] => Some ([], state)
  | x :: rest =>
      r <- __call__ self x state ;;
      r' <- unroll self rest (snd r) ;;
      Some (fst r :: fst r', snd r')
  end.

(** ** The step in the words of the specification *)

Definition Heaviside (x : R) : R := if Rgt_dec x 0 then 1 else 0.

Section StepSpec.
Variable self : LightLIF.
Variable input_t : Tensor2 R.
Variable state : LightLIFStateTuple.

Let batch : nat := rows2 input_t.
Let threshold : R := thr self.

Definition spec_decay : R := exp (- dt self / tau self).

(** The recurrent weights with the diagonal forced to zero. *)
Definition spec_recurrentWeights (i j : nat) : R :=
  if (i =? j)%nat then 0 else get2 (w_rec_var self) i j.

Definition spec_i_t (b j : nat) : R :=
  sum_n (n_in self) (fun k => get2 input_t b k * get2 (w_in_var self) k j)
  + sum_n (n_rec self)
      (fun k => get2 (z state) b k * spec_recurrentWeights k j).

Definition spec_i_reset (b j : nat) : R :=
  get2 (z state) b j * threshold * dt self.

Definition spec_v_next : Tensor2 R :=
  tab2 batch (n_rec self)
    (fun b j => spec_decay * get2 (v state) b j
                + (1 - spec_decay) * spec_i_t b j - spec_i_reset b j).

Definition spec_z_next : Tensor2 R :=
  tab2 batch (n_rec self)
    (fun b j =>
       Heaviside ((get2 spec_v_next b j - threshold) / threshold) / dt self).

Definition step_spec
  : (Tensor2 R * Tensor2 R) * LightLIFStateTuple :=
  (spec_z_next, spec_v_next, mkLightLIFStateTuple spec_v_next spec_z_next).
End StepSpec.

(** ** Concrete inputs *)

(** One trial, no time step, one neuron. *)
Definition empty_time_sequence : Tensor3 R := mkTensor3 1 0 1 [[]].

(** One trial, two time steps, one neuron. *)
Definition two_step_sequence : Tensor3 R := mkTensor3 1 2 1 [[[1]; [2]]].

(** One time slice of the two sequences above. *)
Definition one_slice : Tensor2 R := mkTensor2 1 1 [[5]].

(** ** Vocabulary for the gradient checker *)

(** Every entry of the two gradients differs by less than the tolerance. *)
Definition all_close (e t : Tensor2 R) : Prop :=
  forall i j, (i < rows2 e)%nat -> (j < cols2 e)%nat ->
    Rabs (get2 e i j - get2 t i j) < 1e-4.

(** The positions, in row-major order, where the difference reaches the
    tolerance. *)
Definition mismatch_pairs (e t : Tensor2 R) : list (nat * nat) :=
  flat_map (fun i =>
    flat_map (fun j =>
      if Rlt_dec (Rabs (get2 e i j - get2 t i j)) 1e-4 then []
      else [(i, j)])
      (seq 0 (cols2 e)))
    (seq 0 (rows2 e)).

(** What is printed after the line [... is wrong] of a failing
    parameter. *)
Definition diagnostics (e t : Tensor2 R) : list printed :=
  let diff := tab2 (rows2 e) (cols2 e)
                (fun i j => get2 e i j - get2 t i j) in
  let ratio := tab2 (rows2 e) (cols2 e)
                 (fun i j => Rabs (get2 e i j) / (1e-8 + Rabs (get2 t i j))) in
  [ Line "E-prop"; ArrayStr (upto5 e);
    Line "True gradients"; ArrayStr (upto5 t);
    Line "Difference"; ArrayStr (upto5 diff);
    Line "Ratio"; ArrayStr (upto5 ratio);
    IndexList "mismatch indices" (firstn 5 (mismatch_pairs e t));
    ValueList "diff. vals"
      (map (fun ij => get2 diff (fst ij) (snd ij))
           (firstn 5 (mismatch_pairs e t))) ].

(** The line that reports a parameter as passing or as failing. *)
Definition is_verdict (p : printed) : Prop :=
  exists v, p = correct_line v \/ p = wrong_line v.

(** Two parameters whose gradients both miss the reference by 1. *)
Definition var_a : TfVariable := mkTfVariable "a".
Definition var_b : TfVariable := mkTfVariable "b".
Definition grad_one : Tensor2 R := mkTensor2 1 1 [[1]].
Definition grad_zero : Tensor2 R := mkTensor2 1 1 [[0]].

(** A gradient that misses the reference [grad_zero] by twice the
    tolerance, and one that misses it by exactly the tolerance. *)
Definition grad_twice_tol : Tensor2 R := mkTensor2 1 1 [[2e-4]].
Definition grad_tol : Tensor2 R := mkTensor2 1 1 [[1e-4]].

(** A cell with two inputs and three neurons, the default time constant,
    threshold, time step and dampening factor, and all weights drawn
    as 1. *)
Definition demo_cell : LightLIF :=
  __init__ 2 3 20 0.615 1 0.3 false (fun _ _ => 1) (fun _ _ => 1).

(** One batch element with input [[1, 1]]. *)
Definition demo_input : Tensor2 R := mkTensor2 1 2 [[1; 1]].

(** Scaled voltages at the threshold and above it, and a gradient of
    ones. *)
Definition demo_v_scaled : Tensor2 R := mkTensor2 1 2 [[0; 1 / 2]].
Definition demo_dy : Tensor2 R := mkTensor2 1 2 [[1; 1]].

(** A stored recurrent matrix with a non-zero diagonal. *)
Definition sevens : Tensor2 R := tab2 3 3 (fun _ _ => 7).

(** ** The declared sizes of the cell *)

(** [LightLIF.state_size]: the widths of the voltage state and of the spike
    state, [LightLIFStateTuple(v=n_rec, z=n_rec)]. *)
Definition state_size (self : LightLIF) : nat * nat :=
  (n_rec self, n_rec self).

(** [LightLIF.output_size] *)
Definition output_size (self : LightLIF) : list nat :=
  [n_rec self; n_rec self].

(** A state of [demo_cell] for one batch element: voltages below, at and
    above the threshold, and a spike from the third neuron. *)
Definition demo_state : LightLIFStateTuple :=
  mkLightLIFStateTuple (mkTensor2 1 3 [[0; 0.5; 1]])
                       (mkTensor2 1 3 [[0; 0; 1]]).

(** A quiet state of [demo_cell]: voltages below the threshold and no
    spike. *)
Definition quiet_state : LightLIFStateTuple :=
  mkLightLIFStateTuple (mkTensor2 1 3 [[0.5; -1; 0]]) (zeros 1 3).

(** [demo_cell] with the threshold negated. *)
Definition negative_thr_cell : LightLIF :=
  __init__ 2 3 20 (-0.615) 1 0.3 false (fun _ _ => 1) (fun _ _ => 1).

(** An input of width 3, one more than [demo_cell] takes. *)
Definition wide_input : Tensor2 R := mkTensor2 1 3 [[1; 1; 1]].

(** A second batch element next to the one of [demo_input]. *)
Definition two_row_input : Tensor2 R := mkTensor2 2 2 [[1; 1]; [4; 5]].
Definition two_row_input' : Tensor2 R := mkTensor2 2 2 [[1; 1]; [6; 7]].

(** [two_step_sequence] with another last time step, and a constant
    sequence of three time steps. *)
Definition two_step_sequence' : Tensor3 R := mkTensor3 1 2 1 [[[1]; [9]]].

(** A slice with two rows, one more than the sequences above have
    trials. *)
Definition tall_slice : Tensor2 R := mkTensor2 2 1 [[5]; [6]].

(** One trial, three time steps, one neuron. *)
Definition three_step_sequence : Tensor3 R :=
  mkTensor3 1 3 1 [[[1]; [2]; [3]]].

(** The first [k] positions of the two gradient lists hold pairs of one
    shape whose entries all differ by less than the tolerance. *)
Definition first_pass (eg tg : list (Tensor2 R)) (k : nat) : Prop :=
  forall i, (i < k)%nat ->
    exists e t, nth_error eg i = Some e /\ nth_error tg i = Some t /\
                shape2 e = shape2 t /\ all_close e t.

(** The two shapes cannot be broadcast against each other. *)
Definition not_broadcastable (e t : Tensor2 R) : Prop :=
  (rows2 e <> rows2 t /\ rows2 e <> 1%nat /\ rows2 t <> 1%nat) \/
  (cols2 e <> cols2 t /\ cols2 e <> 1%nat /\ cols2 t <> 1%nat).

(** A gradient with two rows and a reference with three. *)
Definition grad_two_rows : Tensor2 R := mkTensor2 2 1 [[0]; [0]].
Definition grad_three_rows : Tensor2 R := mkTensor2 3 1 [[0]; [0]; [0]].

(** ** The target signal *)

(** The exceptions [sum_of_sines_target] can end in. *)
Inductive py_exn : Type :=
| Builtin (e : exn)
| AssertionError
| ZeroDivisionError
| TypeError.

Inductive result (A : Type) : Type :=
| Ok (a : A)
| Err (e : py_exn).
Arguments Ok {A}.
Arguments Err {A}.

(** What the function returns: an array, or the integer that [sum] gives
    for an empty list. *)
Inductive target : Type :=
| Scalar (n : Z)
| Array (a : list R).

(** The samples in [0, 1) behind the calls of [np.random.uniform], by
    position. *)
Record draws : Type := mkDraws {
  u_periods : nat -> R;
  u_weights : nat -> R;
  u_phases : nat -> R
}.

(** [np.random.uniform(low, high)] from a sample [u]. *)
Definition uniform (low high u : R) : R := low + (high - low) * u.

(** [a // b] *)
Definition floor_div (a b : R) : option R :=
  if Req_dec_T b 0 then None else Some (IZR (Int_part (a / b))).

(** [np.linspace(start, stop, num)] *)
Definition linspace (start stop : R) (num : nat) : list R :=
  map (fun i => start + INR i * ((stop - start) / INR (num - 1)))
      (seq 0 num).

(** The loop that builds [sines], over the positions [indices]. *)
Fixpoint sines_from (seq_len : nat) (periods weights phases : list R)
    (indices : list nat) : result (list (list R)) :=
  match indices with
  | [] => Ok []
  | i :: rest =>
    match nth_error phases i with
    | None => Err (Builtin IndexError)
    | Some phase =>
    match nth_error periods i with
    | None => Err (Builtin IndexError)
    | Some period =>
    match floor_div (INR seq_len) period with
    | None => Err ZeroDivisionError
    | Some cycles =>
      let sine :=
        map sin (linspace (0 + phase) (PI * 2 * cycles + phase) seq_len) in
      match nth_error weights i with
      | None => Err (Builtin IndexError)
      | Some weight =>
        match sines_from seq_len periods weights phases rest with
        | Err e => Err e
        | Ok sines => Ok (map (fun x => x * weight) sine :: sines)
        end
      end
    end end end
  end.

(** [acc + a] for an accumulator that is the integer start value of [sum]
    or an array of the length of [a]. *)
Definition add_array (acc : target) (a : list R) : target :=
  match acc with
  | Scalar n => Array (map (fun x => IZR n + x) a)
  | Array b => Array (map (fun p => fst p + snd p) (combine b a))
  end.

(** [sum(sines)] *)
Definition py_sum (arrays : list (list R)) : target :=
  fold_left add_array arrays (Scalar 0).

(** [np.min] and [np.max] of a rank-1 array. *)
Definition np_min (a : list R) : option R :=
  match a with
  | [] => None
  | x :: rest => Some (fold_left Rmin rest x)
  end.

Definition np_max (a : list R) : option R :=
  match a with
  | [] => None
  | x :: rest => Some (fold_left Rmax rest x)
  end.

Definition default_periods : list R := [1000; 500; 333; 200].

Definition sum_of_sines_target (rng : draws) (seq_len n_sines : nat)
    (periods weights phases : option (list R)) (normalize : bool)
  : result target :=
  let periods :=
    match periods with
    | None => map (fun i => uniform 100 1000 (u_periods rng i))
                  (seq 0 n_sines)
    | Some given => given
    end in
  if negb (n_sines =? length periods)%nat then Err AssertionError else
  let weights :=
    match weights with
    | None => map (fun i => uniform 0.5 2 (u_weights rng i)) (seq 0 n_sines)
    | Some given => given
    end in
  let phases :=
    match phases with
    | None => map (fun i => uniform 0 (PI * 2) (u_phases rng i))
                  (seq 0 n_sines)
    | Some given => given
    end in
  match sines_from seq_len periods weights phases (seq 0 n_sines) with
  | Err e => Err e
  | Ok sines =>
    let output := py_sum sines in
    if normalize then
      match output with
      | Scalar _ => Err TypeError
      | Array a =>
        match a with
        | [] => Err (Builtin IndexError)
        | first :: _ =>
          let shifted := map (fun x => x - first) a in
          match np_min shifted, np_max shifted with
          | Some lo, Some hi =>
            let scale := Rmax (Rabs lo) (Rabs hi) in
            Ok (Array (map (fun x => x / Rmax scale 1e-6) shifted))
          | _, _ => Err (Builtin ValueError)
          end
        end
      end
    else Ok output
  end.

(** Samples that are all one half. *)
Definition half_draws : draws :=
  mkDraws (fun _ => 1 / 2) (fun _ => 1 / 2) (fun _ => 1 / 2).

(** * Properties *)

(** ** Entries of tabulated tensors *)

Lemma nth_map_seq {A : Type} (f : nat -> A) (n i : nat) (d : A) :
  (i < n)%nat -> nth i (map f (seq 0 n)) d = f i.
Proof.
  intros Hi.
  rewrite (nth_indep _ d (f 0%nat)) by (rewrite length_map, length_seq; exact Hi).
  rewrite map_nth, seq_nth by exact Hi.
  reflexivity.
Qed.

Lemma map_seq_ext {A : Type} (f g : nat -> A) (n : nat) :
  (forall i, (i < n)%nat -> f i = g i) ->
  map f (seq 0 n) = map g (seq 0 n).
Proof.
  intros Hfg. apply map_ext_in. intros i Hi.
  apply in_seq in Hi. apply Hfg. lia.
Qed.

Lemma get2_tab2 {A : Type} `{Default A} (r c : nat) (f : nat -> nat -> A)
    (i j : nat) :
  (i < r)%nat -> (j < c)%nat -> get2 (tab2 r c f) i j = f i j.
Proof.
  intros Hi Hj. unfold get2, tab2. cbn [data2].
  rewrite (nth_map_seq (fun i => map (fun j => f i j) (seq 0 c))) by exact Hi.
  apply (nth_map_seq (fun j => f i j)). exact Hj.
Qed.

Lemma get3_tab3 {A : Type} `{Default A} (a b c : nat)
    (f : nat -> nat -> nat -> A) (i j k : nat) :
  (i < a)%nat -> (j < b)%nat -> (k < c)%nat ->
  get3 (tab3 a b c f) i j k = f i j k.
Proof.
  intros Hi Hj Hk. unfold get3, tab3. cbn [data3].
  rewrite (nth_map_seq
             (fun i => map (fun j => map (fun k => f i j k) (seq 0 c)) (seq 0 b)))
    by exact Hi.
  rewrite (nth_map_seq (fun j => map (fun k => f i j k) (seq 0 c)))
    by exact Hj.
  apply (nth_map_seq (fun k => f i j k)). exact Hk.
Qed.

Lemma tab2_ext {A : Type} (r c : nat) (f g : nat -> nat -> A) :
  (forall i j, (i < r)%nat -> (j < c)%nat -> f i j = g i j) ->
  tab2 r c f = tab2 r c g.
Proof.
  intros Hfg. unfold tab2. f_equal.
  apply map_seq_ext. intros i Hi.
  apply map_seq_ext. intros j Hj. apply Hfg; assumption.
Qed.

Lemma tab3_ext {A : Type} (a b c : nat) (f g : nat -> nat -> nat -> A) :
  (forall i j k, (i < a)%nat -> (j < b)%nat -> (k < c)%nat ->
                 f i j k = g i j k) ->
  tab3 a b c f = tab3 a b c g.
Proof.
  intros Hfg. unfold tab3. f_equal.
  apply map_seq_ext. intros i Hi.
  apply map_seq_ext. intros j Hj.
  apply map_seq_ext. intros k Hk. apply Hfg; assumption.
Qed.

Lemma wf2_tab2 {A : Type} (r c : nat) (f : nat -> nat -> A) :
  wf2 (tab2 r c f).
Proof.
  unfold wf2, tab2. cbn [data2 rows2 cols2]. split.
  - rewrite length_map, length_seq. reflexivity.
  - apply Forall_forall. intros row Hrow.
    apply in_map_iff in Hrow. destruct Hrow as [i [<- _]].
    rewrite length_map, length_seq. reflexivity.
Qed.

Lemma get2_map2d {A B : Type} `{Default A} `{Default B} (f : A -> B)
    (M : Tensor2 A) (i j : nat) :
  (i < rows2 M)%nat -> (j < cols2 M)%nat ->
  get2 (map2d f M) i j = f (get2 M i j).
Proof. intros Hi Hj. unfold map2d. rewrite get2_tab2; auto. Qed.

Lemma map2d_of_shape {A B : Type} `{Default A} (f : A -> B)
    (M : Tensor2 A) (r c : nat) :
  rows2 M = r -> cols2 M = c ->
  map2d f M = tab2 r c (fun i j => f (get2 M i j)).
Proof. intros <- <-. reflexivity. Qed.

(** ** Broadcasting between tensors of one shape *)

Lemma broadcast_dim_same (a : nat) : broadcast_dim a a = Some a.
Proof. unfold broadcast_dim. rewrite Nat.eqb_refl. reflexivity. Qed.

Lemma bidx_in_range (dim i : nat) : (i < dim)%nat -> bidx dim i = i.
Proof.
  intros Hi. unfold bidx.
  destruct (Nat.eqb_spec dim 1); [lia | reflexivity].
Qed.

Lemma zip2d_same_shape {A B C : Type} `{Default A} `{Default B}
    (f : A -> B -> C) (M : Tensor2 A) (N : Tensor2 B) :
  rows2 M = rows2 N -> cols2 M = cols2 N ->
  zip2d f M N =
  Some (tab2 (rows2 M) (cols2 M) (fun i j => f (get2 M i j) (get2 N i j))).
Proof.
  intros Hr Hc. unfold zip2d. rewrite <- Hr, <- Hc.
  rewrite !broadcast_dim_same. cbn [bind]. f_equal.
  apply tab2_ext. intros i j Hi Hj.
  rewrite !bidx_in_range by assumption. reflexivity.
Qed.

Lemma zip2d_tab2 {A B C : Type} `{Default A} `{Default B}
    (f : A -> B -> C) (r c : nat) (g : nat -> nat -> A)
    (h : nat -> nat -> B) :
  zip2d f (tab2 r c g) (tab2 r c h) =
  Some (tab2 r c (fun i j => f (g i j) (h i j))).
Proof.
  rewrite zip2d_same_shape by reflexivity. cbn [rows2 cols2 tab2]. f_equal.
  apply tab2_ext. intros i j Hi Hj. rewrite !get2_tab2 by assumption.
  reflexivity.
Qed.

Lemma map2d_tab2 {A B : Type} `{Default A} (f : A -> B) (r c : nat)
    (g : nat -> nat -> A) :
  map2d f (tab2 r c g) = tab2 r c (fun i j => f (g i j)).
Proof.
  unfold map2d. cbn [rows2 cols2 tab2].
  apply tab2_ext. intros i j Hi Hj. rewrite get2_tab2 by assumption.
  reflexivity.
Qed.

(** ** The spike function *)

Lemma Rgtb_pos (x : R) : x > 0 -> Rgtb x 0 = true.
Proof. intros Hx. unfold Rgtb. destruct (Rgt_dec x 0); [reflexivity | lra]. Qed.

Lemma Rgtb_nonpos (x : R) : x <= 0 -> Rgtb x 0 = false.
Proof. intros Hx. unfold Rgtb. destruct (Rgt_dec x 0); [lra | reflexivity]. Qed.

Lemma SpikeFunction_value (v_scaled : Tensor2 R) (d : R) :
  fst (SpikeFunction v_scaled d) =
  tab2 (rows2 v_scaled) (cols2 v_scaled)
       (fun i j => if Rgtb (get2 v_scaled i j) 0 then 1 else 0).
Proof.
  unfold SpikeFunction, identity, cast_float, greater. cbn [fst].
  unfold map2d at 2. rewrite map2d_tab2. reflexivity.
Qed.

Lemma pseudo_derivative_value (v_scaled : Tensor2 R) (d : R) :
  pseudo_derivative v_scaled d =
  tab2 (rows2 v_scaled) (cols2 v_scaled)
       (fun i j => Rmax (1 - Rabs (get2 v_scaled i j)) 0 * d).
Proof.
  unfold pseudo_derivative. unfold map2d at 4. rewrite !map2d_tab2.
  reflexivity.
Qed.

(** C4.  The forward value of [SpikeFunction] has the shape of [v_scaled]
    and, at every entry, is exactly 1 where [v_scaled > 0] and exactly 0
    otherwise; at [v_scaled = 0] it is 0; every entry is 0 or 1; and the
    value is the same for every dampening factor. *)
Theorem SpikeFunction_forward_heaviside
    (v_scaled : Tensor2 R) (d : R) (i j : nat)
    (Hi : (i < rows2 v_scaled)%nat) (Hj : (j < cols2 v_scaled)%nat) :
  let out := fst (SpikeFunction v_scaled d) in
  shape2 out = shape2 v_scaled /\
  (get2 v_scaled i j > 0 -> get2 out i j = 1) /\
  (get2 v_scaled i j <= 0 -> get2 out i j = 0) /\
  (get2 v_scaled i j = 0 -> get2 out i j = 0) /\
  (get2 out i j = 0 \/ get2 out i j = 1) /\
  (forall d', fst (SpikeFunction v_scaled d') = out).
Proof.
  intros out. subst out. rewrite SpikeFunction_value.
  rewrite get2_tab2 by assumption.
  split; [reflexivity |].
  split; [intros Hpos; rewrite Rgtb_pos by exact Hpos; reflexivity |].
  split; [intros Hle; rewrite Rgtb_nonpos by exact Hle; reflexivity |].
  split; [intros H0; rewrite Rgtb_nonpos by lra; reflexivity |].
  split.
  - destruct (Rgtb (get2 v_scaled i j) 0); [right | left]; reflexivity.
  - intros d'. apply SpikeFunction_value.
Qed.

(** C5.  For an incoming gradient [dy] of the shape of [v_scaled], the
    backward rule of [SpikeFunction] returns, for [v_scaled], the tensor
    with entries [dy * (max (1 - |v_scaled|) 0 * d)], which is
    [dy * pseudo_derivative v_scaled d], and, for the dampening factor,
    exactly zero. *)
Theorem SpikeFunction_backward_rule
    (v_scaled dy : Tensor2 R) (d : R)
    (Hshape : shape2 dy = shape2 v_scaled) :
  snd (SpikeFunction v_scaled d) dy =
    Some (tab2 (rows2 v_scaled) (cols2 v_scaled)
            (fun i j => get2 dy i j *
                        (Rmax (1 - Rabs (get2 v_scaled i j)) 0 * d)),
          0) /\
  zip2d Rmult dy (pseudo_derivative v_scaled d) =
    Some (tab2 (rows2 v_scaled) (cols2 v_scaled)
            (fun i j => get2 dy i j *
                        (Rmax (1 - Rabs (get2 v_scaled i j)) 0 * d))) /\
  forall i j, (i < rows2 v_scaled)%nat -> (j < cols2 v_scaled)%nat ->
    get2 (pseudo_derivative v_scaled d) i j =
    Rmax (1 - Rabs (get2 v_scaled i j)) 0 * d.
Proof.
  unfold shape2 in Hshape. injection Hshape as Hr Hc.
  assert (Hzip : zip2d Rmult dy (pseudo_derivative v_scaled d) =
    Some (tab2 (rows2 v_scaled) (cols2 v_scaled)
            (fun i j => get2 dy i j *
                        (Rmax (1 - Rabs (get2 v_scaled i j)) 0 * d)))).
  { rewrite pseudo_derivative_value.
    rewrite zip2d_same_shape by (cbn [rows2 cols2 tab2]; assumption).
    rewrite Hr, Hc. f_equal. apply tab2_ext. intros i j Hi Hj.
    rewrite get2_tab2 by assumption. reflexivity. }
  split; [| split].
  - unfold SpikeFunction. cbn [snd]. rewrite Hzip. reflexivity.
  - exact Hzip.
  - intros i j Hi Hj. rewrite pseudo_derivative_value.
    rewrite get2_tab2 by assumption. reflexivity.
Qed.

(** ** The LIF step *)

Lemma sum_n_ext (n : nat) (f g : nat -> R) :
  (forall k, (k < n)%nat -> f k = g k) -> sum_n n f = sum_n n g.
Proof.
  intros Hfg. unfold sum_n. f_equal. apply map_seq_ext. exact Hfg.
Qed.

Lemma sum_n_zero (n : nat) (f : nat -> R) :
  (forall k, (k < n)%nat -> f k = 0) -> sum_n n f = 0.
Proof.
  intros Hf. unfold sum_n.
  assert (Hall : forall l, (forall k, In k l -> f k = 0) ->
                           fold_right Rplus 0 (map f l) = 0).
  { induction l as [| k l IH]; intros Hl; cbn [map fold_right].
    - reflexivity.
    - rewrite Hl by (left; reflexivity).
      rewrite IH by (intros k' Hk'; apply Hl; right; exact Hk'). lra. }
  apply Hall. intros k Hk. apply in_seq in Hk. apply Hf. lia.
Qed.

Lemma matmul_value (M N : Tensor2 R) :
  cols2 M = rows2 N ->
  matmul M N =
  Some (tab2 (rows2 M) (cols2 N)
          (fun i j => sum_n (cols2 M) (fun k => get2 M i k * get2 N k j))).
Proof.
  intros Hinner. unfold matmul.
  rewrite (proj2 (Nat.eqb_eq _ _) Hinner). reflexivity.
Qed.

Lemma w_rec_val_value (self : LightLIF) :
  shape2 (w_rec_var self) = (n_rec self, n_rec self) ->
  w_rec_val self =
  Some (tab2 (n_rec self) (n_rec self)
          (fun i j => if (i =? j)%nat then 0 else get2 (w_rec_var self) i j)).
Proof.
  intros Hshape. unfold shape2 in Hshape. injection Hshape as Hr Hc.
  unfold w_rec_val, where_, recurrent_disconnect_mask, zeros_like, zeros.
  cbn [rows2 cols2 tab2]. rewrite Hr, Hc, !Nat.eqb_refl. cbn [andb].
  f_equal. apply tab2_ext. intros i j Hi Hj.
  rewrite !get2_tab2 by assumption. reflexivity.
Qed.

Lemma Heaviside_Rgtb (x : R) : (if Rgtb x 0 then 1 else 0) = Heaviside x.
Proof. unfold Rgtb, Heaviside. destruct (Rgt_dec x 0); reflexivity. Qed.

Lemma stop_gradient_value (flag : bool) (t : Tensor2 R) :
  (if flag then stop_gradient t else t) = t.
Proof. destruct flag; reflexivity. Qed.

Lemma call_value
    (self : LightLIF) (inputs : Tensor2 R) (state : LightLIFStateTuple)
    (batch : nat)
    (Hcell : cell_shapes self)
    (Hin : shape2 inputs = (batch, n_in self))
    (Hv : shape2 (v state) = (batch, n_rec self))
    (Hz : shape2 (z state) = (batch, n_rec self)) :
  __call__ self inputs state = Some (step_spec self inputs state).
Proof.
  destruct Hcell as [Hwin Hwrec].
  pose proof (w_rec_val_value self Hwrec) as Hmask.
  unfold shape2 in *.
  injection Hwin as Hwin_r Hwin_c. injection Hwrec as Hwrec_r Hwrec_c.
  injection Hin as Hin_r Hin_c.
  injection Hv as Hv_r Hv_c. injection Hz as Hz_r Hz_c.
  unfold __call__. rewrite stop_gradient_value, Hmask. cbn [bind].
  unfold w_in_val, identity.
  rewrite matmul_value by congruence. cbn [bind].
  rewrite matmul_value by (cbn [rows2 tab2]; congruence). cbn [bind].
  cbn [cols2 rows2 tab2].
  rewrite Hin_r, Hin_c, Hwin_c, Hz_r, Hz_c.
  rewrite zip2d_tab2. cbn [bind].
  rewrite map2d_tab2.
  rewrite (map2d_of_shape _ (v state) batch (n_rec self)) by assumption.
  rewrite zip2d_tab2. cbn [bind].
  rewrite (map2d_of_shape _ (z state) batch (n_rec self)) by assumption.
  rewrite map2d_tab2, zip2d_tab2. cbn [bind].
  rewrite SpikeFunction_value. rewrite !map2d_tab2.
  cbn [rows2 cols2 tab2].
  unfold step_spec.
  match goal with
  | |- Some (?Z, ?V, _) = _ =>
      assert (HV : V = spec_v_next self inputs state);
      [| assert (HZ : Z = spec_z_next self inputs state);
         [| rewrite HV, HZ; reflexivity]]
  end.
  - unfold spec_v_next, spec_i_t, spec_i_reset, spec_decay, _decay,
      spec_recurrentWeights.
    rewrite Hin_r. apply tab2_ext. intros i j Hi Hj.
    f_equal. f_equal. f_equal. f_equal.
    apply sum_n_ext. intros k Hk. rewrite get2_tab2 by assumption.
    reflexivity.
  - unfold spec_z_next. rewrite <- HV. rewrite Hin_r.
    apply tab2_ext. intros i j Hi Hj.
    rewrite !get2_tab2 by assumption. rewrite Heaviside_Rgtb.
    rewrite Rmult_1_r. reflexivity.
Qed.

(** C3.  On an input of shape [batch x n_in] and a state of shape
    [batch x n_rec], [__call__] returns exactly
    [(z_next, v_next, state (v_next, z_next))] with
    [i_t = input_t . inputWeights + z_prev . recurrentWeights],
    [i_reset = z_prev * threshold * dt],
    [v_next = decay * voltage + (1 - decay) * i_t - i_reset],
    [decay = exp (- dt / tau)] and
    [z_next = Heaviside ((v_next - threshold) / threshold) / dt]. *)
Theorem call_is_step_spec
    (self : LightLIF) (inputs : Tensor2 R) (state : LightLIFStateTuple)
    (batch : nat)
    (Hcell : cell_shapes self)
    (Hin : shape2 inputs = (batch, n_in self))
    (Hv : shape2 (v state) = (batch, n_rec self))
    (Hz : shape2 (z state) = (batch, n_rec self)) :
  __call__ self inputs state =
    Some (spec_z_next self inputs state, spec_v_next self inputs state,
          mkLightLIFStateTuple (spec_v_next self inputs state)
                               (spec_z_next self inputs state)) /\
  spec_decay self = exp (- dt self / tau self) /\
  (forall b j, (b < batch)%nat -> (j < n_rec self)%nat ->
     get2 (spec_v_next self inputs state) b j =
       spec_decay self * get2 (v state) b j
       + (1 - spec_decay self) * spec_i_t self inputs state b j
       - get2 (z state) b j * thr self * dt self) /\
  (forall b j, (b < batch)%nat -> (j < n_rec self)%nat ->
     get2 (spec_z_next self inputs state) b j =
       Heaviside ((get2 (spec_v_next self inputs state) b j - thr self)
                  / thr self) / dt self).
Proof.
  split; [exact (call_value self inputs state batch Hcell Hin Hv Hz) |].
  split; [reflexivity |].
  unfold shape2 in Hin. injection Hin as Hin_r Hin_c.
  split; intros b j Hb Hj.
  - unfold spec_v_next. rewrite Hin_r, get2_tab2 by assumption. reflexivity.
  - unfold spec_z_next. rewrite Hin_r, get2_tab2 by assumption. reflexivity.
Qed.

(** ** The resting state *)

Lemma get2_zeros (r c i j : nat) : get2 (zeros r c) i j = 0.
Proof.
  destruct (Nat.lt_ge_cases i r) as [Hi | Hi];
    [destruct (Nat.lt_ge_cases j c) as [Hj | Hj] |].
  - unfold zeros. rewrite get2_tab2 by assumption. reflexivity.
  - unfold zeros, get2, tab2. cbn [data2].
    rewrite (nth_map_seq (fun _ => map (fun _ => 0) (seq 0 c))) by exact Hi.
    apply nth_overflow. rewrite length_map, length_seq. exact Hj.
  - unfold zeros, get2, tab2. cbn [data2].
    rewrite (nth_overflow _ [])
      by (rewrite length_map, length_seq; exact Hi).
    destruct j; reflexivity.
Qed.

Lemma call_at_rest (self : LightLIF) (batch_size : nat) :
  cell_shapes self -> 0 < thr self ->
  __call__ self (zeros batch_size (n_in self))
           (zero_state self batch_size None) =
  Some (zeros batch_size (n_rec self), zeros batch_size (n_rec self),
        zero_state self batch_size None).
Proof.
  intros Hcell Hthr.
  rewrite (call_value self _ _ batch_size Hcell) by reflexivity.
  assert (HV : spec_v_next self (zeros batch_size (n_in self))
                 (zero_state self batch_size None)
               = zeros batch_size (n_rec self)).
  { unfold spec_v_next, zeros at 3. cbn [rows2 zeros tab2].
    apply tab2_ext. intros b j Hb Hj.
    unfold spec_i_t, spec_i_reset, zero_state. cbn [v z].
    rewrite !get2_zeros.
    rewrite (sum_n_zero (n_in self))
      by (intros k Hk; rewrite get2_zeros; lra).
    rewrite (sum_n_zero (n_rec self))
      by (intros k Hk; rewrite get2_zeros; lra).
    lra. }
  assert (HZ : spec_z_next self (zeros batch_size (n_in self))
                 (zero_state self batch_size None)
               = zeros batch_size (n_rec self)).
  { unfold spec_z_next. rewrite HV. unfold zeros at 3.
    cbn [rows2 zeros tab2].
    apply tab2_ext. intros b j Hb Hj. rewrite get2_zeros.
    unfold Heaviside.
    destruct (Rgt_dec ((0 - thr self) / thr self) 0) as [Hgt | Hle].
    - exfalso. replace ((0 - thr self) / thr self) with (-1) in Hgt
        by (field; lra). lra.
    - lra. }
  unfold step_spec. rewrite HV, HZ. reflexivity.
Qed.

(** C2.  For a cell with positive [tau], [dt] and threshold, every batch
    size and every number of steps: one step from the all-zero state on an
    all-zero input returns zero spikes, zero voltages and the all-zero state
    again, and so does every step of a run over an all-zero input
    sequence. *)
Theorem resting_state_is_fixed_point
    (self : LightLIF) (batch_size steps : nat)
    (Hcell : cell_shapes self)
    (Htau : 0 < tau self) (Hdt : 0 < dt self) (Hthr : 0 < thr self) :
  __call__ self (zeros batch_size (n_in self))
           (zero_state self batch_size None) =
    Some (zeros batch_size (n_rec self), zeros batch_size (n_rec self),
          zero_state self batch_size None) /\
  unroll self (repeat (zeros batch_size (n_in self)) steps)
         (zero_state self batch_size None) =
    Some (repeat (zeros batch_size (n_rec self),
                  zeros batch_size (n_rec self)) steps,
          zero_state self batch_size None).
Proof.
  pose proof (call_at_rest self batch_size Hcell Hthr) as Hstep.
  split; [exact Hstep |].
  induction steps as [| n IH]; cbn [repeat unroll].
  - reflexivity.
  - rewrite Hstep. cbn [bind snd fst]. rewrite IH. reflexivity.
Qed.

(** ** The recurrent weights as the step reads them *)

Lemma assign_w_rec_shapes (self : LightLIF) (w : Tensor2 R) :
  cell_shapes self -> shape2 w = (n_rec self, n_rec self) ->
  cell_shapes (assign_w_rec self w).
Proof.
  intros [Hin _] Hw. split; cbn [assign_w_rec w_in_var w_rec_var n_in n_rec];
    assumption.
Qed.

Lemma init_shapes (n_in n_rec : nat) (tau thr dt damp : R) (stop : bool)
    (w_in_init w_rec_init : nat -> nat -> R) :
  cell_shapes (__init__ n_in n_rec tau thr dt damp stop w_in_init w_rec_init).
Proof. split; reflexivity. Qed.

Lemma call_reads_w_rec_val (self self' : LightLIF) :
  n_in self' = n_in self -> n_rec self' = n_rec self ->
  tau self' = tau self -> thr self' = thr self -> dt self' = dt self ->
  dampening_factor self' = dampening_factor self ->
  stop_z_gradients self' = stop_z_gradients self ->
  w_in_var self' = w_in_var self ->
  w_rec_val self' = w_rec_val self ->
  forall inputs state, __call__ self' inputs state = __call__ self inputs state.
Proof.
  intros Hnin Hnrec Htau Hthr Hdt Hdamp Hstop Hwin Hwrec inputs state.
  unfold __call__, _decay, w_in_val.
  rewrite Htau, Hthr, Hdt, Hdamp, Hstop, Hwin, Hwrec. reflexivity.
Qed.

(** C8.  Whatever value of its shape is stored in the recurrent weight
    variable, the matrix [w_rec_val] that [__call__] reads is the stored
    matrix with the diagonal replaced by zero: its diagonal is identically
    zero, its other entries are the stored ones, and the result of
    [__call__] does not depend on the stored diagonal.  The mask is applied
    to the value that is stored when the step runs, not only to the value
    drawn at construction. *)
Theorem recurrent_diagonal_zero_at_every_read
    (self : LightLIF) (w : Tensor2 R)
    (Hw : shape2 w = (n_rec self, n_rec self)) :
  exists w_used : Tensor2 R,
    w_rec_val (assign_w_rec self w) = Some w_used /\
    shape2 w_used = (n_rec self, n_rec self) /\
    (forall i, (i < n_rec self)%nat -> get2 w_used i i = 0) /\
    (forall i j, (i < n_rec self)%nat -> (j < n_rec self)%nat -> i <> j ->
       get2 w_used i j = get2 w i j) /\
    (forall w' : Tensor2 R,
       shape2 w' = (n_rec self, n_rec self) ->
       (forall i j, (i < n_rec self)%nat -> (j < n_rec self)%nat -> i <> j ->
          get2 w' i j = get2 w i j) ->
       w_rec_val (assign_w_rec self w') = Some w_used /\
       forall inputs state,
         __call__ (assign_w_rec self w') inputs state =
         __call__ (assign_w_rec self w) inputs state).
Proof.
  pose proof (w_rec_val_value (assign_w_rec self w) Hw) as Hval.
  cbn [assign_w_rec n_rec w_rec_var] in Hval.
  eexists. split; [exact Hval |].
  split; [reflexivity |].
  split; [| split].
  - intros i Hi. rewrite get2_tab2 by assumption.
    rewrite Nat.eqb_refl. reflexivity.
  - intros i j Hi Hj Hij. rewrite get2_tab2 by assumption.
    destruct (Nat.eqb_spec i j); [contradiction | reflexivity].
  - intros w' Hw' Hoff.
    pose proof (w_rec_val_value (assign_w_rec self w') Hw') as Hval'.
    cbn [assign_w_rec n_rec w_rec_var] in Hval'.
    assert (Hsame : w_rec_val (assign_w_rec self w') =
                    w_rec_val (assign_w_rec self w)).
    { rewrite Hval, Hval'. f_equal. apply tab2_ext. intros i j Hi Hj.
      destruct (Nat.eqb_spec i j); [reflexivity |].
      apply Hoff; assumption. }
    split; [rewrite Hsame; exact Hval |].
    apply call_reads_w_rec_val; try reflexivity. exact Hsame.
Qed.

(** ** Scans and rank-3 kernels *)

Lemma transpose_time_major {A : Type} `{Default A} (T : Tensor3 A) :
  transpose T ([1%nat; 0%nat] ++ skipn 2 (seq 0 3)) =
  Some (tab3 (dim1 T) (dim0 T) (dim2 T) (fun i j k => get3 T j i k)).
Proof. reflexivity. Qed.

Lemma nth_unstack {A : Type} `{Default A} (T : Tensor3 A) (t : nat)
    (d : Tensor2 A) :
  (t < dim0 T)%nat -> nth t (unstack T) d = slice0 T t.
Proof. intros Ht. unfold unstack. apply nth_map_seq. exact Ht. Qed.

Lemma unstack_shapes {A : Type} `{Default A} (T : Tensor3 A) :
  Forall (fun x => shape2 x = (dim1 T, dim2 T)) (unstack T).
Proof.
  apply Forall_forall. intros x Hx. unfold unstack in Hx.
  apply in_map_iff in Hx. destruct Hx as [t [<- _]]. reflexivity.
Qed.

Section ScanList.
Context {X Acc : Type}.
Variable fn : Acc -> X -> option Acc.
Variable okX : X -> Prop.
Variable okA : Acc -> Prop.
Hypothesis fn_total :
  forall a x, okA a -> okX x -> exists a', fn a x = Some a' /\ okA a'.

(** A scan whose step never fails returns one accumulator per element:
    the first from the initializer, each later one from its
    predecessor. *)
Lemma scan_list_total (xs : list X) :
  forall a, okA a -> Forall okX xs ->
  exists accs,
    scan_list fn xs a = Some accs /\
    length accs = length xs /\
    Forall okA accs /\
    (forall dX dA, (0 < length xs)%nat ->
       fn a (nth 0 xs dX) = Some (nth 0 accs dA)) /\
    (forall t dX dA, (S t < length xs)%nat ->
       fn (nth t accs dA) (nth (S t) xs dX) = Some (nth (S t) accs dA)).
Proof.
  induction xs as [| x rest IH]; intros a Ha Hxs.
  - exists []. cbn. repeat split; try constructor; intros; lia.
  - inversion Hxs as [| ? ? Hx Hrest]; subst.
    destruct (fn_total a x Ha Hx) as [a' [Hstep Ha']].
    destruct (IH a' Ha' Hrest) as [accs [Hscan [Hlen [Hok [Hfirst Hnext]]]]].
    exists (a' :: accs). cbn [scan_list]. rewrite Hstep. cbn [bind].
    rewrite Hscan. cbn [bind].
    split; [reflexivity |].
    split; [cbn [length]; rewrite Hlen; reflexivity |].
    split; [constructor; assumption |].
    split.
    + intros dX dA _. exact Hstep.
    + intros t dX dA Ht. cbn [length] in Ht.
      destruct t as [| t'].
      * cbn [nth]. apply Hfirst. lia.
      * cbn [nth]. apply Hnext. lia.
Qed.
End ScanList.

Lemma trace_step_value (a x : Tensor2 R) (B F : nat) (decay : R) :
  shape2 a = (B, F) -> shape2 x = (B, F) ->
  zip2d Rplus (map2d (fun y => y * decay) a)
              (map2d (fun y => (1 - decay) * y) x) =
  Some (tab2 B F (fun i j => get2 a i j * decay + (1 - decay) * get2 x i j)).
Proof.
  unfold shape2. intros Ha Hx.
  injection Ha as Har Hac. injection Hx as Hxr Hxc.
  rewrite (map2d_of_shape _ a B F), (map2d_of_shape _ x B F) by assumption.
  apply zip2d_tab2.
Qed.

Lemma get3_stack {A : Type} `{Default A} (r c : nat) (l : list (Tensor2 A))
    (t i j : nat) (d : Tensor2 A) :
  (t < length l)%nat -> (i < r)%nat -> (j < c)%nat ->
  get3 (stack r c l) t i j = get2 (nth t l d) i j.
Proof.
  intros Ht Hi Hj. unfold stack. rewrite get3_tab3 by assumption.
  rewrite (nth_indep l _ d) by exact Ht. reflexivity.
Qed.

(** The filter on a sequence with at least one time step. *)
Lemma exp_convolve_value (tensor : Tensor3 R) (decay : R) :
  (0 < dim1 tensor)%nat ->
  exists filtered : Tensor3 R,
    exp_convolve tensor decay = Some filtered /\
    shape3 filtered = shape3 tensor /\
    (forall b n, (b < dim0 tensor)%nat -> (n < dim2 tensor)%nat ->
       get3 filtered b 0 n = (1 - decay) * get3 tensor b 0 n) /\
    (forall b t n, (b < dim0 tensor)%nat -> (n < dim2 tensor)%nat ->
       (0 < t)%nat -> (t < dim1 tensor)%nat ->
       get3 filtered b t n =
       decay * get3 filtered b (t - 1) n + (1 - decay) * get3 tensor b t n).
Proof.
  intros Htime.
  set (B := dim0 tensor). set (Tm := dim1 tensor). set (F := dim2 tensor).
  unfold exp_convolve. rewrite transpose_time_major. cbn [bind].
  set (tm := tab3 (dim1 tensor) (dim0 tensor) (dim2 tensor)
               (fun i j k => get3 tensor j i k)).
  unfold index0.
  assert (Hdim0 : dim0 tm = Tm) by reflexivity.
  rewrite Hdim0. destruct (Nat.eqb_spec Tm 0) as [H0 | _]; [unfold Tm in H0; lia |].
  cbn [bind]. unfold zeros_like. cbn [rows2 cols2 slice0 tab2 dim1 dim2 tm tab3].
  fold B F.
  destruct (scan_list_total
              (fun a x => zip2d Rplus (map2d (fun y => y * decay) a)
                                      (map2d (fun y => (1 - decay) * y) x))
              (fun x => shape2 x = (B, F)) (fun a => shape2 a = (B, F)))
    with (xs := unstack tm) (a := zeros B F)
    as [accs [Hscan [Hlen [Hok [Hfirst Hnext]]]]].
  { intros a x Ha Hx. eexists. split; [apply trace_step_value; eassumption |].
    reflexivity. }
  { reflexivity. }
  { exact (unstack_shapes tm). }
  unfold scan. rewrite Hscan. cbn [bind rows2 cols2 zeros tab2].
  rewrite transpose_time_major. eexists. split; [reflexivity |].
  assert (Hlen' : length accs = Tm).
  { rewrite Hlen. unfold unstack. rewrite length_map, length_seq. exact Hdim0. }
  cbn [dim0 dim1 dim2 stack tab3]. rewrite Hlen'.
  split; [reflexivity |].
  assert (Hxs : length (unstack tm) = Tm).
  { unfold unstack. rewrite length_map, length_seq. exact Hdim0. }
  assert (Hentry : forall t b n, (t < Tm)%nat -> (b < B)%nat -> (n < F)%nat ->
            get2 (slice0 tm t) b n = get3 tensor b t n).
  { intros t b n Ht Hb Hn. unfold slice0. cbn [dim1 dim2 tm tab3].
    rewrite get2_tab2 by assumption. unfold tm.
    rewrite get3_tab3 by assumption. reflexivity. }
  split.
  - intros b n Hb Hn. rewrite get3_tab3 by assumption.
    fold (stack B F accs).
    rewrite (get3_stack B F accs 0 b n (zeros B F)) by lia.
    specialize (Hfirst (zeros B F) (zeros B F)).
    rewrite Hxs in Hfirst. specialize (Hfirst Htime).
    rewrite nth_unstack in Hfirst by (rewrite Hdim0; exact Htime).
    rewrite (trace_step_value _ _ B F) in Hfirst by reflexivity.
    injection Hfirst as <-. rewrite get2_tab2 by assumption.
    rewrite get2_zeros, Hentry by assumption. ring.
  - intros b t n Hb Hn Ht0 Ht. rewrite !get3_tab3 by (assumption || lia).
    fold (stack B F accs).
    rewrite (get3_stack B F accs t b n (zeros B F)) by lia.
    rewrite (get3_stack B F accs (t - 1) b n (zeros B F)) by lia.
    destruct t as [| t']; [lia |].
    replace (S t' - 1)%nat with t' by lia.
    specialize (Hnext t' (zeros B F) (zeros B F)).
    rewrite Hxs in Hnext. specialize (Hnext Ht).
    rewrite nth_unstack in Hnext by (rewrite Hdim0; exact Ht).
    assert (Hprev : shape2 (nth t' accs (zeros B F)) = (B, F)).
    { apply (proj1 (Forall_forall _ accs) Hok). apply nth_In. lia. }
    rewrite (trace_step_value _ _ B F) in Hnext by (exact Hprev || reflexivity).
    injection Hnext as <-. rewrite get2_tab2 by assumption.
    rewrite Hentry by assumption. ring.
Qed.

(** C6 (as amended).  For every sequence tensor with at least one time step
    and every decay, [exp_convolve] returns a tensor of exactly the shape of
    its argument with, along the time axis,
    [filtered[0] = (1 - decay) * raw[0]] and
    [filtered[t] = decay * filtered[t-1] + (1 - decay) * raw[t]] for
    [0 < t]; on a one-step sequence of constant value [c] the result is
    [(1 - decay) * c]. *)
Theorem exp_convolve_recurrence
    (tensor : Tensor3 R) (decay : R)
    (Htime : (0 < dim1 tensor)%nat) :
  exists filtered : Tensor3 R,
    exp_convolve tensor decay = Some filtered /\
    shape3 filtered = shape3 tensor /\
    (forall b n, (b < dim0 tensor)%nat -> (n < dim2 tensor)%nat ->
       get3 filtered b 0 n = (1 - decay) * get3 tensor b 0 n) /\
    (forall b t n, (b < dim0 tensor)%nat -> (n < dim2 tensor)%nat ->
       (0 < t)%nat -> (t < dim1 tensor)%nat ->
       get3 filtered b t n =
       decay * get3 filtered b (t - 1) n + (1 - decay) * get3 tensor b t n) /\
    (forall c, dim1 tensor = 1%nat ->
       (forall b n, (b < dim0 tensor)%nat -> (n < dim2 tensor)%nat ->
          get3 tensor b 0 n = c) ->
       forall b n, (b < dim0 tensor)%nat -> (n < dim2 tensor)%nat ->
         get3 filtered b 0 n = (1 - decay) * c).
Proof.
  destruct (exp_convolve_value tensor decay Htime)
    as [filtered [Hrun [Hshape [Hfirst Hnext]]]].
  exists filtered.
  split; [exact Hrun |]. split; [exact Hshape |].
  split; [exact Hfirst |]. split; [exact Hnext |].
  intros c _ Hconst b n Hb Hn.
  rewrite Hfirst, Hconst by assumption. reflexivity.
Qed.

(** C6, the claim as stated fails on a sequence without a time step: the
    zero initializer is built from the first time slice, which does not
    exist, and no tensor is returned. *)
Lemma exp_convolve_empty_sequence_fails :
  wf3 empty_time_sequence /\
  0 <= 1 / 2 < 1 /\
  exp_convolve empty_time_sequence (1 / 2) = None /\
  ~ (exists filtered : Tensor3 R,
       exp_convolve empty_time_sequence (1 / 2) = Some filtered /\
       shape3 filtered = shape3 empty_time_sequence).
Proof.
  split.
  { split; [reflexivity |]. repeat constructor. }
  split; [lra |].
  assert (Hnone : exp_convolve empty_time_sequence (1 / 2) = None)
    by reflexivity.
  split; [exact Hnone |].
  intros [filtered [Hrun _]]. rewrite Hnone in Hrun. discriminate.
Qed.

Lemma exp_convolve_recurrence_witness :
  (0 < dim1 two_step_sequence)%nat /\
  exists filtered : Tensor3 R,
    exp_convolve two_step_sequence (1 / 2) = Some filtered /\
    shape3 filtered = shape3 two_step_sequence /\
    (forall b n, (b < dim0 two_step_sequence)%nat ->
       (n < dim2 two_step_sequence)%nat ->
       get3 filtered b 0 n = (1 - 1 / 2) * get3 two_step_sequence b 0 n) /\
    (forall b t n, (b < dim0 two_step_sequence)%nat ->
       (n < dim2 two_step_sequence)%nat ->
       (0 < t)%nat -> (t < dim1 two_step_sequence)%nat ->
       get3 filtered b t n =
       1 / 2 * get3 filtered b (t - 1) n
       + (1 - 1 / 2) * get3 two_step_sequence b t n) /\
    (forall c, dim1 two_step_sequence = 1%nat ->
       (forall b n, (b < dim0 two_step_sequence)%nat ->
          (n < dim2 two_step_sequence)%nat ->
          get3 two_step_sequence b 0 n = c) ->
       forall b n, (b < dim0 two_step_sequence)%nat ->
         (n < dim2 two_step_sequence)%nat ->
         get3 filtered b 0 n = (1 - 1 / 2) * c).
Proof.
  split.
  - cbn. lia.
  - apply (exp_convolve_recurrence two_step_sequence (1 / 2)). cbn. lia.
Defined.

(** ** The time shift *)

(** The slice that [shift_by_one_time_step] puts first. *)
Lemma shift_value (tensor : Tensor3 R) (initializer : option (Tensor2 R)) :
  (0 < dim1 tensor)%nat ->
  (forall init, initializer = Some init ->
                shape2 init = (dim0 tensor, dim2 tensor)) ->
  shift_by_one_time_step tensor initializer =
  Some (tab3 (dim0 tensor) (dim1 tensor) (dim2 tensor)
          (fun b t n =>
             if (t <? 1)%nat
             then match initializer with
                  | Some init => get2 init b n
                  | None => 0
                  end
             else get3 tensor b (t - 1) n)).
Proof.
  intros Htime Hinit.
  set (B := dim0 tensor). set (Tm := dim1 tensor). set (F := dim2 tensor).
  unfold shift_by_one_time_step. rewrite transpose_time_major. cbn [bind].
  set (tm := tab3 (dim1 tensor) (dim0 tensor) (dim2 tensor)
               (fun i j k => get3 tensor j i k)).
  assert (Hinit_ok :
    exists init,
      match initializer with
      | Some init => Some init
      | None => first_slice <- index0 tm ;; Some (zeros_like first_slice)
      end = Some init /\
      shape2 init = (B, F) /\
      forall b n, get2 init b n =
                  match initializer with
                  | Some init => get2 init b n
                  | None => 0
                  end).
  { destruct initializer as [init |].
    - exists init. split; [reflexivity |].
      split; [apply Hinit; reflexivity | reflexivity].
    - unfold index0. cbn [dim0 tm tab3].
      destruct (Nat.eqb_spec (dim1 tensor) 0) as [H0 | _]; [lia |].
      cbn [bind]. eexists. split; [reflexivity |].
      split; [reflexivity |]. intros b n. apply get2_zeros. }
  destruct Hinit_ok as [init [-> [Hshape Hget]]]. cbn [bind].
  unfold shape2 in Hshape. injection Hshape as Hr Hc.
  unfold concat0. cbn [dim0 dim1 dim2 expand0 drop_last tab3 tm].
  rewrite Hr, Hc. fold B F. rewrite !Nat.eqb_refl. cbn [andb bind].
  rewrite transpose_time_major. cbn [dim0 dim1 dim2 tab3].
  f_equal. fold Tm.
  replace (1 + (Tm - 1))%nat with Tm by (unfold Tm; lia).
  apply tab3_ext. intros b t n Hb Ht Hn.
  rewrite get3_tab3 by (assumption || lia).
  destruct (Nat.ltb_spec t 1) as [Hlt | Hge].
  - unfold expand0. rewrite Hr, Hc.
    rewrite get3_tab3 by (assumption || lia). apply Hget.
  - unfold drop_last. cbn [dim0 dim1 dim2 tm tab3]. fold B Tm F.
    rewrite get3_tab3 by (assumption || lia).
    unfold tm. rewrite get3_tab3 by (assumption || (unfold Tm in *; lia)).
    reflexivity.
Qed.

(** C7 (as amended).  For every sequence tensor with at least one time step
    and every initializer of the shape of one time slice (all-zero when
    omitted), [shift_by_one_time_step] returns a tensor of exactly the shape
    of its argument with [shifted[0] = initializer] and
    [shifted[t] = raw[t-1]] for [1 <= t < T]; the result is the same for
    every sequence that differs from the argument in the last time slice
    only. *)
Theorem shift_by_one_time_step_contract
    (tensor : Tensor3 R) (initializer : option (Tensor2 R))
    (Htime : (0 < dim1 tensor)%nat)
    (Hinit : forall init, initializer = Some init ->
                          shape2 init = (dim0 tensor, dim2 tensor)) :
  exists shifted : Tensor3 R,
    shift_by_one_time_step tensor initializer = Some shifted /\
    shape3 shifted = shape3 tensor /\
    (forall b n, (b < dim0 tensor)%nat -> (n < dim2 tensor)%nat ->
       get3 shifted b 0 n =
       match initializer with
       | Some init => get2 init b n
       | None => 0
       end) /\
    (forall b t n, (b < dim0 tensor)%nat -> (n < dim2 tensor)%nat ->
       (1 <= t)%nat -> (t < dim1 tensor)%nat ->
       get3 shifted b t n = get3 tensor b (t - 1) n) /\
    (forall tensor' : Tensor3 R,
       shape3 tensor' = shape3 tensor ->
       (forall b t n, (b < dim0 tensor)%nat -> (n < dim2 tensor)%nat ->
          (t < dim1 tensor - 1)%nat ->
          get3 tensor' b t n = get3 tensor b t n) ->
       shift_by_one_time_step tensor' initializer = Some shifted).
Proof.
  eexists. split; [apply shift_value; assumption |].
  split; [reflexivity |].
  split; [| split].
  - intros b n Hb Hn. rewrite get3_tab3 by assumption. reflexivity.
  - intros b t n Hb Hn Ht1 Ht. rewrite get3_tab3 by assumption.
    destruct (Nat.ltb_spec t 1); [lia | reflexivity].
  - intros tensor' Hshape Hsame.
    unfold shape3 in Hshape. injection Hshape as H0 H1 H2.
    rewrite shift_value by (rewrite ?H0, ?H1, ?H2; assumption).
    rewrite H0, H1, H2. f_equal.
    apply tab3_ext. intros b t n Hb Ht Hn.
    destruct (Nat.ltb_spec t 1); [reflexivity |].
    apply Hsame; (assumption || lia).
Qed.

(** C7, the claim as stated fails on a sequence without a time step: with
    an initializer the result has one time step, so its shape is not the
    shape of the argument; without an initializer no tensor is returned. *)
Lemma shift_empty_sequence_changes_shape :
  wf3 empty_time_sequence /\
  shape2 one_slice = (dim0 empty_time_sequence, dim2 empty_time_sequence) /\
  shift_by_one_time_step empty_time_sequence None = None /\
  exists shifted : Tensor3 R,
    shift_by_one_time_step empty_time_sequence (Some one_slice)
      = Some shifted /\
    shape3 shifted = (1%nat, 1%nat, 1%nat) /\
    shape3 empty_time_sequence = (1%nat, 0%nat, 1%nat) /\
    shape3 shifted <> shape3 empty_time_sequence.
Proof.
  split.
  { split; [reflexivity |]. repeat constructor. }
  split; [reflexivity |].
  split; [reflexivity |].
  eexists. split; [reflexivity |].
  split; [reflexivity |]. split; [reflexivity |].
  cbn. discriminate.
Qed.

Lemma shift_by_one_time_step_contract_witness :
  (0 < dim1 two_step_sequence)%nat /\
  (forall init, Some one_slice = Some init ->
     shape2 init = (dim0 two_step_sequence, dim2 two_step_sequence)) /\
  exists shifted : Tensor3 R,
    shift_by_one_time_step two_step_sequence (Some one_slice)
      = Some shifted /\
    shape3 shifted = shape3 two_step_sequence /\
    (forall b n, (b < dim0 two_step_sequence)%nat ->
       (n < dim2 two_step_sequence)%nat ->
       get3 shifted b 0 n = get2 one_slice b n) /\
    (forall b t n, (b < dim0 two_step_sequence)%nat ->
       (n < dim2 two_step_sequence)%nat ->
       (1 <= t)%nat -> (t < dim1 two_step_sequence)%nat ->
       get3 shifted b t n = get3 two_step_sequence b (t - 1) n) /\
    (forall tensor' : Tensor3 R,
       shape3 tensor' = shape3 two_step_sequence ->
       (forall b t n, (b < dim0 two_step_sequence)%nat ->
          (n < dim2 two_step_sequence)%nat ->
          (t < dim1 two_step_sequence - 1)%nat ->
          get3 tensor' b t n = get3 two_step_sequence b t n) ->
       shift_by_one_time_step tensor' (Some one_slice) = Some shifted).
Proof.
  assert (Hslice : forall init, Some one_slice = Some init ->
            shape2 init = (dim0 two_step_sequence, dim2 two_step_sequence)).
  { intros init Heq. injection Heq as <-. reflexivity. }
  split; [cbn; lia |].
  split; [exact Hslice |].
  apply (shift_by_one_time_step_contract two_step_sequence (Some one_slice)).
  - cbn. lia.
  - exact Hslice.
Defined.

(** ** The gradient checker *)

Lemma np_all_spec (b : Tensor2 bool) :
  np_all b = true <->
  forall i j, (i < rows2 b)%nat -> (j < cols2 b)%nat -> get2 b i j = true.
Proof.
  unfold np_all. rewrite forallb_forall. split.
  - intros Hall i j Hi Hj.
    assert (Hrow : In i (seq 0 (rows2 b))) by (apply in_seq; lia).
    specialize (Hall i Hrow). rewrite forallb_forall in Hall.
    apply Hall. apply in_seq. lia.
  - intros Hall i Hi. apply in_seq in Hi.
    rewrite forallb_forall. intros j Hj. apply in_seq in Hj.
    apply Hall; lia.
Qed.

Lemma Rltb_true_iff (x y : R) : Rltb x y = true <-> x < y.
Proof.
  unfold Rltb. destruct (Rlt_dec x y); split; intros; try assumption;
    try reflexivity; try discriminate; contradiction.
Qed.

Lemma is_correct_value (e t : Tensor2 R) :
  map2d (fun x => Rltb x 1e-4)
        (np_abs (tab2 (rows2 e) (cols2 e)
                   (fun i j => get2 e i j - get2 t i j))) =
  tab2 (rows2 e) (cols2 e)
       (fun i j => Rltb (Rabs (get2 e i j - get2 t i j)) 1e-4).
Proof. unfold np_abs. rewrite !map2d_tab2. reflexivity. Qed.

Lemma np_all_is_correct (e t : Tensor2 R) :
  np_all (tab2 (rows2 e) (cols2 e)
            (fun i j => Rltb (Rabs (get2 e i j - get2 t i j)) 1e-4)) = true
  <-> all_close e t.
Proof.
  rewrite np_all_spec. cbn [rows2 cols2 tab2]. unfold all_close.
  split; intros Hall i j Hi Hj; specialize (Hall i j Hi Hj).
  - rewrite get2_tab2 in Hall by assumption.
    apply Rltb_true_iff. exact Hall.
  - rewrite get2_tab2 by assumption. apply Rltb_true_iff. exact Hall.
Qed.

Lemma combine_fst_snd {A B : Type} (l : list (A * B)) :
  combine (map fst l) (map snd l) = l.
Proof.
  induction l as [| [a b] l IH]; cbn [map combine fst snd].
  - reflexivity.
  - rewrite IH. reflexivity.
Qed.

Lemma flat_map_seq_ext {A : Type} (f g : nat -> list A) (n : nat) :
  (forall i, (i < n)%nat -> f i = g i) ->
  flat_map f (seq 0 n) = flat_map g (seq 0 n).
Proof.
  intros Hfg. rewrite !flat_map_concat_map. f_equal.
  apply map_seq_ext. exact Hfg.
Qed.

Lemma mismatch_indices_value (e t : Tensor2 R) :
  let is_correct :=
    tab2 (rows2 e) (cols2 e)
         (fun i j => Rltb (Rabs (get2 e i j - get2 t i j)) 1e-4) in
  let where_result :=
    np_where (map2d (fun b : bool => (1 - Z.b2z b)%Z) is_correct) in
  combine (fst where_result) (snd where_result) = mismatch_pairs e t.
Proof.
  cbv zeta. unfold np_where. cbn [fst snd]. rewrite combine_fst_snd.
  rewrite map2d_tab2. cbn [rows2 cols2 tab2]. unfold mismatch_pairs.
  apply flat_map_seq_ext. intros i Hi.
  apply flat_map_seq_ext. intros j Hj.
  rewrite get2_tab2 by assumption. unfold Rltb.
  destruct (Rlt_dec (Rabs (get2 e i j - get2 t i j)) 1e-4); reflexivity.
Qed.

(** One turn of the loop on a passing parameter. *)
Lemma check_from_pass (k : nat) (v : TfVariable) (rest : list TfVariable)
    (eg tg : list (Tensor2 R)) (e t : Tensor2 R) :
  nth_error eg k = Some e -> nth_error tg k = Some t ->
  shape2 e = shape2 t -> all_close e t ->
  check_gradients_from k (v :: rest) eg tg =
  (correct_line v :: fst (check_gradients_from (S k) rest eg tg),
   snd (check_gradients_from (S k) rest eg tg)).
Proof.
  intros He Ht Hshape Hclose. unfold shape2 in Hshape.
  injection Hshape as Hr Hc.
  cbn [check_gradients_from]. rewrite He, Ht.
  rewrite zip2d_same_shape by assumption.
  rewrite is_correct_value.
  rewrite (proj2 (np_all_is_correct e t) Hclose).
  destruct (check_gradients_from (S k) rest eg tg). reflexivity.
Qed.

(** One turn of the loop on a failing parameter: the report, then
    [ValueError], whatever comes after in the list. *)
Lemma check_from_fail (k : nat) (v : TfVariable) (rest : list TfVariable)
    (eg tg : list (Tensor2 R)) (e t : Tensor2 R) :
  nth_error eg k = Some e -> nth_error tg k = Some t ->
  shape2 e = shape2 t -> ~ all_close e t ->
  check_gradients_from k (v :: rest) eg tg =
  (wrong_line v :: diagnostics e t, Raised ValueError).
Proof.
  intros He Ht Hshape Hfar. unfold shape2 in Hshape.
  injection Hshape as Hr Hc.
  cbn [check_gradients_from]. rewrite He, Ht.
  rewrite zip2d_same_shape by assumption.
  rewrite is_correct_value.
  destruct (np_all _) eqn:Hall.
  - exfalso. apply Hfar. apply np_all_is_correct. exact Hall.
  - unfold np_abs.
    rewrite (map2d_of_shape _ e (rows2 e) (cols2 e)) by reflexivity.
    rewrite (map2d_of_shape _ t (rows2 e) (cols2 e)) by (symmetry; assumption).
    rewrite map2d_tab2, zip2d_tab2.
    rewrite mismatch_indices_value. reflexivity.
Qed.

Lemma Forall2_nth_error_both {A B : Type} (P : A -> B -> Prop)
    (l1 : list A) (l2 : list B) :
  Forall2 P l1 l2 ->
  forall k a b, nth_error l1 k = Some a -> nth_error l2 k = Some b -> P a b.
Proof.
  induction 1 as [| x y l1 l2 Hxy _ IH]; intros k a b Ha Hb.
  - destruct k; discriminate.
  - destruct k as [| k']; cbn [nth_error] in Ha, Hb.
    + injection Ha as <-. injection Hb as <-. exact Hxy.
    + exact (IH k' a b Ha Hb).
Qed.

(** The loop over parameters that all pass. *)
Lemma check_from_all_pass (eg tg : list (Tensor2 R)) :
  forall (vars : list TfVariable) (k : nat),
  (forall i, (i < length vars)%nat ->
     exists e t, nth_error eg (k + i) = Some e /\
                 nth_error tg (k + i) = Some t /\
                 shape2 e = shape2 t /\ all_close e t) ->
  check_gradients_from k vars eg tg = (map correct_line vars, Returned).
Proof.
  induction vars as [| v rest IH]; intros k Hall.
  - reflexivity.
  - destruct (Hall 0%nat) as [e [t [He [Ht [Hshape Hclose]]]]];
      [cbn [length]; lia |].
    rewrite Nat.add_0_r in He, Ht.
    rewrite (check_from_pass k v rest eg tg e t) by assumption.
    rewrite IH.
    + reflexivity.
    + intros i Hi. replace (S k + i)%nat with (k + S i)%nat by lia.
      apply Hall. cbn [length]. lia.
Qed.

(** The loop up to the first failing parameter. *)
Lemma check_from_first_fail (eg tg : list (Tensor2 R)) :
  forall (vars : list TfVariable) (k i : nat) (v : TfVariable)
         (e t : Tensor2 R),
  nth_error vars i = Some v ->
  nth_error eg (k + i) = Some e -> nth_error tg (k + i) = Some t ->
  shape2 e = shape2 t -> ~ all_close e t ->
  (forall i', (i' < i)%nat ->
     exists e' t', nth_error eg (k + i') = Some e' /\
                   nth_error tg (k + i') = Some t' /\
                   shape2 e' = shape2 t' /\ all_close e' t') ->
  check_gradients_from k vars eg tg =
  (map correct_line (firstn i vars) ++ wrong_line v :: diagnostics e t,
   Raised ValueError).
Proof.
  induction vars as [| v0 rest IH]; intros k i v e t Hv He Ht Hshape Hfar Hbefore.
  - destruct i; discriminate.
  - destruct i as [| i'].
    + cbn [nth_error] in Hv. injection Hv as ->.
      rewrite Nat.add_0_r in He, Ht. cbn [firstn map app].
      apply check_from_fail; assumption.
    + cbn [nth_error] in Hv.
      destruct (Hbefore 0%nat) as [e0 [t0 [He0 [Ht0 [Hshape0 Hclose0]]]]];
        [lia |].
      rewrite Nat.add_0_r in He0, Ht0.
      rewrite (check_from_pass k v0 rest eg tg e0 t0) by assumption.
      rewrite (IH (S k) i' v e t); try assumption.
      * reflexivity.
      * replace (S k + i')%nat with (k + S i')%nat by lia. exact He.
      * replace (S k + i')%nat with (k + S i')%nat by lia. exact Ht.
      * intros j Hj. replace (S k + j)%nat with (k + S j)%nat by lia.
        apply Hbefore. lia.
Qed.

Lemma diagnostics_no_verdict (e t : Tensor2 R) (p : printed) :
  In p (diagnostics e t) -> ~ is_verdict p.
Proof.
  intros Hin [v Hv]. unfold diagnostics in Hin. cbv zeta in Hin.
  unfold correct_line, wrong_line in Hv. cbn [In] in Hin.
  repeat (destruct Hin as [<- | Hin];
          [destruct Hv as [Hv | Hv]; discriminate Hv |]).
  exact Hin.
Qed.

Lemma all_close_dec (e t : Tensor2 R) : all_close e t \/ ~ all_close e t.
Proof.
  destruct (np_all (tab2 (rows2 e) (cols2 e)
              (fun i j => Rltb (Rabs (get2 e i j - get2 t i j)) 1e-4)))
    eqn:Hall.
  - left. apply np_all_is_correct. exact Hall.
  - right. intros Hclose. apply np_all_is_correct in Hclose. congruence.
Qed.

Lemma all_close_refl (g : Tensor2 R) : all_close g g.
Proof.
  intros i j _ _. rewrite Rminus_diag, Rabs_R0. lra.
Qed.

Lemma aligned_entries (vars : list TfVariable) (eg tg : list (Tensor2 R)) :
  length eg = length vars ->
  Forall2 (fun e t => shape2 e = shape2 t) eg tg ->
  forall i, (i < length vars)%nat ->
  exists e t, nth_error eg i = Some e /\ nth_error tg i = Some t /\
              shape2 e = shape2 t.
Proof.
  intros Hlen Hshapes i Hi.
  pose proof (Forall2_length Hshapes) as Hlen2.
  destruct (nth_error eg i) as [e |] eqn:He;
    [| apply nth_error_None in He; lia].
  destruct (nth_error tg i) as [t |] eqn:Ht;
    [| apply nth_error_None in Ht; lia].
  exists e, t. repeat split.
  exact (Forall2_nth_error_both _ eg tg Hshapes i e t He Ht).
Qed.

Lemma first_mismatch_or_none (eg tg : list (Tensor2 R)) :
  Forall2 (fun e t => shape2 e = shape2 t) eg tg ->
  Forall2 all_close eg tg \/
  exists k e t,
    nth_error eg k = Some e /\ nth_error tg k = Some t /\
    ~ all_close e t /\
    forall k' e' t', (k' < k)%nat ->
      nth_error eg k' = Some e' -> nth_error tg k' = Some t' ->
      all_close e' t'.
Proof.
  induction 1 as [| e t eg tg _ _ IH].
  - left. constructor.
  - destruct (all_close_dec e t) as [Hclose | Hfar].
    + destruct IH as [Hall | [k [e1 [t1 [He1 [Ht1 [Hfar1 Hbefore]]]]]]].
      * left. constructor; assumption.
      * right. exists (S k), e1, t1. repeat split; try assumption.
        intros k' e' t' Hk' He' Ht'. destruct k' as [| k''].
        -- cbn in He', Ht'. injection He' as <-. injection Ht' as <-.
           exact Hclose.
        -- apply (Hbefore k''); (assumption || lia).
    + right. exists 0%nat, e, t. repeat split; try assumption.
      intros k' e' t' Hk'. lia.
Qed.

(** C1 (as amended).  For every parameter list with index-aligned gradient
    lists, the checker examines the parameters in order.  When no parameter
    fails, every parameter is reported as correct and the call returns.
    Otherwise every parameter before the first failing one is reported as
    correct, the first failing one is reported as wrong together with its
    diagnostics, and [ValueError] is raised at once: nothing is printed for
    the parameters after it.  One of the two cases always applies. *)
Theorem check_gradients_raises_at_first_mismatch
    (var_list : list TfVariable) (eg tg : list (Tensor2 R))
    (Hlen : length eg = length var_list)
    (Hshapes : Forall2 (fun e t => shape2 e = shape2 t) eg tg) :
  (Forall2 all_close eg tg ->
     check_gradients var_list eg tg = (map correct_line var_list, Returned)) /\
  (forall k v e t,
     nth_error var_list k = Some v ->
     nth_error eg k = Some e -> nth_error tg k = Some t ->
     ~ all_close e t ->
     (forall k' e' t', (k' < k)%nat ->
        nth_error eg k' = Some e' -> nth_error tg k' = Some t' ->
        all_close e' t') ->
     check_gradients var_list eg tg =
       (map correct_line (firstn k var_list)
          ++ wrong_line v :: diagnostics e t,
        Raised ValueError) /\
     (forall p, In p (diagnostics e t) -> ~ is_verdict p)) /\
  (Forall2 all_close eg tg \/
   exists k e t,
     nth_error eg k = Some e /\ nth_error tg k = Some t /\
     ~ all_close e t /\
     forall k' e' t', (k' < k)%nat ->
       nth_error eg k' = Some e' -> nth_error tg k' = Some t' ->
       all_close e' t').
Proof.
  pose proof (aligned_entries var_list eg tg Hlen Hshapes) as Haligned.
  split; [| split].
  - intros Hall. unfold check_gradients. apply check_from_all_pass.
    intros i Hi. cbn [Nat.add].
    destruct (Haligned i Hi) as [e [t [He [Ht Hshape]]]].
    exists e, t. repeat split; try assumption.
    exact (Forall2_nth_error_both _ eg tg Hall i e t He Ht).
  - intros k v e t Hv He Ht Hfar Hbefore. split.
    + unfold check_gradients.
      apply (check_from_first_fail eg tg var_list 0 k v e t);
        try assumption.
      * exact (Forall2_nth_error_both _ eg tg Hshapes k e t He Ht).
      * intros i' Hi'. cbn [Nat.add].
        assert (Hk : (k < length var_list)%nat)
          by (apply nth_error_Some; congruence).
        destruct (Haligned i') as [e' [t' [He' [Ht' Hshape']]]]; [lia |].
        exists e', t'. repeat split; try assumption.
        exact (Hbefore i' e' t' Hi' He' Ht').
    + intros p. apply diagnostics_no_verdict.
  - apply first_mismatch_or_none. exact Hshapes.
Qed.

Lemma grad_one_not_close : ~ all_close grad_one grad_zero.
Proof.
  intros Hclose. specialize (Hclose 0%nat 0%nat).
  cbn in Hclose. unfold get2 in Hclose. cbn in Hclose.
  assert (H0 : (0 < 1)%nat) by lia. specialize (Hclose H0 H0).
  rewrite Rminus_0_r, Rabs_R1 in Hclose. lra.
Qed.

(** C1, the claim as stated fails: of two parameters that both mismatch,
    only the first is checked and reported; [ValueError] is raised before
    the second is looked at, and nothing about it is printed. *)
Lemma check_gradients_skips_later_parameters :
  ~ all_close grad_one grad_zero /\
  snd (check_gradients [var_a; var_b] [grad_one; grad_one]
                       [grad_zero; grad_zero]) = Raised ValueError /\
  In (wrong_line var_a)
     (fst (check_gradients [var_a; var_b] [grad_one; grad_one]
                           [grad_zero; grad_zero])) /\
  forall p,
    In p (fst (check_gradients [var_a; var_b] [grad_one; grad_one]
                               [grad_zero; grad_zero])) ->
    p <> wrong_line var_b /\ p <> correct_line var_b.
Proof.
  assert (Hrun : check_gradients [var_a; var_b] [grad_one; grad_one]
                                 [grad_zero; grad_zero]
                 = (wrong_line var_a :: diagnostics grad_one grad_zero,
                    Raised ValueError)).
  { unfold check_gradients. apply check_from_fail; try reflexivity.
    exact grad_one_not_close. }
  rewrite Hrun. cbn [fst snd].
  split; [exact grad_one_not_close |].
  split; [reflexivity |].
  split; [left; reflexivity |].
  intros p [<- | Hin].
  - split; discriminate.
  - split; intros ->; apply (diagnostics_no_verdict _ _ _ Hin);
      exists var_b; [right | left]; reflexivity.
Qed.

Lemma check_gradients_raises_at_first_mismatch_witness :
  length [grad_one; grad_one] = length [var_a; var_b] /\
  Forall2 (fun e t => shape2 e = shape2 t)
          [grad_one; grad_one] [grad_zero; grad_zero] /\
  check_gradients [var_a; var_b] [grad_one; grad_one] [grad_zero; grad_zero]
    = (map correct_line (firstn 0 [var_a; var_b])
         ++ wrong_line var_a :: diagnostics grad_one grad_zero,
       Raised ValueError).
Proof.
  assert (Hshapes : Forall2 (fun e t => shape2 e = shape2 t)
                      [grad_one; grad_one] [grad_zero; grad_zero])
    by (repeat constructor).
  split; [reflexivity |]. split; [exact Hshapes |].
  destruct (check_gradients_raises_at_first_mismatch
              [var_a; var_b] [grad_one; grad_one] [grad_zero; grad_zero]
              eq_refl Hshapes) as [_ [Hfail _]].
  apply (Hfail 0%nat var_a grad_one grad_zero eq_refl eq_refl eq_refl
           grad_one_not_close).
  intros k' e' t' Hk'. lia.
Defined.

(** ** Mismatch positions *)

Lemma in_mismatch_pairs (e t : Tensor2 R) (i j : nat) :
  In (i, j) (mismatch_pairs e t) <->
  (i < rows2 e)%nat /\ (j < cols2 e)%nat /\
  ~ Rabs (get2 e i j - get2 t i j) < 1e-4.
Proof.
  unfold mismatch_pairs. rewrite in_flat_map. split.
  - intros [i' [Hi' Hin]]. apply in_flat_map in Hin.
    destruct Hin as [j' [Hj' Hin]].
    apply in_seq in Hi'. apply in_seq in Hj'.
    destruct (Rlt_dec (Rabs (get2 e i' j' - get2 t i' j')) 1e-4) as [Hlt | Hge].
    + destruct Hin.
    + destruct Hin as [Heq | []]. injection Heq as <- <-.
      repeat split; (lia || assumption).
  - intros [Hi [Hj Hge]]. exists i. split; [apply in_seq; lia |].
    apply in_flat_map. exists j. split; [apply in_seq; lia |].
    destruct (Rlt_dec (Rabs (get2 e i j - get2 t i j)) 1e-4);
      [contradiction | left; reflexivity].
Qed.

Lemma flat_map_all_nil {A B : Type} (f : A -> list B) (l : list A) :
  (forall y, In y l -> f y = []) -> flat_map f l = [].
Proof.
  induction l as [| a l IH]; intros Hnil; cbn [flat_map].
  - reflexivity.
  - rewrite (Hnil a) by (left; reflexivity).
    apply IH. intros y Hy. apply Hnil. right. exact Hy.
Qed.

Lemma flat_map_single {A B : Type} (f : A -> list B) (l : list A) (x : A) :
  NoDup l -> In x l ->
  (forall y, In y l -> y <> x -> f y = []) ->
  flat_map f l = f x.
Proof.
  induction l as [| a l IH]; intros Hnd Hin Hothers.
  - destruct Hin.
  - inversion Hnd as [| ? ? Hnotin Hnd']; subst. cbn [flat_map].
    destruct Hin as [-> | Hin].
    + assert (Hrest : flat_map f l = []).
      { apply flat_map_all_nil. intros y Hy.
        apply Hothers; [right; exact Hy |].
        intros ->. contradiction. }
      rewrite Hrest. apply app_nil_r.
    + rewrite (Hothers a) by
        (try (left; reflexivity); intros ->; contradiction).
      apply IH; try assumption.
      intros y Hy. apply Hothers. right. exact Hy.
Qed.

Lemma single_mismatch_pairs (e t : Tensor2 R) (i j : nat) :
  (i < rows2 e)%nat -> (j < cols2 e)%nat ->
  (forall i' j', (i' < rows2 e)%nat -> (j' < cols2 e)%nat ->
     (i', j') <> (i, j) -> get2 e i' j' = get2 t i' j') ->
  ~ Rabs (get2 e i j - get2 t i j) < 1e-4 ->
  mismatch_pairs e t = [(i, j)].
Proof.
  intros Hi Hj Hsame Hfar. unfold mismatch_pairs.
  assert (Heq : forall i' j', (i' < rows2 e)%nat -> (j' < cols2 e)%nat ->
            (i', j') <> (i, j) ->
            (if Rlt_dec (Rabs (get2 e i' j' - get2 t i' j')) 1e-4
             then [] else [(i', j')]) = []).
  { intros i' j' Hi' Hj' Hne. rewrite (Hsame i' j' Hi' Hj' Hne).
    rewrite Rminus_diag, Rabs_R0.
    destruct (Rlt_dec 0 1e-4) as [_ | Hbad]; [reflexivity | lra]. }
  rewrite (flat_map_single _ _ i).
  - rewrite (flat_map_single _ _ j).
    + destruct (Rlt_dec (Rabs (get2 e i j - get2 t i j)) 1e-4);
        [contradiction | reflexivity].
    + apply seq_NoDup.
    + apply in_seq. lia.
    + intros j' Hj' Hne. apply in_seq in Hj'. apply Heq; try lia.
      intros Hpair. injection Hpair as ->. contradiction.
  - apply seq_NoDup.
  - apply in_seq. lia.
  - intros i' Hi' Hne. apply in_seq in Hi'.
    apply flat_map_all_nil. intros j' Hj'. apply in_seq in Hj'.
    apply Heq; try lia. intros Hpair. injection Hpair as -> _.
    contradiction.
Qed.

Lemma append_cancel_l (n s1 s2 : string) :
  (n ++ s1)%string = (n ++ s2)%string -> s1 = s2.
Proof.
  induction n as [| c n IH]; cbn [append]; intros Heq.
  - exact Heq.
  - injection Heq as Heq. exact (IH Heq).
Qed.

Lemma correct_line_not_wrong_line (v : TfVariable) :
  correct_line v <> wrong_line v.
Proof.
  unfold correct_line, wrong_line. intros Heq. injection Heq as Heq.
  apply append_cancel_l in Heq. discriminate Heq.
Qed.

(** C9.  For a parameter list with two index-aligned gradient lists: when
    the two lists are identical, every parameter is reported as correct and
    the call returns; when they are identical except for one entry [(i, j)]
    of one parameter, where the absolute difference is 2e-4, that parameter
    is reported as wrong and [(i, j)] is printed among its mismatch
    indices. *)
Theorem check_gradients_identical_or_one_entry_off
    (var_list : list TfVariable) (eg tg : list (Tensor2 R))
    (Hlen_e : length eg = length var_list)
    (Hlen_t : length tg = length var_list) :
  (eg = tg ->
     check_gradients var_list eg tg = (map correct_line var_list, Returned)) /\
  (forall k v e t i j,
     nth_error var_list k = Some v ->
     nth_error eg k = Some e -> nth_error tg k = Some t ->
     shape2 e = shape2 t ->
     (i < rows2 e)%nat -> (j < cols2 e)%nat ->
     (forall k', k' <> k -> nth_error eg k' = nth_error tg k') ->
     (forall i' j', (i' < rows2 e)%nat -> (j' < cols2 e)%nat ->
        (i', j') <> (i, j) -> get2 e i' j' = get2 t i' j') ->
     Rabs (get2 e i j - get2 t i j) = 2e-4 ->
     check_gradients var_list eg tg =
       (map correct_line (firstn k var_list)
          ++ wrong_line v :: diagnostics e t,
        Raised ValueError) /\
     In (IndexList "mismatch indices" [(i, j)]) (diagnostics e t)).
Proof.
  split.
  - intros <-. unfold check_gradients. apply check_from_all_pass.
    intros i Hi. cbn [Nat.add].
    destruct (nth_error eg i) as [e |] eqn:He;
      [| apply nth_error_None in He; lia].
    exists e, e. repeat split. apply all_close_refl.
  - intros k v e t i j Hv He Ht Hshape Hi Hj Hothers Hsame Hdiff.
    assert (Hfar : ~ Rabs (get2 e i j - get2 t i j) < 1e-4)
      by (rewrite Hdiff; lra).
    split.
    + unfold check_gradients.
      apply (check_from_first_fail eg tg var_list 0 k v e t);
        try assumption.
      * intros Hclose. apply Hfar. apply Hclose; assumption.
      * intros i' Hi'. cbn [Nat.add].
        assert (Hk : (k < length var_list)%nat)
          by (apply nth_error_Some; congruence).
        destruct (nth_error eg i') as [e' |] eqn:He';
          [| apply nth_error_None in He'; lia].
        exists e', e'. rewrite <- (Hothers i') by lia.
        repeat split; try assumption. apply all_close_refl.
    + unfold diagnostics. cbv zeta.
      rewrite (single_mismatch_pairs e t i j) by assumption.
      cbn [firstn In]. do 8 right. left. reflexivity.
Qed.

Lemma grad_twice_tol_off : Rabs (get2 grad_twice_tol 0 0 - get2 grad_zero 0 0) = 2e-4.
Proof.
  unfold get2. cbn [grad_twice_tol grad_zero data2 nth].
  rewrite Rminus_0_r. apply Rabs_pos_eq. lra.
Qed.

Lemma check_gradients_identical_or_one_entry_off_witness :
  length [grad_twice_tol] = length [var_a] /\
  length [grad_zero] = length [var_a] /\
  check_gradients [var_a] [grad_twice_tol] [grad_zero] =
    (map correct_line (firstn 0 [var_a])
       ++ wrong_line var_a :: diagnostics grad_twice_tol grad_zero,
     Raised ValueError) /\
  In (IndexList "mismatch indices" [(0%nat, 0%nat)])
     (diagnostics grad_twice_tol grad_zero).
Proof.
  split; [reflexivity |]. split; [reflexivity |].
  destruct (check_gradients_identical_or_one_entry_off
              [var_a] [grad_twice_tol] [grad_zero] eq_refl eq_refl)
    as [_ Hoff].
  apply (Hoff 0%nat var_a grad_twice_tol grad_zero 0%nat 0%nat
           eq_refl eq_refl eq_refl eq_refl).
  - cbn. lia.
  - cbn. lia.
  - intros k' Hk'. destruct k' as [| k'']; [contradiction |].
    destruct k''; reflexivity.
  - intros i' j' Hi' Hj' Hne. cbn in Hi', Hj'.
    exfalso. apply Hne. f_equal; lia.
  - exact grad_twice_tol_off.
Defined.

(** C10.  At every turn of the loop, the parameter is reported as correct
    if and only if every entry satisfies
    [|surrogate - reference| < 1e-4], and otherwise it is reported as wrong
    and [ValueError] is raised.  The inequality is strict: an entry whose
    absolute difference is exactly 1e-4 is among the mismatch positions and
    makes the parameter fail. *)
Theorem tolerance_boundary_is_exclusive
    (k : nat) (v : TfVariable) (rest : list TfVariable)
    (eg tg : list (Tensor2 R)) (e t : Tensor2 R)
    (He : nth_error eg k = Some e) (Ht : nth_error tg k = Some t)
    (Hshape : shape2 e = shape2 t) :
  (all_close e t <->
   hd_error (fst (check_gradients_from k (v :: rest) eg tg))
     = Some (correct_line v)) /\
  (~ all_close e t <->
   check_gradients_from k (v :: rest) eg tg
     = (wrong_line v :: diagnostics e t, Raised ValueError)) /\
  (forall i j, (i < rows2 e)%nat -> (j < cols2 e)%nat ->
     Rabs (get2 e i j - get2 t i j) = 1e-4 ->
     In (i, j) (mismatch_pairs e t) /\
     check_gradients_from k (v :: rest) eg tg
       = (wrong_line v :: diagnostics e t, Raised ValueError)).
Proof.
  assert (Hpass : all_close e t ->
            hd_error (fst (check_gradients_from k (v :: rest) eg tg))
              = Some (correct_line v)).
  { intros Hclose.
    rewrite (check_from_pass k v rest eg tg e t) by assumption.
    reflexivity. }
  assert (Hfail : ~ all_close e t ->
            check_gradients_from k (v :: rest) eg tg
              = (wrong_line v :: diagnostics e t, Raised ValueError)).
  { intros Hfar. apply check_from_fail; assumption. }
  split; [| split].
  - split; [exact Hpass |]. intros Hhead.
    destruct (all_close_dec e t) as [Hclose | Hfar]; [exact Hclose |].
    rewrite (Hfail Hfar) in Hhead. cbn [fst hd_error] in Hhead.
    exfalso. apply (correct_line_not_wrong_line v). congruence.
  - split; [exact Hfail |]. intros Hrun Hclose.
    specialize (Hpass Hclose). rewrite Hrun in Hpass.
    cbn [fst hd_error] in Hpass.
    apply (correct_line_not_wrong_line v). congruence.
  - intros i j Hi Hj Hdiff.
    assert (Hfar : ~ Rabs (get2 e i j - get2 t i j) < 1e-4)
      by (rewrite Hdiff; lra).
    split.
    + apply in_mismatch_pairs. repeat split; assumption.
    + apply Hfail. intros Hclose. apply Hfar. apply Hclose; assumption.
Qed.

Lemma grad_tol_off : Rabs (get2 grad_tol 0 0 - get2 grad_zero 0 0) = 1e-4.
Proof.
  unfold get2. cbn [grad_tol grad_zero data2 nth].
  rewrite Rminus_0_r. apply Rabs_pos_eq. lra.
Qed.

Lemma tolerance_boundary_is_exclusive_witness :
  nth_error [grad_tol] 0 = Some grad_tol /\
  nth_error [grad_zero] 0 = Some grad_zero /\
  shape2 grad_tol = shape2 grad_zero /\
  In (0%nat, 0%nat) (mismatch_pairs grad_tol grad_zero) /\
  check_gradients_from 0 [var_a] [grad_tol] [grad_zero]
    = (wrong_line var_a :: diagnostics grad_tol grad_zero, Raised ValueError).
Proof.
  split; [reflexivity |]. split; [reflexivity |]. split; [reflexivity |].
  destruct (tolerance_boundary_is_exclusive
              0 var_a [] [grad_tol] [grad_zero] grad_tol grad_zero
              eq_refl eq_refl eq_refl) as [_ [_ Hboundary]].
  apply (Hboundary 0%nat 0%nat).
  - cbn. lia.
  - cbn. lia.
  - exact grad_tol_off.
Defined.

(** ** The statements above at concrete inputs *)

Lemma resting_state_is_fixed_point_witness :
  cell_shapes demo_cell /\
  0 < tau demo_cell /\ 0 < dt demo_cell /\ 0 < thr demo_cell /\
  __call__ demo_cell (zeros 1 (n_in demo_cell)) (zero_state demo_cell 1 None)
    = Some (zeros 1 (n_rec demo_cell), zeros 1 (n_rec demo_cell),
            zero_state demo_cell 1 None) /\
  unroll demo_cell (repeat (zeros 1 (n_in demo_cell)) 2)
         (zero_state demo_cell 1 None)
    = Some (repeat (zeros 1 (n_rec demo_cell), zeros 1 (n_rec demo_cell)) 2,
            zero_state demo_cell 1 None).
Proof.
  assert (Hshapes : cell_shapes demo_cell) by (split; reflexivity).
  assert (Htau : 0 < tau demo_cell) by (cbn; lra).
  assert (Hdt : 0 < dt demo_cell) by (cbn; lra).
  assert (Hthr : 0 < thr demo_cell) by (cbn; lra).
  split; [exact Hshapes |]. split; [exact Htau |].
  split; [exact Hdt |]. split; [exact Hthr |].
  exact (resting_state_is_fixed_point demo_cell 1 2 Hshapes Htau Hdt Hthr).
Defined.

Lemma call_is_step_spec_witness :
  cell_shapes demo_cell /\
  shape2 demo_input = (1%nat, n_in demo_cell) /\
  shape2 (v (zero_state demo_cell 1 None)) = (1%nat, n_rec demo_cell) /\
  shape2 (z (zero_state demo_cell 1 None)) = (1%nat, n_rec demo_cell) /\
  __call__ demo_cell demo_input (zero_state demo_cell 1 None) =
    Some (spec_z_next demo_cell demo_input (zero_state demo_cell 1 None),
          spec_v_next demo_cell demo_input (zero_state demo_cell 1 None),
          mkLightLIFStateTuple
            (spec_v_next demo_cell demo_input (zero_state demo_cell 1 None))
            (spec_z_next demo_cell demo_input (zero_state demo_cell 1 None))).
Proof.
  assert (Hshapes : cell_shapes demo_cell) by (split; reflexivity).
  split; [exact Hshapes |].
  split; [reflexivity |]. split; [reflexivity |]. split; [reflexivity |].
  exact (proj1 (call_is_step_spec demo_cell demo_input
                  (zero_state demo_cell 1 None) 1
                  Hshapes eq_refl eq_refl eq_refl)).
Defined.

Lemma SpikeFunction_forward_heaviside_witness :
  (0 < rows2 demo_v_scaled)%nat /\ (0 < cols2 demo_v_scaled)%nat /\
  get2 demo_v_scaled 0 0 = 0 /\
  get2 (fst (SpikeFunction demo_v_scaled 0.3)) 0 0 = 0.
Proof.
  assert (Hi : (0 < rows2 demo_v_scaled)%nat) by (cbn; lia).
  assert (Hj : (0 < cols2 demo_v_scaled)%nat) by (cbn; lia).
  split; [exact Hi |]. split; [exact Hj |]. split; [reflexivity |].
  destruct (SpikeFunction_forward_heaviside demo_v_scaled 0.3 0 0 Hi Hj)
    as [_ [_ [_ [Hzero _]]]].
  apply Hzero. reflexivity.
Defined.

Lemma SpikeFunction_backward_rule_witness :
  shape2 demo_dy = shape2 demo_v_scaled /\
  snd (SpikeFunction demo_v_scaled 0.3) demo_dy =
    Some (tab2 (rows2 demo_v_scaled) (cols2 demo_v_scaled)
            (fun i j => get2 demo_dy i j *
                        (Rmax (1 - Rabs (get2 demo_v_scaled i j)) 0 * 0.3)),
          0).
Proof.
  split; [reflexivity |].
  exact (proj1 (SpikeFunction_backward_rule demo_v_scaled demo_dy 0.3 eq_refl)).
Defined.

Lemma recurrent_diagonal_zero_at_every_read_witness :
  shape2 sevens = (n_rec demo_cell, n_rec demo_cell) /\
  get2 sevens 0 0 = 7 /\
  exists w_used : Tensor2 R,
    w_rec_val (assign_w_rec demo_cell sevens) = Some w_used /\
    forall i, (i < n_rec demo_cell)%nat -> get2 w_used i i = 0.
Proof.
  split; [reflexivity |]. split; [reflexivity |].
  destruct (recurrent_diagonal_zero_at_every_read demo_cell sevens eq_refl)
    as [w_used [Hval [_ [Hdiag _]]]].
  exists w_used. split; [exact Hval | exact Hdiag].
Defined.

(** * Further properties of the code *)

(** ** The cell *)

(** The entries of what one step returns. *)
Lemma call_entries (self : LightLIF) (inputs : Tensor2 R)
    (state : LightLIFStateTuple) (batch : nat) :
  cell_shapes self ->
  shape2 inputs = (batch, n_in self) ->
  shape2 (v state) = (batch, n_rec self) ->
  shape2 (z state) = (batch, n_rec self) ->
  exists new_z new_v : Tensor2 R,
    __call__ self inputs state =
      Some (new_z, new_v, mkLightLIFStateTuple new_v new_z) /\
    shape2 new_z = (batch, n_rec self) /\
    shape2 new_v = (batch, n_rec self) /\
    (forall b j, (b < batch)%nat -> (j < n_rec self)%nat ->
       get2 new_v b j =
         _decay self * get2 (v state) b j
         + (1 - _decay self) * spec_i_t self inputs state b j
         - get2 (z state) b j * thr self * dt self) /\
    (forall b j, (b < batch)%nat -> (j < n_rec self)%nat ->
       get2 new_z b j =
         Heaviside ((get2 new_v b j - thr self) / thr self) / dt self).
Proof.
  intros Hcell Hin Hv Hz.
  rewrite (call_value self inputs state batch Hcell Hin Hv Hz).
  unfold step_spec. eexists. eexists. split; [reflexivity |].
  unfold shape2 in Hin. injection Hin as Hin_r Hin_c.
  unfold spec_z_next, spec_v_next. rewrite Hin_r.
  split; [reflexivity |]. split; [reflexivity |].
  split; intros b j Hb Hj; rewrite get2_tab2 by assumption; reflexivity.
Qed.

Lemma decay_range (self : LightLIF) :
  0 < tau self -> 0 < dt self -> 0 < _decay self < 1.
Proof.
  intros Htau Hdt. unfold _decay. split; [apply exp_pos |].
  rewrite <- exp_0. apply exp_increasing.
  unfold Rdiv. rewrite <- Ropp_mult_distr_l.
  assert (0 < dt self * / tau self)
    by (apply Rmult_lt_0_compat; [| apply Rinv_0_lt_compat]; assumption).
  lra.
Qed.



(** X2.  On an input of shape [batch x n_in] and a state of shape
    [batch x n_rec], the two outputs of [__call__] have the widths that
    [output_size] declares, the tensors of the new state have the widths
    that [state_size] declares, all four have [batch] rows, and the new
    state holds the very tensors that are returned as outputs; the state of
    [zero_state] has the declared widths too. *)
Theorem call_shapes_match_declared_sizes
    (self : LightLIF) (inputs : Tensor2 R) (state : LightLIFStateTuple)
    (batch : nat)
    (Hcell : cell_shapes self)
    (Hin : shape2 inputs = (batch, n_in self))
    (Hv : shape2 (v state) = (batch, n_rec self))
    (Hz : shape2 (z state) = (batch, n_rec self)) :
  exists new_z new_v new_state,
    __call__ self inputs state = Some (new_z, new_v, new_state) /\
    map (fun o : Tensor2 R => cols2 o) [new_z; new_v] = output_size self /\
    (cols2 (v new_state), cols2 (z new_state)) = state_size self /\
    map (fun o : Tensor2 R => rows2 o)
        [new_z; new_v; v new_state; z new_state]
      = [batch; batch; batch; batch] /\
    v new_state = new_v /\ z new_state = new_z /\
    (cols2 (v (zero_state self batch None)),
     cols2 (z (zero_state self batch None))) = state_size self.
Proof.
  destruct (call_entries self inputs state batch Hcell Hin Hv Hz)
    as [new_z [new_v [Hrun [Hsz [Hsv _]]]]].
  exists new_z, new_v, (mkLightLIFStateTuple new_v new_z).
  unfold shape2 in Hsz, Hsv.
  injection Hsz as Hzr Hzc. injection Hsv as Hvr Hvc.
  split; [exact Hrun |]. cbn [map v z]. unfold output_size, state_size.
  rewrite Hzr, Hzc, Hvr, Hvc. repeat split.
Qed.

Lemma call_shapes_match_declared_sizes_witness :
  cell_shapes demo_cell /\
  shape2 demo_input = (1%nat, n_in demo_cell) /\
  shape2 (v demo_state) = (1%nat, n_rec demo_cell) /\
  shape2 (z demo_state) = (1%nat, n_rec demo_cell) /\
  exists new_z new_v new_state,
    __call__ demo_cell demo_input demo_state
      = Some (new_z, new_v, new_state) /\
    map (fun o : Tensor2 R => cols2 o) [new_z; new_v]
      = output_size demo_cell.
Proof.
  assert (Hshapes : cell_shapes demo_cell) by (split; reflexivity).
  split; [exact Hshapes |].
  split; [reflexivity |]. split; [reflexivity |]. split; [reflexivity |].
  destruct (call_shapes_match_declared_sizes demo_cell demo_input demo_state 1
              Hshapes eq_refl eq_refl eq_refl)
    as [new_z [new_v [new_state [Hrun [Hout _]]]]].
  exists new_z, new_v, new_state. split; [exact Hrun | exact Hout].
Defined.

Lemma Heaviside_pos (x : R) : 0 < x -> Heaviside x = 1.
Proof. intros Hx. unfold Heaviside. destruct (Rgt_dec x 0); [reflexivity | lra]. Qed.

Lemma Heaviside_nonpos (x : R) : x <= 0 -> Heaviside x = 0.
Proof. intros Hx. unfold Heaviside. destruct (Rgt_dec x 0); [lra | reflexivity]. Qed.

Lemma scaled_sign_pos_thr (x thr : R) :
  0 < thr -> (0 < (x - thr) / thr <-> thr < x).
Proof.
  intros Hthr. unfold Rdiv.
  assert (Hinv : 0 < / thr) by (apply Rinv_0_lt_compat; exact Hthr).
  split; intros H.
  - destruct (Rle_or_lt x thr) as [Hle | Hlt]; [| exact Hlt].
    assert ((x - thr) * / thr <= 0) by nra. lra.
  - apply Rmult_lt_0_compat; lra.
Qed.

Lemma scaled_sign_neg_thr (x thr : R) :
  thr < 0 -> (0 < (x - thr) / thr <-> x < thr).
Proof.
  intros Hthr. unfold Rdiv.
  assert (Hinv : / thr < 0) by (apply Rinv_lt_0_compat; exact Hthr).
  split; intros H.
  - destruct (Rle_or_lt thr x) as [Hle | Hlt]; [| exact Hlt].
    assert ((x - thr) * / thr <= 0) by nra. lra.
  - nra.
Qed.

(** X3.  With a positive threshold and a non-zero time step, a neuron emits
    a spike of height [1 / dt] exactly when its new voltage is strictly
    above the threshold, and emits 0 otherwise; a voltage equal to the
    threshold does not spike. *)
Theorem call_spikes_strictly_above_threshold
    (self : LightLIF) (inputs : Tensor2 R) (state : LightLIFStateTuple)
    (batch : nat)
    (Hcell : cell_shapes self)
    (Hin : shape2 inputs = (batch, n_in self))
    (Hv : shape2 (v state) = (batch, n_rec self))
    (Hz : shape2 (z state) = (batch, n_rec self))
    (Hthr : 0 < thr self) (Hdt : dt self <> 0) :
  exists new_z new_v new_state,
    __call__ self inputs state = Some (new_z, new_v, new_state) /\
    forall b j, (b < batch)%nat -> (j < n_rec self)%nat ->
      (thr self < get2 new_v b j -> get2 new_z b j = 1 / dt self) /\
      (get2 new_v b j <= thr self -> get2 new_z b j = 0) /\
      (get2 new_z b j <> 0 <-> thr self < get2 new_v b j).
Proof.
  destruct (call_entries self inputs state batch Hcell Hin Hv Hz)
    as [new_z [new_v [Hrun [_ [_ [_ Hspike]]]]]].
  exists new_z, new_v, (mkLightLIFStateTuple new_v new_z).
  split; [exact Hrun |]. intros b j Hb Hj.
  rewrite (Hspike b j Hb Hj).
  pose proof (scaled_sign_pos_thr (get2 new_v b j) (thr self) Hthr) as Hsign.
  assert (Hup : thr self < get2 new_v b j ->
                Heaviside ((get2 new_v b j - thr self) / thr self) / dt self
                = 1 / dt self).
  { intros Habove. rewrite Heaviside_pos by (apply Hsign; exact Habove).
    reflexivity. }
  assert (Hdown : get2 new_v b j <= thr self ->
                  Heaviside ((get2 new_v b j - thr self) / thr self) / dt self
                  = 0).
  { intros Hbelow. rewrite Heaviside_nonpos.
    - unfold Rdiv. apply Rmult_0_l.
    - destruct (Rle_or_lt ((get2 new_v b j - thr self) / thr self) 0)
        as [Hle | Hlt]; [exact Hle |].
      apply Hsign in Hlt. lra. }
  split; [exact Hup |]. split; [exact Hdown |].
  split.
  - intros Hnz. destruct (Rle_or_lt (get2 new_v b j) (thr self))
      as [Hle | Hlt]; [| exact Hlt].
    exfalso. apply Hnz. apply Hdown. exact Hle.
  - intros Habove. rewrite (Hup Habove). unfold Rdiv. rewrite Rmult_1_l.
    apply Rinv_neq_0_compat. exact Hdt.
Qed.

Lemma call_spikes_strictly_above_threshold_witness :
  cell_shapes demo_cell /\
  shape2 demo_input = (1%nat, n_in demo_cell) /\
  shape2 (v demo_state) = (1%nat, n_rec demo_cell) /\
  shape2 (z demo_state) = (1%nat, n_rec demo_cell) /\
  0 < thr demo_cell /\ dt demo_cell <> 0 /\
  exists new_z new_v new_state,
    __call__ demo_cell demo_input demo_state
      = Some (new_z, new_v, new_state) /\
    forall b j, (b < 1)%nat -> (j < n_rec demo_cell)%nat ->
      (thr demo_cell < get2 new_v b j -> get2 new_z b j = 1 / dt demo_cell) /\
      (get2 new_v b j <= thr demo_cell -> get2 new_z b j = 0) /\
      (get2 new_z b j <> 0 <-> thr demo_cell < get2 new_v b j).
Proof.
  assert (Hshapes : cell_shapes demo_cell) by (split; reflexivity).
  assert (Hthr : 0 < thr demo_cell) by (cbn; lra).
  assert (Hdt : dt demo_cell <> 0) by (cbn; lra).
  split; [exact Hshapes |].
  split; [reflexivity |]. split; [reflexivity |]. split; [reflexivity |].
  split; [exact Hthr |]. split; [exact Hdt |].
  exact (call_spikes_strictly_above_threshold demo_cell demo_input demo_state 1
           Hshapes eq_refl eq_refl eq_refl Hthr Hdt).
Defined.

(** X4.  The cell does not reject a negative threshold, and the division by
    the threshold then turns the comparison around: a neuron spikes exactly
    when its new voltage is strictly below the threshold. *)
Theorem call_negative_threshold_inverts_spiking
    (self : LightLIF) (inputs : Tensor2 R) (state : LightLIFStateTuple)
    (batch : nat)
    (Hcell : cell_shapes self)
    (Hin : shape2 inputs = (batch, n_in self))
    (Hv : shape2 (v state) = (batch, n_rec self))
    (Hz : shape2 (z state) = (batch, n_rec self))
    (Hthr : thr self < 0) (Hdt : dt self <> 0) :
  exists new_z new_v new_state,
    __call__ self inputs state = Some (new_z, new_v, new_state) /\
    forall b j, (b < batch)%nat -> (j < n_rec self)%nat ->
      (get2 new_v b j < thr self -> get2 new_z b j = 1 / dt self) /\
      (thr self <= get2 new_v b j -> get2 new_z b j = 0).
Proof.
  destruct (call_entries self inputs state batch Hcell Hin Hv Hz)
    as [new_z [new_v [Hrun [_ [_ [_ Hspike]]]]]].
  exists new_z, new_v, (mkLightLIFStateTuple new_v new_z).
  split; [exact Hrun |]. intros b j Hb Hj.
  rewrite (Hspike b j Hb Hj).
  pose proof (scaled_sign_neg_thr (get2 new_v b j) (thr self) Hthr) as Hsign.
  split.
  - intros Hbelow. rewrite Heaviside_pos by (apply Hsign; exact Hbelow).
    reflexivity.
  - intros Habove. rewrite Heaviside_nonpos.
    + unfold Rdiv. apply Rmult_0_l.
    + destruct (Rle_or_lt ((get2 new_v b j - thr self) / thr self) 0)
        as [Hle | Hlt]; [exact Hle |].
      apply Hsign in Hlt. lra.
Qed.

Lemma call_negative_threshold_inverts_spiking_witness :
  cell_shapes negative_thr_cell /\
  shape2 demo_input = (1%nat, n_in negative_thr_cell) /\
  shape2 (v demo_state) = (1%nat, n_rec negative_thr_cell) /\
  shape2 (z demo_state) = (1%nat, n_rec negative_thr_cell) /\
  thr negative_thr_cell < 0 /\ dt negative_thr_cell <> 0 /\
  exists new_z new_v new_state,
    __call__ negative_thr_cell demo_input demo_state
      = Some (new_z, new_v, new_state) /\
    forall b j, (b < 1)%nat -> (j < n_rec negative_thr_cell)%nat ->
      (get2 new_v b j < thr negative_thr_cell ->
       get2 new_z b j = 1 / dt negative_thr_cell) /\
      (thr negative_thr_cell <= get2 new_v b j -> get2 new_z b j = 0).
Proof.
  assert (Hshapes : cell_shapes negative_thr_cell) by (split; reflexivity).
  assert (Hthr : thr negative_thr_cell < 0) by (cbn; lra).
  assert (Hdt : dt negative_thr_cell <> 0) by (cbn; lra).
  split; [exact Hshapes |].
  split; [reflexivity |]. split; [reflexivity |]. split; [reflexivity |].
  split; [exact Hthr |]. split; [exact Hdt |].
  exact (call_negative_threshold_inverts_spiking negative_thr_cell demo_input
           demo_state 1 Hshapes eq_refl eq_refl eq_refl Hthr Hdt).
Defined.

(** ** Shapes the step rejects *)

Lemma w_rec_val_rows (self : LightLIF) (w_rec : Tensor2 R) :
  w_rec_val self = Some w_rec -> rows2 w_rec = n_rec self.
Proof.
  unfold w_rec_val, where_.
  destruct (_ && _ && _ && _)%bool eqn:Hcheck; [| discriminate].
  intros Hsome. injection Hsome as <-. cbn [rows2 tab2].
  apply andb_prop in Hcheck. destruct Hcheck as [Hcheck _].
  apply andb_prop in Hcheck. destruct Hcheck as [Hcheck _].
  apply andb_prop in Hcheck. destruct Hcheck as [Hrows _].
  apply Nat.eqb_eq in Hrows. cbn [rows2 recurrent_disconnect_mask tab2 zeros_like zeros] in Hrows.
  symmetry. exact Hrows.
Qed.

Lemma matmul_inner_mismatch (M N : Tensor2 R) :
  cols2 M <> rows2 N -> matmul M N = None.
Proof.
  intros Hne. unfold matmul.
  destruct (Nat.eqb_spec (cols2 M) (rows2 N)); [contradiction | reflexivity].
Qed.

Lemma call_bad_state_width (self : LightLIF) (inputs : Tensor2 R)
    (state : LightLIFStateTuple) :
  cols2 (z state) <> n_rec self -> __call__ self inputs state = None.
Proof.
  intros Hbad. unfold __call__. rewrite stop_gradient_value.
  destruct (w_rec_val self) as [w_rec |] eqn:Hw; [| reflexivity].
  cbn [bind].
  destruct (matmul inputs (w_in_val self)) as [in_drive |]; [| reflexivity].
  cbn [bind].
  rewrite matmul_inner_mismatch
    by (rewrite (w_rec_val_rows self w_rec Hw); exact Hbad).
  reflexivity.
Qed.

(** X5.  The step signals a width mismatch instead of coercing it: an input
    whose width is not [n_in], or a spike state whose width is not [n_rec],
    makes [__call__] fail, whatever the other arguments are. *)
Theorem call_rejects_wrong_widths
    (self : LightLIF) (inputs : Tensor2 R) (state : LightLIFStateTuple)
    (Hcell : cell_shapes self)
    (Hbad : cols2 inputs <> n_in self \/ cols2 (z state) <> n_rec self) :
  __call__ self inputs state = None.
Proof.
  destruct Hbad as [Hbad | Hbad]; [| exact (call_bad_state_width _ _ _ Hbad)].
  destruct Hcell as [Hwin Hwrec].
  unfold __call__. rewrite (w_rec_val_value self Hwrec). cbn [bind].
  unfold shape2 in Hwin. injection Hwin as Hr _.
  rewrite matmul_inner_mismatch
    by (unfold w_in_val, identity; rewrite Hr; exact Hbad).
  reflexivity.
Qed.

Lemma call_rejects_wrong_widths_witness :
  cell_shapes demo_cell /\
  (cols2 wide_input <> n_in demo_cell \/
   cols2 (z demo_state) <> n_rec demo_cell) /\
  __call__ demo_cell wide_input demo_state = None.
Proof.
  assert (Hshapes : cell_shapes demo_cell) by (split; reflexivity).
  assert (Hbad : cols2 wide_input <> n_in demo_cell \/
                 cols2 (z demo_state) <> n_rec demo_cell)
    by (left; cbn; lia).
  split; [exact Hshapes |]. split; [exact Hbad |].
  exact (call_rejects_wrong_widths demo_cell wide_input demo_state
           Hshapes Hbad).
Defined.

(** X6.  [zero_state] accepts a width [n_rec] of its own, but a state built
    with a width other than the cell's [n_rec] cannot be stepped:
    [__call__] fails on it for every input. *)
Theorem zero_state_with_other_width_cannot_be_stepped
    (self : LightLIF) (batch_size width : nat) (inputs : Tensor2 R)
    (Hwidth : width <> n_rec self) :
  shape2 (z (zero_state self batch_size (Some width)))
    = (batch_size, width) /\
  __call__ self inputs (zero_state self batch_size (Some width)) = None.
Proof.
  split; [reflexivity |].
  apply call_bad_state_width. exact Hwidth.
Qed.

Lemma zero_state_with_other_width_cannot_be_stepped_witness :
  2%nat <> n_rec demo_cell /\
  shape2 (z (zero_state demo_cell 1 (Some 2%nat))) = (1%nat, 2%nat) /\
  __call__ demo_cell demo_input (zero_state demo_cell 1 (Some 2%nat)) = None.
Proof.
  assert (Hwidth : 2%nat <> n_rec demo_cell) by (cbn; lia).
  split; [exact Hwidth |].
  exact (zero_state_with_other_width_cannot_be_stepped
           demo_cell 1 2 demo_input Hwidth).
Defined.

(** ** What one neuron's update depends on *)

(** X7.  Batch elements do not interact: when two inputs and two states of
    the same shapes agree on batch row [b], the voltages and spikes that
    [__call__] returns agree on row [b], whatever the other rows hold. *)
Theorem call_rows_are_independent
    (self : LightLIF) (inputs inputs' : Tensor2 R)
    (state state' : LightLIFStateTuple) (batch b : nat)
    (Hcell : cell_shapes self)
    (Hin : shape2 inputs = (batch, n_in self))
    (Hv : shape2 (v state) = (batch, n_rec self))
    (Hz : shape2 (z state) = (batch, n_rec self))
    (Hin' : shape2 inputs' = (batch, n_in self))
    (Hv' : shape2 (v state') = (batch, n_rec self))
    (Hz' : shape2 (z state') = (batch, n_rec self))
    (Hb : (b < batch)%nat)
    (Hrow_in : forall k, (k < n_in self)%nat ->
                 get2 inputs' b k = get2 inputs b k)
    (Hrow_v : forall j, (j < n_rec self)%nat ->
                get2 (v state') b j = get2 (v state) b j)
    (Hrow_z : forall j, (j < n_rec self)%nat ->
                get2 (z state') b j = get2 (z state) b j) :
  exists new_z new_v new_state new_z' new_v' new_state',
    __call__ self inputs state = Some (new_z, new_v, new_state) /\
    __call__ self inputs' state' = Some (new_z', new_v', new_state') /\
    forall j, (j < n_rec self)%nat ->
      get2 new_v' b j = get2 new_v b j /\ get2 new_z' b j = get2 new_z b j.
Proof.
  destruct (call_entries self inputs state batch Hcell Hin Hv Hz)
    as [new_z [new_v [Hrun [_ [_ [Hvolt Hspike]]]]]].
  destruct (call_entries self inputs' state' batch Hcell Hin' Hv' Hz')
    as [new_z' [new_v' [Hrun' [_ [_ [Hvolt' Hspike']]]]]].
  exists new_z, new_v, (mkLightLIFStateTuple new_v new_z),
         new_z', new_v', (mkLightLIFStateTuple new_v' new_z').
  split; [exact Hrun |]. split; [exact Hrun' |].
  intros j Hj.
  assert (Hsame : get2 new_v' b j = get2 new_v b j).
  { rewrite (Hvolt b j Hb Hj), (Hvolt' b j Hb Hj).
    rewrite (Hrow_v j Hj), (Hrow_z j Hj). unfold spec_i_t.
    rewrite (sum_n_ext (n_in self)
               (fun k => get2 inputs' b k * get2 (w_in_var self) k j)
               (fun k => get2 inputs b k * get2 (w_in_var self) k j))
      by (intros k Hk; rewrite (Hrow_in k Hk); reflexivity).
    rewrite (sum_n_ext (n_rec self)
               (fun k => get2 (z state') b k * spec_recurrentWeights self k j)
               (fun k => get2 (z state) b k * spec_recurrentWeights self k j))
      by (intros k Hk; rewrite (Hrow_z k Hk); reflexivity).
    reflexivity. }
  split; [exact Hsame |].
  rewrite (Hspike b j Hb Hj), (Hspike' b j Hb Hj), Hsame. reflexivity.
Qed.

Lemma call_rows_are_independent_witness :
  cell_shapes demo_cell /\
  shape2 two_row_input = (2%nat, n_in demo_cell) /\
  shape2 two_row_input' = (2%nat, n_in demo_cell) /\
  (forall k, (k < n_in demo_cell)%nat ->
     get2 two_row_input' 0 k = get2 two_row_input 0 k) /\
  exists new_z new_v new_state new_z' new_v' new_state',
    __call__ demo_cell two_row_input (zero_state demo_cell 2 None)
      = Some (new_z, new_v, new_state) /\
    __call__ demo_cell two_row_input' (zero_state demo_cell 2 None)
      = Some (new_z', new_v', new_state') /\
    forall j, (j < n_rec demo_cell)%nat ->
      get2 new_v' 0 j = get2 new_v 0 j /\ get2 new_z' 0 j = get2 new_z 0 j.
Proof.
  assert (Hshapes : cell_shapes demo_cell) by (split; reflexivity).
  assert (Hrow : forall k, (k < n_in demo_cell)%nat ->
            get2 two_row_input' 0 k = get2 two_row_input 0 k).
  { intros k Hk. cbn in Hk.
    destruct k as [| [| k]]; [reflexivity | reflexivity | lia]. }
  split; [exact Hshapes |].
  split; [reflexivity |]. split; [reflexivity |]. split; [exact Hrow |].
  apply (call_rows_are_independent demo_cell two_row_input two_row_input'
           (zero_state demo_cell 2 None) (zero_state demo_cell 2 None) 2 0
           Hshapes eq_refl eq_refl eq_refl eq_refl eq_refl eq_refl).
  - lia.
  - exact Hrow.
  - intros j Hj. reflexivity.
  - intros j Hj. reflexivity.
Defined.

(** X8.  The reset is subtractive and amounts to exactly the threshold: a
    neuron whose previous spike is [1 / dt] gets the leaked voltage plus the
    drive minus [thr], and a neuron whose previous spike is 0 gets the
    leaked voltage plus the drive; the voltage is never set back to a
    baseline. *)
Theorem call_reset_subtracts_threshold
    (self : LightLIF) (inputs : Tensor2 R) (state : LightLIFStateTuple)
    (batch : nat)
    (Hcell : cell_shapes self)
    (Hin : shape2 inputs = (batch, n_in self))
    (Hv : shape2 (v state) = (batch, n_rec self))
    (Hz : shape2 (z state) = (batch, n_rec self))
    (Hdt : dt self <> 0) :
  exists new_z new_v new_state,
    __call__ self inputs state = Some (new_z, new_v, new_state) /\
    forall b j, (b < batch)%nat -> (j < n_rec self)%nat ->
      (get2 (z state) b j = 1 / dt self ->
       get2 new_v b j =
         _decay self * get2 (v state) b j
         + (1 - _decay self) * spec_i_t self inputs state b j
         - thr self) /\
      (get2 (z state) b j = 0 ->
       get2 new_v b j =
         _decay self * get2 (v state) b j
         + (1 - _decay self) * spec_i_t self inputs state b j).
Proof.
  destruct (call_entries self inputs state batch Hcell Hin Hv Hz)
    as [new_z [new_v [Hrun [_ [_ [Hvolt _]]]]]].
  exists new_z, new_v, (mkLightLIFStateTuple new_v new_z).
  split; [exact Hrun |]. intros b j Hb Hj.
  rewrite (Hvolt b j Hb Hj). split; intros ->.
  - field. exact Hdt.
  - ring.
Qed.

Lemma call_reset_subtracts_threshold_witness :
  cell_shapes demo_cell /\
  shape2 demo_input = (1%nat, n_in demo_cell) /\
  shape2 (v demo_state) = (1%nat, n_rec demo_cell) /\
  shape2 (z demo_state) = (1%nat, n_rec demo_cell) /\
  dt demo_cell <> 0 /\
  get2 (z demo_state) 0 2 = 1 / dt demo_cell /\
  exists new_z new_v new_state,
    __call__ demo_cell demo_input demo_state
      = Some (new_z, new_v, new_state) /\
    get2 new_v 0 2 =
      _decay demo_cell * get2 (v demo_state) 0 2
      + (1 - _decay demo_cell) * spec_i_t demo_cell demo_input demo_state 0 2
      - thr demo_cell.
Proof.
  assert (Hshapes : cell_shapes demo_cell) by (split; reflexivity).
  assert (Hdt : dt demo_cell <> 0) by (cbn; lra).
  assert (Hspiked : get2 (z demo_state) 0 2 = 1 / dt demo_cell).
  { unfold get2. cbn. lra. }
  split; [exact Hshapes |].
  split; [reflexivity |]. split; [reflexivity |]. split; [reflexivity |].
  split; [exact Hdt |]. split; [exact Hspiked |].
  destruct (call_reset_subtracts_threshold demo_cell demo_input demo_state 1
              Hshapes eq_refl eq_refl eq_refl Hdt)
    as [new_z [new_v [new_state [Hrun Hreset]]]].
  exists new_z, new_v, new_state. split; [exact Hrun |].
  apply (Hreset 0%nat 2%nat); [lia | cbn; lia | exact Hspiked].
Defined.

(** ** A run without drive *)

(** One step without input from a state without spikes. *)
Lemma call_quiet (self : LightLIF) (v0 : Tensor2 R) (batch : nat) :
  cell_shapes self -> 0 < tau self -> 0 < dt self -> 0 < thr self ->
  shape2 v0 = (batch, n_rec self) ->
  (forall b j, (b < batch)%nat -> (j < n_rec self)%nat ->
     get2 v0 b j <= thr self) ->
  __call__ self (zeros batch (n_in self))
           (mkLightLIFStateTuple v0 (zeros batch (n_rec self))) =
  Some (zeros batch (n_rec self),
        tab2 batch (n_rec self) (fun b j => _decay self * get2 v0 b j),
        mkLightLIFStateTuple
          (tab2 batch (n_rec self) (fun b j => _decay self * get2 v0 b j))
          (zeros batch (n_rec self))).
Proof.
  intros Hcell Htau Hdt Hthr Hshape Hbelow.
  pose proof (decay_range self Htau Hdt) as Hdecay.
  rewrite (call_value self _ _ batch Hcell) by (reflexivity || assumption).
  set (st := mkLightLIFStateTuple v0 (zeros batch (n_rec self))).
  assert (HV : spec_v_next self (zeros batch (n_in self)) st
               = tab2 batch (n_rec self) (fun b j => _decay self * get2 v0 b j)).
  { unfold spec_v_next. cbn [rows2 zeros tab2].
    apply tab2_ext. intros b j Hb Hj.
    unfold spec_i_t, spec_i_reset, spec_decay, _decay, st. cbn [v z].
    rewrite !get2_zeros.
    rewrite (sum_n_zero (n_in self))
      by (intros k Hk; rewrite get2_zeros; lra).
    rewrite (sum_n_zero (n_rec self))
      by (intros k Hk; rewrite get2_zeros; lra).
    ring. }
  assert (HZ : spec_z_next self (zeros batch (n_in self)) st
               = zeros batch (n_rec self)).
  { unfold spec_z_next. rewrite HV. unfold zeros at 2.
    cbn [rows2 zeros tab2].
    apply tab2_ext. intros b j Hb Hj. rewrite get2_tab2 by assumption.
    specialize (Hbelow b j Hb Hj).
    rewrite Heaviside_nonpos; [unfold Rdiv; apply Rmult_0_l |].
    destruct (Rle_or_lt ((_decay self * get2 v0 b j - thr self) / thr self) 0)
      as [Hle | Hlt]; [exact Hle |].
    apply (scaled_sign_pos_thr _ _ Hthr) in Hlt. nra. }
  unfold step_spec. rewrite HV, HZ. reflexivity.
Qed.

Lemma quiet_run (self : LightLIF) (batch : nat) :
  cell_shapes self -> 0 < tau self -> 0 < dt self -> 0 < thr self ->
  forall (steps : nat) (v0 : Tensor2 R),
  shape2 v0 = (batch, n_rec self) ->
  (forall b j, (b < batch)%nat -> (j < n_rec self)%nat ->
     get2 v0 b j <= thr self) ->
  exists outputs final,
    unroll self (repeat (zeros batch (n_in self)) steps)
           (mkLightLIFStateTuple v0 (zeros batch (n_rec self)))
      = Some (outputs, final) /\
    length outputs = steps /\
    (forall o, In o outputs -> fst o = zeros batch (n_rec self)) /\
    z final = zeros batch (n_rec self) /\
    shape2 (v final) = (batch, n_rec self) /\
    (forall b j, (b < batch)%nat -> (j < n_rec self)%nat ->
       get2 (v final) b j = _decay self ^ steps * get2 v0 b j).
Proof.
  intros Hcell Htau Hdt Hthr.
  pose proof (decay_range self Htau Hdt) as Hdecay.
  induction steps as [| n IH]; intros v0 Hshape Hbelow.
  - exists [], (mkLightLIFStateTuple v0 (zeros batch (n_rec self))).
    cbn [repeat unroll length v z pow].
    split; [reflexivity |]. split; [reflexivity |].
    split; [intros o [] |]. split; [reflexivity |].
    split; [exact Hshape |]. intros b j _ _. ring.
  - cbn [repeat unroll].
    rewrite (call_quiet self v0 batch) by assumption. cbn [bind snd fst].
    destruct (IH (tab2 batch (n_rec self)
                    (fun b j => _decay self * get2 v0 b j)))
      as [outputs [final [Hrun [Hlen [Hsilent [Hz [Hvs Hvalue]]]]]]].
    + reflexivity.
    + intros b j Hb Hj. rewrite get2_tab2 by assumption.
      specialize (Hbelow b j Hb Hj). nra.
    + rewrite Hrun. cbn [bind fst snd].
      eexists. eexists. split; [reflexivity |].
      split; [cbn [length]; rewrite Hlen; reflexivity |].
      split.
      { intros o [<- | Hin]; [reflexivity | exact (Hsilent o Hin)]. }
      split; [exact Hz |]. split; [exact Hvs |].
      intros b j Hb Hj. rewrite (Hvalue b j Hb Hj).
      rewrite get2_tab2 by assumption. cbn [pow]. ring.
Qed.

(** X9.  Without input, a state without spikes whose voltages do not exceed
    a positive threshold stays silent: over a run of any number of steps no
    neuron spikes, and after [steps] steps every voltage is the initial one
    times [decay ^ steps], independently of the weights. *)
Theorem undriven_run_decays_geometrically
    (self : LightLIF) (batch steps : nat) (v0 : Tensor2 R)
    (Hcell : cell_shapes self)
    (Htau : 0 < tau self) (Hdt : 0 < dt self) (Hthr : 0 < thr self)
    (Hshape : shape2 v0 = (batch, n_rec self))
    (Hbelow : forall b j, (b < batch)%nat -> (j < n_rec self)%nat ->
                get2 v0 b j <= thr self) :
  exists outputs final,
    unroll self (repeat (zeros batch (n_in self)) steps)
           (mkLightLIFStateTuple v0 (zeros batch (n_rec self)))
      = Some (outputs, final) /\
    length outputs = steps /\
    (forall o, In o outputs -> fst o = zeros batch (n_rec self)) /\
    z final = zeros batch (n_rec self) /\
    shape2 (v final) = (batch, n_rec self) /\
    (forall b j, (b < batch)%nat -> (j < n_rec self)%nat ->
       get2 (v final) b j = _decay self ^ steps * get2 v0 b j).
Proof.
  exact (quiet_run self batch Hcell Htau Hdt Hthr steps v0 Hshape Hbelow).
Qed.

Lemma undriven_run_decays_geometrically_witness :
  cell_shapes demo_cell /\
  0 < tau demo_cell /\ 0 < dt demo_cell /\ 0 < thr demo_cell /\
  shape2 (v quiet_state) = (1%nat, n_rec demo_cell) /\
  (forall b j, (b < 1)%nat -> (j < n_rec demo_cell)%nat ->
     get2 (v quiet_state) b j <= thr demo_cell) /\
  exists outputs final,
    unroll demo_cell (repeat (zeros 1 (n_in demo_cell)) 3) quiet_state
      = Some (outputs, final) /\
    length outputs = 3%nat /\
    (forall b j, (b < 1)%nat -> (j < n_rec demo_cell)%nat ->
       get2 (v final) b j = _decay demo_cell ^ 3 * get2 (v quiet_state) b j).
Proof.
  assert (Hshapes : cell_shapes demo_cell) by (split; reflexivity).
  assert (Htau : 0 < tau demo_cell) by (cbn; lra).
  assert (Hdt : 0 < dt demo_cell) by (cbn; lra).
  assert (Hthr : 0 < thr demo_cell) by (cbn; lra).
  assert (Hbelow : forall b j, (b < 1)%nat -> (j < n_rec demo_cell)%nat ->
            get2 (v quiet_state) b j <= thr demo_cell).
  { intros b j Hb Hj. cbn in Hj.
    destruct b as [| b]; [| lia].
    destruct j as [| [| [| j]]]; [| | | lia]; unfold get2; cbn; lra. }
  split; [exact Hshapes |]. split; [exact Htau |]. split; [exact Hdt |].
  split; [exact Hthr |]. split; [reflexivity |]. split; [exact Hbelow |].
  destruct (undriven_run_decays_geometrically demo_cell 1 3 (v quiet_state)
              Hshapes Htau Hdt Hthr eq_refl Hbelow)
    as [outputs [final [Hrun [Hlen [_ [_ [_ Hvalue]]]]]]].
  exists outputs, final. split; [exact Hrun |].
  split; [exact Hlen | exact Hvalue].
Defined.

(** ** The surrogate derivative *)

Lemma tent_far (x : R) : 1 <= Rabs x -> Rmax (1 - Rabs x) 0 = 0.
Proof. intros Hfar. apply Rmax_right. lra. Qed.

Lemma tent_near (x : R) : Rabs x <= 1 -> Rmax (1 - Rabs x) 0 = 1 - Rabs x.
Proof. intros Hnear. apply Rmax_left. lra. Qed.

Lemma tent_range (x : R) : 0 <= Rmax (1 - Rabs x) 0 <= 1.
Proof.
  pose proof (Rabs_pos x) as Habs. split.
  - apply Rmax_r.
  - apply Rmax_lub; lra.
Qed.

(** X10.  [pseudo_derivative] is a tent around the threshold: at every entry
    it is 0 where [|v_scaled| >= 1], it is [(1 - |v_scaled|) * d] where
    [|v_scaled| <= 1], so [d] at [v_scaled = 0]; it takes the same value at
    [v_scaled] and [- v_scaled]; and for [d >= 0] it lies between 0 and
    [d]. *)
Theorem pseudo_derivative_is_a_tent
    (v_scaled : Tensor2 R) (d : R) (i j : nat)
    (Hi : (i < rows2 v_scaled)%nat) (Hj : (j < cols2 v_scaled)%nat) :
  let x := get2 v_scaled i j in
  let pd := get2 (pseudo_derivative v_scaled d) i j in
  (1 <= Rabs x -> pd = 0) /\
  (Rabs x <= 1 -> pd = (1 - Rabs x) * d) /\
  (x = 0 -> pd = d) /\
  get2 (pseudo_derivative (map2d Ropp v_scaled) d) i j = pd /\
  (0 <= d -> 0 <= pd <= d).
Proof.
  intros x pd. subst pd.
  rewrite !pseudo_derivative_value. cbn [rows2 cols2 map2d tab2].
  rewrite !get2_tab2 by assumption. fold x.
  split; [intros Hfar; rewrite tent_far by exact Hfar; ring |].
  split; [intros Hnear; rewrite tent_near by exact Hnear; reflexivity |].
  split.
  { intros Hx0. rewrite tent_near by (rewrite Hx0, Rabs_R0; lra).
    rewrite Hx0, Rabs_R0. ring. }
  split.
  { rewrite get2_map2d by assumption. fold x. rewrite Rabs_Ropp.
    reflexivity. }
  intros Hd. pose proof (tent_range x) as Hrange. nra.
Qed.

Lemma pseudo_derivative_is_a_tent_witness :
  (0 < rows2 demo_v_scaled)%nat /\ (1 < cols2 demo_v_scaled)%nat /\
  Rabs (get2 demo_v_scaled 0 1) <= 1 /\
  get2 (pseudo_derivative demo_v_scaled 0.3) 0 1
    = (1 - Rabs (get2 demo_v_scaled 0 1)) * 0.3.
Proof.
  assert (Hi : (0 < rows2 demo_v_scaled)%nat) by (cbn; lia).
  assert (Hj : (1 < cols2 demo_v_scaled)%nat) by (cbn; lia).
  assert (Hnear : Rabs (get2 demo_v_scaled 0 1) <= 1).
  { unfold get2. cbn. rewrite Rabs_pos_eq; lra. }
  split; [exact Hi |]. split; [exact Hj |]. split; [exact Hnear |].
  destruct (pseudo_derivative_is_a_tent demo_v_scaled 0.3 0 1 Hi Hj)
    as [_ [Hlin _]].
  exact (Hlin Hnear).
Defined.

(** X11.  The backward rule of [SpikeFunction] lets gradient through only
    near the threshold: for an incoming gradient of the shape of
    [v_scaled], the returned gradient is 0 at every entry with
    [|v_scaled| >= 1], it is [dy * d] at an entry with [v_scaled = 0], and
    for [d >= 0] its size never exceeds [d * |dy|], although the forward
    value is constant on either side of the threshold. *)
Theorem SpikeFunction_gradient_is_local
    (v_scaled dy : Tensor2 R) (d : R)
    (Hshape : shape2 dy = shape2 v_scaled) :
  exists g : Tensor2 R,
    snd (SpikeFunction v_scaled d) dy = Some (g, 0) /\
    shape2 g = shape2 v_scaled /\
    forall i j, (i < rows2 v_scaled)%nat -> (j < cols2 v_scaled)%nat ->
      (1 <= Rabs (get2 v_scaled i j) -> get2 g i j = 0) /\
      (get2 v_scaled i j = 0 -> get2 g i j = get2 dy i j * d) /\
      (0 <= d -> Rabs (get2 g i j) <= d * Rabs (get2 dy i j)).
Proof.
  unfold SpikeFunction. cbn [snd].
  rewrite pseudo_derivative_value.
  unfold shape2 in Hshape. injection Hshape as Hr Hc.
  rewrite zip2d_same_shape by (cbn [rows2 cols2 tab2]; assumption).
  cbn [bind]. eexists. split; [reflexivity |].
  rewrite Hr, Hc. split; [reflexivity |].
  intros i j Hi Hj. rewrite !get2_tab2 by assumption.
  split; [intros Hfar; rewrite tent_far by exact Hfar; ring |].
  split.
  { intros Hx0. rewrite tent_near by (rewrite Hx0, Rabs_R0; lra).
    rewrite Hx0, Rabs_R0. ring. }
  intros Hd. pose proof (tent_range (get2 v_scaled i j)) as Hrange.
  rewrite !Rabs_mult. rewrite (Rabs_pos_eq (Rmax _ _)) by lra.
  rewrite (Rabs_pos_eq d) by exact Hd.
  pose proof (Rabs_pos (get2 dy i j)) as Hdy.
  assert (Hda : 0 <= d * Rabs (get2 dy i j))
    by (apply Rmult_le_pos; assumption).
  replace (Rabs (get2 dy i j) * (Rmax (1 - Rabs (get2 v_scaled i j)) 0 * d))
    with (Rmax (1 - Rabs (get2 v_scaled i j)) 0 * (d * Rabs (get2 dy i j)))
    by ring.
  nra.
Qed.

Lemma SpikeFunction_gradient_is_local_witness :
  shape2 demo_dy = shape2 demo_v_scaled /\
  get2 demo_v_scaled 0 0 = 0 /\
  exists g : Tensor2 R,
    snd (SpikeFunction demo_v_scaled 0.3) demo_dy = Some (g, 0) /\
    get2 g 0 0 = get2 demo_dy 0 0 * 0.3.
Proof.
  split; [reflexivity |]. split; [reflexivity |].
  destruct (SpikeFunction_gradient_is_local demo_v_scaled demo_dy 0.3 eq_refl)
    as [g [Hrun [_ Hentries]]].
  exists g. split; [exact Hrun |].
  apply (Hentries 0%nat 0%nat); [cbn; lia | cbn; lia | reflexivity].
Defined.

(** ** The exponential filter as a convolution *)

Lemma sum_n_S (n : nat) (f : nat -> R) : sum_n (S n) f = sum_n n f + f n.
Proof.
  unfold sum_n. rewrite seq_S, map_app. cbn [Nat.add map].
  induction (map f (seq 0 n)) as [| x l IH]; cbn [app fold_right].
  - ring.
  - rewrite IH. ring.
Qed.

Lemma sum_n_scale (n : nat) (c : R) (f : nat -> R) :
  c * sum_n n f = sum_n n (fun k => c * f k).
Proof.
  induction n as [| n IH].
  - unfold sum_n. cbn. ring.
  - rewrite !sum_n_S, <- IH. ring.
Qed.

Section Recurrence.
Variable d : R.
Variable raw f : nat -> R.
Variable T : nat.
Hypothesis f_first : (0 < T)%nat -> f 0%nat = (1 - d) * raw 0%nat.
Hypothesis f_next :
  forall t, (0 < t)%nat -> (t < T)%nat ->
    f t = d * f (t - 1)%nat + (1 - d) * raw t.

(** The recurrence of the filter, solved. *)
Lemma recurrence_closed_form (t : nat) :
  (t < T)%nat ->
  f t = sum_n (S t) (fun s => (1 - d) * d ^ (t - s) * raw s).
Proof.
  induction t as [| t IH]; intros Ht.
  - rewrite f_first by exact Ht. unfold sum_n. cbn. ring.
  - rewrite f_next by lia. replace (S t - 1)%nat with t by lia.
    rewrite IH by lia. rewrite (sum_n_S (S t)).
    rewrite sum_n_scale. rewrite Nat.sub_diag. cbn [pow].
    rewrite (sum_n_ext (S t)
               (fun k => d * ((1 - d) * d ^ (t - k) * raw k))
               (fun s => (1 - d) * d ^ (S t - s) * raw s)).
    + ring.
    + intros k Hk. replace (S t - k)%nat with (S (t - k)) by lia.
      cbn [pow]. ring.
Qed.


Lemma recurrence_bounded (M : R) (t : nat) :
  0 <= d <= 1 ->
  (forall s, (s < T)%nat -> Rabs (raw s) <= M) ->
  (t < T)%nat -> Rabs (f t) <= M.
Proof.
  intros Hd Hraw. induction t as [| t IH]; intros Ht.
  - rewrite f_first by lia.
    specialize (Hraw 0%nat Ht). rewrite Rabs_mult.
    rewrite (Rabs_pos_eq (1 - d)) by lra.
    pose proof (Rabs_pos (raw 0%nat)). nra.
  - rewrite f_next by lia. replace (S t - 1)%nat with t by lia.
    specialize (IH ltac:(lia)). specialize (Hraw (S t) Ht).
    eapply Rle_trans; [apply Rabs_triang |].
    rewrite !Rabs_mult.
    rewrite (Rabs_pos_eq d), (Rabs_pos_eq (1 - d)) by lra.
    pose proof (Rabs_pos (f t)). pose proof (Rabs_pos (raw (S t))). nra.
Qed.
End Recurrence.

(** X12.  [exp_convolve] is the causal convolution with the kernel
    [(1 - decay) * decay ^ k]: on a sequence with at least one time step,
    [filtered[b][t][n]] is the sum over [s <= t] of
    [(1 - decay) * decay ^ (t - s) * raw[b][s][n]]. *)
Theorem exp_convolve_is_a_convolution
    (tensor : Tensor3 R) (decay : R)
    (Htime : (0 < dim1 tensor)%nat) :
  exists filtered : Tensor3 R,
    exp_convolve tensor decay = Some filtered /\
    forall b t n, (b < dim0 tensor)%nat -> (t < dim1 tensor)%nat ->
      (n < dim2 tensor)%nat ->
      get3 filtered b t n =
      sum_n (S t)
        (fun s => (1 - decay) * decay ^ (t - s) * get3 tensor b s n).
Proof.
  destruct (exp_convolve_value tensor decay Htime)
    as [filtered [Hrun [_ [Hfirst Hnext]]]].
  exists filtered. split; [exact Hrun |].
  intros b t n Hb Ht Hn.
  apply (recurrence_closed_form decay (fun s => get3 tensor b s n)
           (fun s => get3 filtered b s n) (dim1 tensor)).
  - intros _. apply Hfirst; assumption.
  - intros s Hs0 Hs. apply Hnext; assumption.
  - exact Ht.
Qed.

Lemma exp_convolve_is_a_convolution_witness :
  (0 < dim1 two_step_sequence)%nat /\
  exists filtered : Tensor3 R,
    exp_convolve two_step_sequence (1 / 2) = Some filtered /\
    get3 filtered 0 1 0 =
      sum_n 2 (fun s => (1 - 1 / 2) * (1 / 2) ^ (1 - s)
                        * get3 two_step_sequence 0 s 0).
Proof.
  assert (Htime : (0 < dim1 two_step_sequence)%nat) by (cbn; lia).
  split; [exact Htime |].
  destruct (exp_convolve_is_a_convolution two_step_sequence (1 / 2) Htime)
    as [filtered [Hrun Hsum]].
  exists filtered. split; [exact Hrun |].
  apply (Hsum 0%nat 1%nat 0%nat); cbn; lia.
Defined.

(** X13.  The filter is causal and mixes neither trials nor neurons: for
    two sequences of one shape, the filtered value at trial [b], time [t]
    and neuron [n] is the same whenever the sequences agree at trial [b]
    and neuron [n] for all times up to [t]. *)
Theorem exp_convolve_is_causal
    (tensor tensor' : Tensor3 R) (decay : R) (b t n : nat)
    (Hshape : shape3 tensor' = shape3 tensor)
    (Hb : (b < dim0 tensor)%nat) (Ht : (t < dim1 tensor)%nat)
    (Hn : (n < dim2 tensor)%nat)
    (Hpast : forall s, (s <= t)%nat ->
               get3 tensor' b s n = get3 tensor b s n) :
  exists filtered filtered' : Tensor3 R,
    exp_convolve tensor decay = Some filtered /\
    exp_convolve tensor' decay = Some filtered' /\
    get3 filtered' b t n = get3 filtered b t n.
Proof.
  unfold shape3 in Hshape. injection Hshape as H0 H1 H2.
  assert (Htime : (0 < dim1 tensor)%nat) by lia.
  assert (Htime' : (0 < dim1 tensor')%nat) by lia.
  destruct (exp_convolve_value tensor decay Htime)
    as [filtered [Hrun [_ [Hfirst Hnext]]]].
  destruct (exp_convolve_value tensor' decay Htime')
    as [filtered' [Hrun' [_ [Hfirst' Hnext']]]].
  exists filtered, filtered'. split; [exact Hrun |]. split; [exact Hrun' |].
  rewrite (recurrence_closed_form decay (fun s => get3 tensor b s n)
             (fun s => get3 filtered b s n) (dim1 tensor))
    by (try (intros; apply Hfirst); try (intros; apply Hnext); assumption).
  rewrite (recurrence_closed_form decay (fun s => get3 tensor' b s n)
             (fun s => get3 filtered' b s n) (dim1 tensor'))
    by (try (intros; apply Hfirst'); try (intros; apply Hnext'); lia).
  apply sum_n_ext. intros s Hs. rewrite Hpast by lia. reflexivity.
Qed.

Lemma exp_convolve_is_causal_witness :
  shape3 two_step_sequence' = shape3 two_step_sequence /\
  (forall s, (s <= 0)%nat ->
     get3 two_step_sequence' 0 s 0 = get3 two_step_sequence 0 s 0) /\
  exists filtered filtered' : Tensor3 R,
    exp_convolve two_step_sequence (1 / 2) = Some filtered /\
    exp_convolve two_step_sequence' (1 / 2) = Some filtered' /\
    get3 filtered' 0 0 0 = get3 filtered 0 0 0.
Proof.
  assert (Hpast : forall s, (s <= 0)%nat ->
            get3 two_step_sequence' 0 s 0 = get3 two_step_sequence 0 s 0).
  { intros s Hs. replace s with 0%nat by lia. reflexivity. }
  split; [reflexivity |]. split; [exact Hpast |].
  apply (exp_convolve_is_causal two_step_sequence two_step_sequence' (1 / 2)
           0 0 0 eq_refl); try (cbn; lia).
  exact Hpast.
Defined.



(** X15.  For a decay in [0, 1] the filter never leaves the range of its
    input: when every entry of the sequence is at most [M] in absolute
    value, so is every entry of the filtered sequence. *)
Theorem exp_convolve_keeps_bound
    (tensor : Tensor3 R) (decay M : R)
    (Htime : (0 < dim1 tensor)%nat)
    (Hdecay : 0 <= decay <= 1)
    (Hbound : forall b t n, (b < dim0 tensor)%nat -> (t < dim1 tensor)%nat ->
                (n < dim2 tensor)%nat -> Rabs (get3 tensor b t n) <= M) :
  exists filtered : Tensor3 R,
    exp_convolve tensor decay = Some filtered /\
    forall b t n, (b < dim0 tensor)%nat -> (t < dim1 tensor)%nat ->
      (n < dim2 tensor)%nat -> Rabs (get3 filtered b t n) <= M.
Proof.
  destruct (exp_convolve_value tensor decay Htime)
    as [filtered [Hrun [_ [Hfirst Hnext]]]].
  exists filtered. split; [exact Hrun |].
  intros b t n Hb Ht Hn.
  apply (recurrence_bounded decay (fun s => get3 tensor b s n)
           (fun s => get3 filtered b s n) (dim1 tensor)).
  - intros _. apply Hfirst; assumption.
  - intros s Hs0 Hs. apply Hnext; assumption.
  - exact Hdecay.
  - intros s Hs. apply Hbound; assumption.
  - exact Ht.
Qed.

Lemma exp_convolve_keeps_bound_witness :
  (0 < dim1 two_step_sequence)%nat /\
  0 <= 1 / 2 <= 1 /\
  (forall b t n, (b < dim0 two_step_sequence)%nat ->
     (t < dim1 two_step_sequence)%nat -> (n < dim2 two_step_sequence)%nat ->
     Rabs (get3 two_step_sequence b t n) <= 2) /\
  exists filtered : Tensor3 R,
    exp_convolve two_step_sequence (1 / 2) = Some filtered /\
    forall b t n, (b < dim0 two_step_sequence)%nat ->
      (t < dim1 two_step_sequence)%nat -> (n < dim2 two_step_sequence)%nat ->
      Rabs (get3 filtered b t n) <= 2.
Proof.
  assert (Htime : (0 < dim1 two_step_sequence)%nat) by (cbn; lia).
  assert (Hdecay : 0 <= 1 / 2 <= 1) by lra.
  assert (Hbound : forall b t n, (b < dim0 two_step_sequence)%nat ->
            (t < dim1 two_step_sequence)%nat ->
            (n < dim2 two_step_sequence)%nat ->
            Rabs (get3 two_step_sequence b t n) <= 2).
  { intros b t n Hb Ht Hn. cbn in Hb, Ht, Hn.
    destruct b as [| b]; [| lia]. destruct n as [| n]; [| lia].
    destruct t as [| [| t]]; [| | lia]; unfold get3; cbn;
      rewrite Rabs_pos_eq; lra. }
  split; [exact Htime |]. split; [exact Hdecay |]. split; [exact Hbound |].
  exact (exp_convolve_keeps_bound two_step_sequence (1 / 2) 2
           Htime Hdecay Hbound).
Defined.

(** ** Edge cases of the filter *)

(** X16.  [exp_convolve] has no result on any sequence without a time
    step: the zero initializer is taken from the first time slice, which
    does not exist. *)
Theorem exp_convolve_needs_a_time_step
    (tensor : Tensor3 R) (decay : R)
    (Hempty : dim1 tensor = 0%nat) :
  exp_convolve tensor decay = None.
Proof.
  unfold exp_convolve. rewrite transpose_time_major. cbn [bind].
  unfold index0. cbn [dim0 tab3]. rewrite Hempty. reflexivity.
Qed.

Lemma exp_convolve_needs_a_time_step_witness :
  dim1 empty_time_sequence = 0%nat /\
  exp_convolve empty_time_sequence (1 / 2) = None.
Proof.
  split; [reflexivity |].
  exact (exp_convolve_needs_a_time_step empty_time_sequence (1 / 2) eq_refl).
Defined.

(** ** Edge cases of the time shift *)

(** X17.  On a sequence without a time step [shift_by_one_time_step] does
    not return a sequence without a time step: with the default
    initializer it has no result, and with an initializer of the shape of
    one time slice it returns a sequence of one time step that holds the
    initializer. *)
Theorem shift_of_empty_sequence
    (tensor : Tensor3 R) (init : Tensor2 R)
    (Hempty : dim1 tensor = 0%nat)
    (Hinit : shape2 init = (dim0 tensor, dim2 tensor)) :
  shift_by_one_time_step tensor None = None /\
  exists shifted : Tensor3 R,
    shift_by_one_time_step tensor (Some init) = Some shifted /\
    shape3 shifted = (dim0 tensor, 1%nat, dim2 tensor) /\
    forall b n, (b < dim0 tensor)%nat -> (n < dim2 tensor)%nat ->
      get3 shifted b 0 n = get2 init b n.
Proof.
  unfold shape2 in Hinit. injection Hinit as Hr Hc.
  unfold shift_by_one_time_step. rewrite transpose_time_major.
  cbn [bind]. unfold index0. cbn [dim0 tab3]. rewrite Hempty.
  split; [reflexivity |].
  cbn [Nat.eqb bind]. unfold concat0.
  cbn [dim0 dim1 dim2 expand0 drop_last tab3].
  rewrite Hr, Hc, !Nat.eqb_refl. cbn [andb bind].
  rewrite transpose_time_major. cbn [dim0 dim1 dim2 tab3 Nat.sub Nat.add].
  eexists. split; [reflexivity |]. split; [reflexivity |].
  intros b n Hb Hn.
  rewrite !get3_tab3 by (assumption || lia). cbn [Nat.ltb Nat.leb].
  unfold expand0. rewrite Hr, Hc.
  rewrite get3_tab3 by (assumption || lia). reflexivity.
Qed.

Lemma shift_of_empty_sequence_witness :
  dim1 empty_time_sequence = 0%nat /\
  shape2 one_slice = (dim0 empty_time_sequence, dim2 empty_time_sequence) /\
  shift_by_one_time_step empty_time_sequence None = None /\
  exists shifted : Tensor3 R,
    shift_by_one_time_step empty_time_sequence (Some one_slice)
      = Some shifted /\
    shape3 shifted
      = (dim0 empty_time_sequence, 1%nat, dim2 empty_time_sequence) /\
    forall b n, (b < dim0 empty_time_sequence)%nat ->
      (n < dim2 empty_time_sequence)%nat ->
      get3 shifted b 0 n = get2 one_slice b n.
Proof.
  split; [reflexivity |]. split; [reflexivity |].
  exact (shift_of_empty_sequence empty_time_sequence one_slice
           eq_refl eq_refl).
Defined.

(** X18.  An initializer that does not have the shape of one time slice is
    rejected: [shift_by_one_time_step] has no result when the rows of the
    initializer are not the trials of the sequence or its columns are not
    the neurons. *)
Theorem shift_rejects_misshapen_initializer
    (tensor : Tensor3 R) (init : Tensor2 R)
    (Hbad : shape2 init <> (dim0 tensor, dim2 tensor)) :
  shift_by_one_time_step tensor (Some init) = None.
Proof.
  unfold shift_by_one_time_step. rewrite transpose_time_major.
  cbn [bind]. unfold concat0.
  cbn [dim0 dim1 dim2 expand0 drop_last tab3].
  destruct (Nat.eqb_spec (rows2 init) (dim0 tensor)) as [Hr | Hr];
    [| reflexivity].
  destruct (Nat.eqb_spec (cols2 init) (dim2 tensor)) as [Hc | Hc];
    [| reflexivity].
  exfalso. apply Hbad. unfold shape2. rewrite Hr, Hc. reflexivity.
Qed.

Lemma shift_rejects_misshapen_initializer_witness :
  shape2 tall_slice <> (dim0 two_step_sequence, dim2 two_step_sequence) /\
  shift_by_one_time_step two_step_sequence (Some tall_slice) = None.
Proof.
  assert (Hbad : shape2 tall_slice
                 <> (dim0 two_step_sequence, dim2 two_step_sequence))
    by (cbn; discriminate).
  split; [exact Hbad |].
  exact (shift_rejects_misshapen_initializer two_step_sequence tall_slice Hbad).
Defined.

(** ** Composing the shift and the filter *)

(** X19.  Shifting twice moves the sequence two steps: for a sequence with
    at least one time step and two initializers of the shape of one time
    slice, the result of shifting with [first] and then with [second] has
    [second] at time 0, [first] at time 1, and [raw[t-2]] at every time
    [2 <= t < T]; the last two time slices of the input are gone. *)
Theorem shift_twice
    (tensor : Tensor3 R) (first second : Tensor2 R)
    (Htime : (0 < dim1 tensor)%nat)
    (Hfirst : shape2 first = (dim0 tensor, dim2 tensor))
    (Hsecond : shape2 second = (dim0 tensor, dim2 tensor)) :
  exists once twice : Tensor3 R,
    shift_by_one_time_step tensor (Some first) = Some once /\
    shift_by_one_time_step once (Some second) = Some twice /\
    shape3 twice = shape3 tensor /\
    forall b n, (b < dim0 tensor)%nat -> (n < dim2 tensor)%nat ->
      get3 twice b 0 n = get2 second b n /\
      ((1 < dim1 tensor)%nat -> get3 twice b 1 n = get2 first b n) /\
      (forall t, (2 <= t)%nat -> (t < dim1 tensor)%nat ->
         get3 twice b t n = get3 tensor b (t - 2) n).
Proof.
  rewrite (shift_value tensor (Some first) Htime)
    by (intros init Heq; injection Heq as <-; exact Hfirst).
  eexists. eexists. split; [reflexivity |].
  rewrite shift_value.
  - split; [reflexivity |]. cbn [dim0 dim1 dim2 tab3].
    split; [reflexivity |].
    intros b n Hb Hn.
    split; [rewrite get3_tab3 by assumption; reflexivity |].
    split.
    + intros Hlong. rewrite !get3_tab3 by (assumption || lia).
      reflexivity.
    + intros t Ht2 Ht. rewrite get3_tab3 by assumption.
      destruct (Nat.ltb_spec t 1); [lia |].
      rewrite get3_tab3 by (assumption || lia).
      destruct (Nat.ltb_spec (t - 1) 1); [lia |].
      replace (t - 1 - 1)%nat with (t - 2)%nat by lia. reflexivity.
  - cbn [dim1 tab3]. exact Htime.
  - intros init Heq. injection Heq as <-. exact Hsecond.
Qed.

Lemma shift_twice_witness :
  (0 < dim1 three_step_sequence)%nat /\
  shape2 one_slice = (dim0 three_step_sequence, dim2 three_step_sequence) /\
  exists once twice : Tensor3 R,
    shift_by_one_time_step three_step_sequence (Some one_slice) = Some once /\
    shift_by_one_time_step once (Some one_slice) = Some twice /\
    get3 twice 0 2 0 = get3 three_step_sequence 0 0 0.
Proof.
  assert (Htime : (0 < dim1 three_step_sequence)%nat) by (cbn; lia).
  split; [exact Htime |]. split; [reflexivity |].
  destruct (shift_twice three_step_sequence one_slice one_slice
              Htime eq_refl eq_refl)
    as [once [twice [Hone [Htwo [_ Hentries]]]]].
  exists once, twice. split; [exact Hone |]. split; [exact Htwo |].
  destruct (Hentries 0%nat 0%nat) as [_ [_ Hrest]]; [cbn; lia | cbn; lia |].
  apply (Hrest 2%nat); cbn; lia.
Defined.

(** X20.  The filter commutes with the shift by the default zero
    initializer: on a sequence with at least one time step, filtering the
    shifted sequence gives, entry for entry, the shifted filtered
    sequence. *)
Theorem exp_convolve_commutes_with_shift
    (tensor : Tensor3 R) (decay : R)
    (Htime : (0 < dim1 tensor)%nat) :
  exists shifted filtered_shifted filtered shifted_filtered : Tensor3 R,
    shift_by_one_time_step tensor None = Some shifted /\
    exp_convolve shifted decay = Some filtered_shifted /\
    exp_convolve tensor decay = Some filtered /\
    shift_by_one_time_step filtered None = Some shifted_filtered /\
    shape3 filtered_shifted = shape3 tensor /\
    shape3 shifted_filtered = shape3 tensor /\
    forall b t n, (b < dim0 tensor)%nat -> (t < dim1 tensor)%nat ->
      (n < dim2 tensor)%nat ->
      get3 filtered_shifted b t n = get3 shifted_filtered b t n.
Proof.
  rewrite (shift_value tensor None Htime) by (intros init Heq; discriminate).
  set (shifted := tab3 (dim0 tensor) (dim1 tensor) (dim2 tensor)
                    (fun b t n => if (t <? 1)%nat then 0
                                  else get3 tensor b (t - 1) n)).
  destruct (exp_convolve_value shifted decay Htime)
    as [fs [Hrun_fs [Hshape_fs [Hfirst_fs Hnext_fs]]]].
  destruct (exp_convolve_value tensor decay Htime)
    as [filtered [Hrun [Hshape [Hfirst Hnext]]]].
  unfold shape3 in Hshape. injection Hshape as H0 H1 H2.
  assert (Htime_f : (0 < dim1 filtered)%nat) by lia.
  exists shifted, fs, filtered. eexists.
  split; [reflexivity |]. split; [exact Hrun_fs |]. split; [exact Hrun |].
  split.
  { rewrite (shift_value filtered None Htime_f)
      by (intros init Heq; discriminate).
    rewrite H0, H1, H2. reflexivity. }
  split; [exact Hshape_fs |]. split; [reflexivity |].
  cbn [dim0 dim1 dim2 tab3 shifted] in Hfirst_fs, Hnext_fs.
  intros b t n Hb Ht Hn. rewrite get3_tab3 by assumption.
  induction t as [| t IH].
  - rewrite Hfirst_fs by assumption. unfold shifted.
    rewrite get3_tab3 by assumption. cbn. ring.
  - rewrite Hnext_fs by (assumption || lia).
    replace (S t - 1)%nat with t by lia.
    rewrite IH by lia. unfold shifted at 1.
    rewrite get3_tab3 by assumption.
    replace (S t - 1)%nat with t by lia.
    destruct (Nat.ltb_spec (S t) 1); [lia |].
    destruct t as [| t'].
    + cbn [Nat.ltb Nat.leb]. rewrite (Hfirst b n) by assumption. ring.
    + destruct (Nat.ltb_spec (S t') 1); [lia |].
      rewrite (Hnext b (S t') n) by (assumption || lia). reflexivity.
Qed.

Lemma exp_convolve_commutes_with_shift_witness :
  (0 < dim1 two_step_sequence)%nat /\
  exists shifted filtered_shifted filtered shifted_filtered : Tensor3 R,
    shift_by_one_time_step two_step_sequence None = Some shifted /\
    exp_convolve shifted (1 / 2) = Some filtered_shifted /\
    exp_convolve two_step_sequence (1 / 2) = Some filtered /\
    shift_by_one_time_step filtered None = Some shifted_filtered /\
    get3 filtered_shifted 0 1 0 = get3 shifted_filtered 0 1 0.
Proof.
  assert (Htime : (0 < dim1 two_step_sequence)%nat) by (cbn; lia).
  split; [exact Htime |].
  destruct (exp_convolve_commutes_with_shift two_step_sequence (1 / 2) Htime)
    as [s [fs [f [sf [Hs [Hfs [Hf [Hsf [_ [_ Hsame]]]]]]]]]].
  exists s, fs, f, sf.
  split; [exact Hs |]. split; [exact Hfs |]. split; [exact Hf |].
  split; [exact Hsf |].
  apply (Hsame 0%nat 1%nat 0%nat); cbn; lia.
Defined.

(** ** More on the gradient checker *)

(** The loop over a prefix of passing parameters. *)
Lemma check_from_prefix (eg tg : list (Tensor2 R)) :
  forall (i : nat) (vars : list TfVariable) (k : nat),
  (i <= length vars)%nat ->
  (forall i', (i' < i)%nat ->
     exists e t, nth_error eg (k + i') = Some e /\
                 nth_error tg (k + i') = Some t /\
                 shape2 e = shape2 t /\ all_close e t) ->
  check_gradients_from k vars eg tg =
  (map correct_line (firstn i vars)
     ++ fst (check_gradients_from (k + i) (skipn i vars) eg tg),
   snd (check_gradients_from (k + i) (skipn i vars) eg tg)).
Proof.
  induction i as [| i IH]; intros vars k Hlen Hpass.
  - rewrite Nat.add_0_r. cbn [firstn skipn map app].
    destruct (check_gradients_from k vars eg tg). reflexivity.
  - destruct vars as [| v rest]; [cbn [length] in Hlen; lia |].
    destruct (Hpass 0%nat) as [e [t [He [Ht [Hshape Hclose]]]]]; [lia |].
    rewrite Nat.add_0_r in He, Ht.
    rewrite (check_from_pass k v rest eg tg e t) by assumption.
    rewrite (IH rest (S k)).
    + cbn [firstn skipn map app fst snd].
      replace (S k + i)%nat with (k + S i)%nat by lia. reflexivity.
    + cbn [length] in Hlen. lia.
    + intros i' Hi'. replace (S k + i')%nat with (k + S i')%nat by lia.
      apply Hpass. lia.
Qed.

Lemma check_from_stops_at (eg tg : list (Tensor2 R)) (vars : list TfVariable)
    (k : nat) (v : TfVariable) (out : list printed) (res : outcome) :
  first_pass eg tg k ->
  nth_error vars k = Some v ->
  (forall rest, check_gradients_from k (v :: rest) eg tg = (out, res)) ->
  check_gradients vars eg tg = (map correct_line (firstn k vars) ++ out, res).
Proof.
  intros Hpass Hv Hturn. unfold check_gradients.
  assert (Hk : (k < length vars)%nat) by (apply nth_error_Some; congruence).
  rewrite (check_from_prefix eg tg k vars 0) by (lia || exact Hpass).
  cbn [Nat.add].
  assert (Hskip : exists rest, skipn k vars = v :: rest).
  { clear Hturn Hpass. revert k Hv Hk.
    induction vars as [| v0 vars IH]; intros k Hv Hk; [cbn in Hk; lia |].
    destruct k as [| k]; cbn [nth_error skipn] in *.
    - injection Hv as ->. eexists. reflexivity.
    - apply IH; [exact Hv | cbn [length] in Hk; lia]. }
  destruct Hskip as [rest ->]. rewrite Hturn. reflexivity.
Qed.

(** X21.  For index-aligned gradient lists whose arrays have pairwise one
    shape, the outcome of the checker tells exactly whether all gradients
    agree: it returns normally if and only if every pair is close in every
    entry, it raises [ValueError] if and only if some pair is not, and it
    never raises [IndexError]. *)
Theorem check_gradients_outcome_iff_all_close
    (var_list : list TfVariable) (eg tg : list (Tensor2 R))
    (Hlen : length eg = length var_list)
    (Hshapes : Forall2 (fun e t => shape2 e = shape2 t) eg tg) :
  (snd (check_gradients var_list eg tg) = Returned
     <-> Forall2 all_close eg tg) /\
  (snd (check_gradients var_list eg tg) = Raised ValueError
     <-> ~ Forall2 all_close eg tg) /\
  snd (check_gradients var_list eg tg) <> Raised IndexError.
Proof.
  pose proof (aligned_entries var_list eg tg Hlen Hshapes) as Haligned.
  assert (Hpass : Forall2 all_close eg tg ->
            snd (check_gradients var_list eg tg) = Returned).
  { intros Hall. unfold check_gradients.
    rewrite check_from_all_pass; [reflexivity |].
    intros i Hi. cbn [Nat.add].
    destruct (Haligned i Hi) as [e [t [He [Ht Hshape]]]].
    exists e, t. repeat split; try assumption.
    exact (Forall2_nth_error_both _ eg tg Hall i e t He Ht). }
  assert (Hfail : ~ Forall2 all_close eg tg ->
            snd (check_gradients var_list eg tg) = Raised ValueError).
  { intros Hnot.
    destruct (first_mismatch_or_none eg tg Hshapes)
      as [Hall | [k [e [t [He [Ht [Hfar Hbefore]]]]]]]; [contradiction |].
    assert (Hk : (k < length var_list)%nat).
    { rewrite <- Hlen. apply nth_error_Some. congruence. }
    destruct (nth_error var_list k) as [v |] eqn:Hv;
      [| apply nth_error_None in Hv; lia].
    unfold check_gradients.
    rewrite (check_from_first_fail eg tg var_list 0 k v e t);
      try assumption; [reflexivity | |].
    - exact (Forall2_nth_error_both _ eg tg Hshapes k e t He Ht).
    - intros i' Hi'. cbn [Nat.add].
      destruct (Haligned i') as [e' [t' [He' [Ht' Hshape']]]]; [lia |].
      exists e', t'. repeat split; try assumption.
      exact (Hbefore i' e' t' Hi' He' Ht'). }
  assert (Hdec : Forall2 all_close eg tg \/ ~ Forall2 all_close eg tg).
  { destruct (first_mismatch_or_none eg tg Hshapes)
      as [Hall | [k [e [t [He [Ht [Hfar _]]]]]]]; [left; exact Hall |].
    right. intros Hall. apply Hfar.
    exact (Forall2_nth_error_both _ eg tg Hall k e t He Ht). }
  split; [| split].
  - split; [| exact Hpass]. intros Hret.
    destruct Hdec as [Hall | Hnot]; [exact Hall |].
    rewrite (Hfail Hnot) in Hret. discriminate.
  - split; [| exact Hfail]. intros Hraise Hall.
    rewrite (Hpass Hall) in Hraise. discriminate.
  - destruct Hdec as [Hall | Hnot].
    + rewrite (Hpass Hall). discriminate.
    + rewrite (Hfail Hnot). discriminate.
Qed.

Lemma check_gradients_outcome_iff_all_close_witness :
  length [grad_zero; grad_one] = length [var_a; var_b] /\
  Forall2 (fun e t => shape2 e = shape2 t)
          [grad_zero; grad_one] [grad_zero; grad_zero] /\
  ~ Forall2 all_close [grad_zero; grad_one] [grad_zero; grad_zero] /\
  snd (check_gradients [var_a; var_b] [grad_zero; grad_one]
                       [grad_zero; grad_zero]) = Raised ValueError.
Proof.
  assert (Hshapes : Forall2 (fun e t => shape2 e = shape2 t)
                      [grad_zero; grad_one] [grad_zero; grad_zero])
    by (repeat constructor).
  assert (Hnot : ~ Forall2 all_close [grad_zero; grad_one]
                                     [grad_zero; grad_zero]).
  { intros Hall. inversion Hall as [| ? ? ? ? _ Htail]; subst.
    inversion Htail as [| ? ? ? ? Hclose _]; subst.
    exact (grad_one_not_close Hclose). }
  split; [reflexivity |]. split; [exact Hshapes |]. split; [exact Hnot |].
  destruct (check_gradients_outcome_iff_all_close
              [var_a; var_b] [grad_zero; grad_one] [grad_zero; grad_zero]
              eq_refl Hshapes) as [_ [Hraise _]].
  apply Hraise. exact Hnot.
Defined.

(** X22.  When a gradient list is shorter than the parameter list, the
    checker reports the parameters before the first missing gradient (as
    long as they pass) and then raises [IndexError]; nothing is printed for
    the parameter whose gradient is missing. *)
Theorem check_gradients_missing_gradient_raises_index_error
    (var_list : list TfVariable) (eg tg : list (Tensor2 R))
    (k : nat) (v : TfVariable)
    (Hv : nth_error var_list k = Some v)
    (Hmissing : nth_error eg k = None \/ nth_error tg k = None)
    (Hpass : first_pass eg tg k) :
  check_gradients var_list eg tg
    = (map correct_line (firstn k var_list), Raised IndexError).
Proof.
  rewrite (check_from_stops_at eg tg var_list k v [] (Raised IndexError)
             Hpass Hv).
  - rewrite app_nil_r. reflexivity.
  - intros rest. cbn [check_gradients_from].
    destruct (nth_error eg k) as [e |]; [| reflexivity].
    destruct Hmissing as [Hmissing | Hmissing]; [discriminate |].
    rewrite Hmissing. reflexivity.
Qed.

Lemma check_gradients_missing_gradient_raises_index_error_witness :
  nth_error [var_a; var_b] 1 = Some var_b /\
  (nth_error [grad_zero] 1 = None \/
   nth_error [grad_zero; grad_zero] 1 = None) /\
  first_pass [grad_zero] [grad_zero; grad_zero] 1 /\
  check_gradients [var_a; var_b] [grad_zero] [grad_zero; grad_zero]
    = (map correct_line (firstn 1 [var_a; var_b]), Raised IndexError).
Proof.
  assert (Hmissing : nth_error [grad_zero] 1 = None \/
                     nth_error [grad_zero; grad_zero] 1 = None)
    by (left; reflexivity).
  assert (Hpass : first_pass [grad_zero] [grad_zero; grad_zero] 1).
  { intros i Hi. replace i with 0%nat by lia.
    exists grad_zero, grad_zero. repeat split. apply all_close_refl. }
  split; [reflexivity |]. split; [exact Hmissing |]. split; [exact Hpass |].
  exact (check_gradients_missing_gradient_raises_index_error
           [var_a; var_b] [grad_zero] [grad_zero; grad_zero] 1 var_b
           eq_refl Hmissing Hpass).
Defined.

Lemma broadcast_dim_none (a b : nat) :
  a <> b -> a <> 1%nat -> b <> 1%nat -> broadcast_dim a b = None.
Proof.
  intros Hab Ha Hb. unfold broadcast_dim.
  destruct (Nat.eqb_spec a b); [contradiction |].
  destruct (Nat.eqb_spec a 1); [contradiction |].
  destruct (Nat.eqb_spec b 1); [contradiction | reflexivity].
Qed.

Lemma zip2d_not_broadcastable (f : R -> R -> R) (e t : Tensor2 R) :
  not_broadcastable e t -> zip2d f e t = None.
Proof.
  intros [[H1 [H2 H3]] | [H1 [H2 H3]]]; unfold zip2d.
  - rewrite (broadcast_dim_none _ _ H1 H2 H3). reflexivity.
  - rewrite (broadcast_dim_none _ _ H1 H2 H3).
    destruct (broadcast_dim (rows2 e) (rows2 t)); reflexivity.
Qed.

(** X23.  Gradients whose shapes cannot be broadcast against each other are
    not reported as a wrong parameter: after the lines for the passing
    parameters before it the checker raises [ValueError] from the
    subtraction, and nothing at all is printed for the parameter itself. *)
Theorem check_gradients_shape_mismatch_raises_unreported
    (var_list : list TfVariable) (eg tg : list (Tensor2 R))
    (k : nat) (v : TfVariable) (e t : Tensor2 R)
    (Hv : nth_error var_list k = Some v)
    (He : nth_error eg k = Some e) (Ht : nth_error tg k = Some t)
    (Hbad : not_broadcastable e t)
    (Hpass : first_pass eg tg k) :
  check_gradients var_list eg tg
    = (map correct_line (firstn k var_list), Raised ValueError).
Proof.
  rewrite (check_from_stops_at eg tg var_list k v [] (Raised ValueError)
             Hpass Hv).
  - rewrite app_nil_r. reflexivity.
  - intros rest. cbn [check_gradients_from]. rewrite He, Ht.
    rewrite (zip2d_not_broadcastable _ e t Hbad). reflexivity.
Qed.

Lemma check_gradients_shape_mismatch_raises_unreported_witness :
  nth_error [var_a] 0 = Some var_a /\
  not_broadcastable grad_two_rows grad_three_rows /\
  first_pass [grad_two_rows] [grad_three_rows] 0 /\
  check_gradients [var_a] [grad_two_rows] [grad_three_rows]
    = (map correct_line (firstn 0 [var_a]), Raised ValueError).
Proof.
  assert (Hbad : not_broadcastable grad_two_rows grad_three_rows)
    by (left; cbn; lia).
  assert (Hpass : first_pass [grad_two_rows] [grad_three_rows] 0)
    by (intros i Hi; lia).
  split; [reflexivity |]. split; [exact Hbad |]. split; [exact Hpass |].
  exact (check_gradients_shape_mismatch_raises_unreported
           [var_a] [grad_two_rows] [grad_three_rows] 0 var_a
           grad_two_rows grad_three_rows eq_refl eq_refl eq_refl Hbad Hpass).
Defined.

(** The loop reads the gradient lists at the positions of the parameters
    only. *)
Lemma check_from_ext (eg tg eg' tg' : list (Tensor2 R)) :
  forall (vars : list TfVariable) (k : nat),
  (forall i, (i < length vars)%nat ->
     nth_error eg' (k + i) = nth_error eg (k + i) /\
     nth_error tg' (k + i) = nth_error tg (k + i)) ->
  check_gradients_from k vars eg' tg' = check_gradients_from k vars eg tg.
Proof.
  induction vars as [| v rest IH]; intros k Hsame.
  - reflexivity.
  - cbn [check_gradients_from].
    destruct (Hsame 0%nat) as [He Ht]; [cbn [length]; lia |].
    rewrite Nat.add_0_r in He, Ht. rewrite He, Ht.
    rewrite (IH (S k)).
    + reflexivity.
    + intros i Hi. replace (S k + i)%nat with (k + S i)%nat by lia.
      apply Hsame. cbn [length]. lia.
Qed.

(** X24.  Gradients beyond the length of the parameter list are never
    looked at: appending any arrays to gradient lists that are at least as
    long as the parameter list changes neither what is printed nor the
    outcome. *)
Theorem check_gradients_ignores_surplus_gradients
    (var_list : list TfVariable) (eg tg more_e more_t : list (Tensor2 R))
    (Hlen_e : (length var_list <= length eg)%nat)
    (Hlen_t : (length var_list <= length tg)%nat) :
  check_gradients var_list (eg ++ more_e) (tg ++ more_t)
    = check_gradients var_list eg tg.
Proof.
  unfold check_gradients. apply check_from_ext.
  intros i Hi. cbn [Nat.add].
  split; apply nth_error_app1; lia.
Qed.

Lemma check_gradients_ignores_surplus_gradients_witness :
  (length [var_a] <= length [grad_zero])%nat /\
  (length [var_a] <= length [grad_zero])%nat /\
  check_gradients [var_a] ([grad_zero] ++ [grad_one])
                  ([grad_zero] ++ [grad_three_rows])
    = check_gradients [var_a] [grad_zero] [grad_zero].
Proof.
  assert (Hlen : (length [var_a] <= length [grad_zero])%nat) by (cbn; lia).
  split; [exact Hlen |]. split; [exact Hlen |].
  exact (check_gradients_ignores_surplus_gradients
           [var_a] [grad_zero] [grad_zero] [grad_one] [grad_three_rows]
           Hlen Hlen).
Defined.

Lemma mismatch_pairs_nonempty (e t : Tensor2 R) :
  ~ all_close e t -> mismatch_pairs e t <> [].
Proof.
  intros Hfar Hnil. apply Hfar. intros i j Hi Hj.
  destruct (Rlt_dec (Rabs (get2 e i j - get2 t i j)) 1e-4) as [Hlt | Hge];
    [exact Hlt |].
  assert (Hin : In (i, j) (mismatch_pairs e t))
    by (apply in_mismatch_pairs; repeat split; assumption).
  rewrite Hnil in Hin. destruct Hin.
Qed.

Lemma in_firstn {A : Type} (n : nat) (l : list A) (x : A) :
  In x (firstn n l) -> In x l.
Proof.
  intros Hin. rewrite <- (firstn_skipn n l). apply in_or_app. left.
  exact Hin.
Qed.

Lemma firstn_short {A : Type} (n : nat) (l : list A) :
  (length (firstn n l) < n)%nat -> firstn n l = l.
Proof.
  intros Hshort. apply firstn_all2.
  rewrite length_firstn in Hshort. lia.
Qed.

(** X25.  The mismatch indices printed for a failing parameter can be
    trusted: exactly one index list is printed, it is not empty, it has at
    most five entries, every entry is a position inside the array where the
    absolute difference is at least 1e-4, and when fewer than five are
    printed they are all the mismatching positions. *)
Theorem printed_mismatch_indices_are_mismatches
    (k : nat) (v : TfVariable) (rest : list TfVariable)
    (eg tg : list (Tensor2 R)) (e t : Tensor2 R)
    (He : nth_error eg k = Some e) (Ht : nth_error tg k = Some t)
    (Hshape : shape2 e = shape2 t)
    (Hfar : ~ all_close e t) :
  exists l : list (nat * nat),
    (forall label l',
       In (IndexList label l')
          (fst (check_gradients_from k (v :: rest) eg tg)) <->
       label = "mismatch indices"%string /\ l' = l) /\
    l <> [] /\ (length l <= 5)%nat /\
    (forall i j, In (i, j) l ->
       (i < rows2 e)%nat /\ (j < cols2 e)%nat /\
       1e-4 <= Rabs (get2 e i j - get2 t i j)) /\
    ((length l < 5)%nat ->
     forall i j, (i < rows2 e)%nat -> (j < cols2 e)%nat ->
       1e-4 <= Rabs (get2 e i j - get2 t i j) -> In (i, j) l).
Proof.
  rewrite (check_from_fail k v rest eg tg e t He Ht Hshape Hfar).
  exists (firstn 5 (mismatch_pairs e t)). cbn [fst].
  split; [| split; [| split; [| split]]].
  - intros label l'. unfold diagnostics, wrong_line. cbv zeta. cbn [In].
    split.
    + intros Hin.
      repeat (destruct Hin as [Heq | Hin]; [try discriminate Heq |]).
      * injection Heq as <- <-. split; reflexivity.
      * destruct Hin.
    + intros [-> ->]. do 9 right. left. reflexivity.
  - pose proof (mismatch_pairs_nonempty e t Hfar) as Hne.
    destruct (mismatch_pairs e t); [contradiction | discriminate].
  - apply firstn_le_length.
  - intros i j Hin. apply in_firstn in Hin.
    apply in_mismatch_pairs in Hin. destruct Hin as [Hi [Hj Hge]].
    repeat split; try assumption. lra.
  - intros Hshort i j Hi Hj Hge.
    rewrite (firstn_short 5 _ Hshort).
    apply in_mismatch_pairs. repeat split; try assumption. lra.
Qed.

Lemma printed_mismatch_indices_are_mismatches_witness :
  nth_error [grad_one] 0 = Some grad_one /\
  nth_error [grad_zero] 0 = Some grad_zero /\
  shape2 grad_one = shape2 grad_zero /\
  ~ all_close grad_one grad_zero /\
  exists l : list (nat * nat),
    In (IndexList "mismatch indices" l)
       (fst (check_gradients_from 0 [var_a] [grad_one] [grad_zero])) /\
    l <> [] /\ (length l <= 5)%nat.
Proof.
  split; [reflexivity |]. split; [reflexivity |]. split; [reflexivity |].
  split; [exact grad_one_not_close |].
  destruct (printed_mismatch_indices_are_mismatches
              0 var_a [] [grad_one] [grad_zero] grad_one grad_zero
              eq_refl eq_refl eq_refl grad_one_not_close)
    as [l [Hprinted [Hne [Hlen _]]]].
  exists l. split; [| split; [exact Hne | exact Hlen]].
  apply Hprinted. split; reflexivity.
Defined.

(** ** The target signal *)

Lemma fold_left_Rmin_le (l : list R) (x0 : R) :
  fold_left Rmin l x0 <= x0 /\
  forall x, In x l -> fold_left Rmin l x0 <= x.
Proof.
  revert x0. induction l as [| y l IH]; intros x0; cbn [fold_left].
  - split; [lra | intros x []].
  - destruct (IH (Rmin x0 y)) as [Hhead Hrest]. split.
    + pose proof (Rmin_l x0 y). lra.
    + intros x [<- | Hin].
      * pose proof (Rmin_r x0 y). lra.
      * apply Hrest. exact Hin.
Qed.

Lemma fold_left_Rmax_ge (l : list R) (x0 : R) :
  x0 <= fold_left Rmax l x0 /\
  forall x, In x l -> x <= fold_left Rmax l x0.
Proof.
  revert x0. induction l as [| y l IH]; intros x0; cbn [fold_left].
  - split; [lra | intros x []].
  - destruct (IH (Rmax x0 y)) as [Hhead Hrest]. split.
    + pose proof (Rmax_l x0 y). lra.
    + intros x [<- | Hin].
      * pose proof (Rmax_r x0 y). lra.
      * apply Hrest. exact Hin.
Qed.

Lemma abs_le_of_between (lo hi x : R) :
  lo <= x <= hi -> Rabs x <= Rmax (Rabs lo) (Rabs hi).
Proof.
  intros [Hlo Hhi].
  pose proof (Rmax_l (Rabs lo) (Rabs hi)) as Hl.
  pose proof (Rmax_r (Rabs lo) (Rabs hi)) as Hr.
  pose proof (Rle_abs hi) as Hhi_abs.
  pose proof (Rle_abs (- lo)) as Hlo_abs. rewrite Rabs_Ropp in Hlo_abs.
  apply Rabs_le. lra.
Qed.

(** The normalisation of a non-empty array. *)
Lemma normalize_value (first : R) (rest : list R) :
  exists lo hi,
    np_min (map (fun x => x - first) (first :: rest)) = Some lo /\
    np_max (map (fun x => x - first) (first :: rest)) = Some hi /\
    0 < Rmax (Rmax (Rabs lo) (Rabs hi)) 1e-6 /\
    forall x, In x (map (fun x => x - first) (first :: rest)) ->
      Rabs x <= Rmax (Rmax (Rabs lo) (Rabs hi)) 1e-6.
Proof.
  cbn [map np_min np_max]. eexists. eexists.
  split; [reflexivity |]. split; [reflexivity |].
  set (shifted := map (fun x => x - first) rest).
  set (x0 := first - first).
  destruct (fold_left_Rmin_le shifted x0) as [Hmin0 Hmin].
  destruct (fold_left_Rmax_ge shifted x0) as [Hmax0 Hmax].
  split.
  - pose proof (Rmax_r (Rmax (Rabs (fold_left Rmin shifted x0))
                             (Rabs (fold_left Rmax shifted x0))) 1e-6).
    lra.
  - intros x Hin.
    eapply Rle_trans; [| apply Rmax_l].
    apply abs_le_of_between. destruct Hin as [<- | Hin].
    + split; assumption.
    + split; [apply Hmin | apply Hmax]; exact Hin.
Qed.

Lemma floor_div_nonzero (a b : R) :
  b <> 0 -> floor_div a b = Some (IZR (Int_part (a / b))).
Proof.
  intros Hb. unfold floor_div.
  destruct (Req_dec_T b 0); [contradiction | reflexivity].
Qed.

Lemma length_linspace (start stop : R) (num : nat) :
  length (linspace start stop num) = num.
Proof. unfold linspace. rewrite length_map, length_seq. reflexivity. Qed.

(** The loop succeeds when every position has a phase, a non-zero period
    and a weight; it then returns one array of [seq_len] entries per
    position, each entry at most the weight in absolute value. *)
Lemma sines_from_ok (seq_len : nat) (periods weights phases : list R) :
  forall indices : list nat,
  (forall i, In i indices ->
     exists ph p w, nth_error phases i = Some ph /\
                    nth_error periods i = Some p /\ p <> 0 /\
                    nth_error weights i = Some w) ->
  exists sines,
    sines_from seq_len periods weights phases indices = Ok sines /\
    Forall2 (fun s i =>
               length s = seq_len /\
               forall x, In x s -> Rabs x <= Rabs (nth i weights 0))
            sines indices.
Proof.
  induction indices as [| i rest IH]; intros Hall.
  - exists []. split; [reflexivity | constructor].
  - destruct (Hall i) as [ph [p [w [Hph [Hp [Hp0 Hw]]]]]];
      [left; reflexivity |].
    destruct IH as [sines [Hrun Hsines]];
      [intros j Hj; apply Hall; right; exact Hj |].
    cbn [sines_from]. rewrite Hph, Hp, (floor_div_nonzero _ _ Hp0), Hw, Hrun.
    eexists. split; [reflexivity |]. constructor; [| exact Hsines].
    split.
    + rewrite !length_map, length_linspace. reflexivity.
    + intros x Hin. apply in_map_iff in Hin. destruct Hin as [y [<- Hy]].
      apply in_map_iff in Hy. destruct Hy as [a [<- _]].
      rewrite (nth_error_nth weights i 0 Hw). rewrite Rabs_mult.
      pose proof (SIN_bound a) as Hsin.
      assert (Rabs (sin a) <= 1) by (apply Rabs_le; lra).
      pose proof (Rabs_pos w). nra.
Qed.

Lemma add_array_bound (b s : list R) (L : nat) (B Bs : R) :
  length b = L -> length s = L ->
  (forall x, In x b -> Rabs x <= B) ->
  (forall x, In x s -> Rabs x <= Bs) ->
  exists out, add_array (Array b) s = Array out /\ length out = L /\
              forall x, In x out -> Rabs x <= B + Bs.
Proof.
  intros Hb Hs Hbb Hsb. cbn [add_array]. eexists. split; [reflexivity |].
  split.
  - rewrite length_map, length_combine, Hb, Hs. apply Nat.min_id.
  - intros x Hin. apply in_map_iff in Hin. destruct Hin as [[p q] [<- Hpq]].
    cbn [fst snd]. eapply Rle_trans; [apply Rabs_triang |].
    pose proof (Hbb p (in_combine_l _ _ _ _ Hpq)).
    pose proof (Hsb q (in_combine_r _ _ _ _ Hpq)). lra.
Qed.

Lemma fold_add_array_bound (g : nat -> R) (L : nat) :
  forall (sines : list (list R)) (indices : list nat) (b : list R) (B : R),
  Forall2 (fun s i => length s = L /\ forall x, In x s -> Rabs x <= g i)
          sines indices ->
  length b = L -> (forall x, In x b -> Rabs x <= B) ->
  exists out,
    fold_left add_array sines (Array b) = Array out /\ length out = L /\
    forall x, In x out ->
      Rabs x <= B + fold_right Rplus 0 (map g indices).
Proof.
  induction sines as [| s sines IH]; intros indices b B Hall Hb Hbound.
  - destruct indices as [| i rest]; [| inversion Hall].
    exists b. cbn [fold_left map fold_right].
    split; [reflexivity |]. split; [exact Hb |].
    intros x Hin. specialize (Hbound x Hin). lra.
  - destruct indices as [| i rest]; [inversion Hall |].
    apply Forall2_cons_iff in Hall. destruct Hall as [[Hs Hsb] Hrest].
    destruct (add_array_bound b s L B (g i) Hb Hs Hbound Hsb)
      as [b' [Hadd [Hb' Hbound']]].
    cbn [fold_left]. rewrite Hadd.
    destruct (IH rest b' (B + g i) Hrest Hb' Hbound')
      as [out [Hrun [Hlen Hout]]].
    exists out. split; [exact Hrun |]. split; [exact Hlen |].
    intros x Hin. specialize (Hout x Hin). cbn [map fold_right]. lra.
Qed.

(** The sum of at least one array of [L] entries is an array of [L]
    entries, bounded by the sum of the bounds of the summands. *)
Lemma py_sum_bound (g : nat -> R) (L : nat) (sines : list (list R))
    (indices : list nat) :
  Forall2 (fun s i => length s = L /\ forall x, In x s -> Rabs x <= g i)
          sines indices ->
  indices <> [] ->
  exists out,
    py_sum sines = Array out /\ length out = L /\
    forall x, In x out -> Rabs x <= fold_right Rplus 0 (map g indices).
Proof.
  intros Hall Hne.
  destruct indices as [| i rest]; [contradiction |].
  destruct sines as [| s sines]; [inversion Hall |].
  apply Forall2_cons_iff in Hall. destruct Hall as [[Hs Hsb] Hrest].
  unfold py_sum. cbn [fold_left add_array].
  destruct (fold_add_array_bound g L sines rest
              (map (fun x => IZR 0 + x) s) (g i) Hrest)
    as [out [Hrun [Hlen Hout]]].
  - rewrite length_map. exact Hs.
  - intros x Hin. apply in_map_iff in Hin. destruct Hin as [y [<- Hy]].
    rewrite Rplus_0_l. exact (Hsb y Hy).
  - exists out. split; [exact Hrun |]. split; [exact Hlen |].
    intros x Hin. specialize (Hout x Hin). cbn [map fold_right]. lra.
Qed.

Lemma seq_nonempty (n : nat) : (0 < n)%nat -> seq 0 n <> [].
Proof. destruct n; [lia | discriminate]. Qed.

(** What the call needs in order to get through the loop. *)
Lemma resolved_inputs_ok (rng : draws) (n_sines : nat)
    (periods weights phases : option (list R)) :
  match periods with
  | Some given => length given = n_sines /\ Forall (fun p => p <> 0) given
  | None => forall i, 0 <= u_periods rng i < 1
  end ->
  (forall given, weights = Some given -> (n_sines <= length given)%nat) ->
  (forall given, phases = Some given -> (n_sines <= length given)%nat) ->
  let periods' :=
    match periods with
    | None => map (fun i => uniform 100 1000 (u_periods rng i))
                  (seq 0 n_sines)
    | Some given => given
    end in
  let weights' :=
    match weights with
    | None => map (fun i => uniform 0.5 2 (u_weights rng i)) (seq 0 n_sines)
    | Some given => given
    end in
  let phases' :=
    match phases with
    | None => map (fun i => uniform 0 (PI * 2) (u_phases rng i))
                  (seq 0 n_sines)
    | Some given => given
    end in
  length periods' = n_sines /\
  forall i, In i (seq 0 n_sines) ->
    exists ph p w, nth_error phases' i = Some ph /\
                   nth_error periods' i = Some p /\ p <> 0 /\
                   nth_error weights' i = Some w.
Proof.
  intros Hperiods Hweights Hphases periods' weights' phases'.
  assert (Hplen : length periods' = n_sines).
  { subst periods'. destruct periods as [given |].
    - exact (proj1 Hperiods).
    - rewrite length_map, length_seq. reflexivity. }
  split; [exact Hplen |].
  intros i Hi. apply in_seq in Hi.
  assert (Hwlen : (n_sines <= length weights')%nat).
  { subst weights'. destruct weights as [given |].
    - apply Hweights. reflexivity.
    - rewrite length_map, length_seq. lia. }
  assert (Hphlen : (n_sines <= length phases')%nat).
  { subst phases'. destruct phases as [given |].
    - apply Hphases. reflexivity.
    - rewrite length_map, length_seq. lia. }
  destruct (nth_error phases' i) as [ph |] eqn:Hph;
    [| apply nth_error_None in Hph; lia].
  destruct (nth_error weights' i) as [w |] eqn:Hw;
    [| apply nth_error_None in Hw; lia].
  destruct (nth_error periods' i) as [p |] eqn:Hp;
    [| apply nth_error_None in Hp; lia].
  exists ph, p, w. repeat split.
  subst periods'. destruct periods as [given |].
  - destruct Hperiods as [_ Hnz].
    apply (proj1 (Forall_forall _ given) Hnz). eapply nth_error_In. exact Hp.
  - apply nth_error_In in Hp. apply in_map_iff in Hp.
    destruct Hp as [k [<- _]]. unfold uniform.
    specialize (Hperiods k). lra.
Qed.

(** The call up to the sum, when the loop gets through. *)
Lemma target_before_normalize (rng : draws) (seq_len n_sines : nat)
    (periods weights phases : option (list R)) :
  (0 < n_sines)%nat ->
  match periods with
  | Some given => length given = n_sines /\ Forall (fun p => p <> 0) given
  | None => forall i, 0 <= u_periods rng i < 1
  end ->
  (forall given, weights = Some given -> (n_sines <= length given)%nat) ->
  (forall given, phases = Some given -> (n_sines <= length given)%nat) ->
  exists out,
    length out = seq_len /\
    (forall given, weights = Some given ->
       forall x, In x out ->
         Rabs x <= sum_n n_sines (fun i => Rabs (nth i given 0))) /\
    forall normalize,
      sum_of_sines_target rng seq_len n_sines periods weights phases normalize
      = if normalize then
          match out with
          | [] => Err (Builtin IndexError)
          | first :: _ =>
            let shifted := map (fun x => x - first) out in
            match np_min shifted, np_max shifted with
            | Some lo, Some hi =>
              Ok (Array (map (fun x => x / Rmax (Rmax (Rabs lo) (Rabs hi)) 1e-6)
                             shifted))
            | _, _ => Err (Builtin ValueError)
            end
          end
        else Ok (Array out).
Proof.
  intros Hn Hperiods Hweights Hphases.
  destruct (resolved_inputs_ok rng n_sines periods weights phases
              Hperiods Hweights Hphases) as [Hplen Hall].
  cbv zeta in Hplen, Hall.
  destruct (sines_from_ok seq_len _ _ _ (seq 0 n_sines) Hall)
    as [sines [Hrun Hsines]].
  destruct (py_sum_bound _ seq_len sines (seq 0 n_sines) Hsines
              (seq_nonempty n_sines Hn)) as [out [Hsum [Hlen Hbound]]].
  exists out. split; [exact Hlen |]. split.
  - intros given ->. exact Hbound.
  - intros normalize. unfold sum_of_sines_target. cbv zeta.
    rewrite Hplen, Nat.eqb_refl. cbn [negb]. rewrite Hrun, Hsum.
    reflexivity.
Qed.

(** X26.  A normalised target is an array of [seq_len] entries that starts
    at exactly 0 and stays within [-1, 1]: this holds for every positive
    [seq_len] and [n_sines], for given periods that are [n_sines] non-zero
    numbers or drawn ones, and for given or drawn weights and phases. *)
Theorem normalized_target_starts_at_0_within_unit_range
    (rng : draws) (seq_len n_sines : nat)
    (periods weights phases : option (list R))
    (Hlen : (0 < seq_len)%nat) (Hn : (0 < n_sines)%nat)
    (Hperiods :
       match periods with
       | Some given => length given = n_sines /\ Forall (fun p => p <> 0) given
       | None => forall i, 0 <= u_periods rng i < 1
       end)
    (Hweights : forall given, weights = Some given ->
                  (n_sines <= length given)%nat)
    (Hphases : forall given, phases = Some given ->
                 (n_sines <= length given)%nat) :
  exists out : list R,
    sum_of_sines_target rng seq_len n_sines periods weights phases true
      = Ok (Array out) /\
    length out = seq_len /\
    nth 0 out 0 = 0 /\
    forall x, In x out -> -1 <= x <= 1.
Proof.
  destruct (target_before_normalize rng seq_len n_sines periods weights phases
              Hn Hperiods Hweights Hphases) as [raw [Hraw [_ Hrun]]].
  rewrite (Hrun true).
  destruct raw as [| first rest]; [cbn [length] in Hraw; lia |].
  destruct (normalize_value first rest) as [lo [hi [Hlo [Hhi [Hpos Hle]]]]].
  cbv zeta. rewrite Hlo, Hhi.
  eexists. split; [reflexivity |].
  split; [rewrite !length_map; exact Hraw |].
  split.
  - cbn [map nth]. unfold Rdiv. ring.
  - intros x Hin. apply in_map_iff in Hin. destruct Hin as [y [<- Hy]].
    specialize (Hle y Hy).
    set (D := Rmax (Rmax (Rabs lo) (Rabs hi)) 1e-6) in *.
    assert (Hy2 : - D <= y <= D)
      by (unfold Rabs in Hle; destruct (Rcase_abs y); lra).
    unfold Rdiv.
    assert (HD : 0 < / D) by (apply Rinv_0_lt_compat; exact Hpos).
    assert (Hone : D * / D = 1) by (apply Rinv_r; lra).
    split; nra.
Qed.

Lemma normalized_target_starts_at_0_within_unit_range_witness :
  (0 < 3)%nat /\ (0 < 4)%nat /\
  (length default_periods = 4%nat /\
   Forall (fun p => p <> 0) default_periods) /\
  exists out : list R,
    sum_of_sines_target half_draws 3 4 (Some default_periods) None None true
      = Ok (Array out) /\
    length out = 3%nat /\ nth 0 out 0 = 0 /\
    forall x, In x out -> -1 <= x <= 1.
Proof.
  assert (Hperiods : length default_periods = 4%nat /\
                     Forall (fun p => p <> 0) default_periods).
  { split; [reflexivity |]. unfold default_periods.
    repeat constructor; lra. }
  split; [lia |]. split; [lia |]. split; [exact Hperiods |].
  apply (normalized_target_starts_at_0_within_unit_range
           half_draws 3 4 (Some default_periods) None None).
  - lia.
  - lia.
  - exact Hperiods.
  - intros given Heq. discriminate Heq.
  - intros given Heq. discriminate Heq.
Defined.

(** X27.  Without normalisation the target is an array of [seq_len] entries
    whose size is bounded by the weights: every entry is at most the sum
    of the absolute values of the first [n_sines] given weights. *)
Theorem raw_target_bounded_by_weights
    (rng : draws) (seq_len n_sines : nat)
    (periods phases : option (list R)) (given_weights : list R)
    (Hn : (0 < n_sines)%nat)
    (Hperiods :
       match periods with
       | Some given => length given = n_sines /\ Forall (fun p => p <> 0) given
       | None => forall i, 0 <= u_periods rng i < 1
       end)
    (Hweights : (n_sines <= length given_weights)%nat)
    (Hphases : forall given, phases = Some given ->
                 (n_sines <= length given)%nat) :
  exists out : list R,
    sum_of_sines_target rng seq_len n_sines periods (Some given_weights)
                        phases false
      = Ok (Array out) /\
    length out = seq_len /\
    forall x, In x out ->
      Rabs x <= sum_n n_sines (fun i => Rabs (nth i given_weights 0)).
Proof.
  destruct (target_before_normalize rng seq_len n_sines periods
              (Some given_weights) phases Hn Hperiods)
    as [raw [Hraw [Hbound Hrun]]].
  - intros given Heq. injection Heq as <-. exact Hweights.
  - exact Hphases.
  - exists raw. split; [exact (Hrun false) |]. split; [exact Hraw |].
    exact (Hbound given_weights eq_refl).
Qed.

Lemma raw_target_bounded_by_weights_witness :
  (0 < 4)%nat /\
  (length default_periods = 4%nat /\
   Forall (fun p => p <> 0) default_periods) /\
  (4 <= length [1; 2; 3; 4])%nat /\
  exists out : list R,
    sum_of_sines_target half_draws 3 4 (Some default_periods)
                        (Some [1; 2; 3; 4]) None false
      = Ok (Array out) /\
    length out = 3%nat /\
    forall x, In x out ->
      Rabs x <= sum_n 4 (fun i => Rabs (nth i [1; 2; 3; 4] 0)).
Proof.
  assert (Hperiods : length default_periods = 4%nat /\
                     Forall (fun p => p <> 0) default_periods).
  { split; [reflexivity |]. unfold default_periods.
    repeat constructor; lra. }
  assert (Hweights : (4 <= length [1; 2; 3; 4])%nat) by (cbn; lia).
  split; [lia |]. split; [exact Hperiods |]. split; [exact Hweights |].
  apply (raw_target_bounded_by_weights
           half_draws 3 4 (Some default_periods) None [1; 2; 3; 4]).
  - lia.
  - exact Hperiods.
  - exact Hweights.
  - intros given Heq. discriminate Heq.
Defined.

Lemma sines_from_errors (seq_len : nat) (periods weights phases : list R) :
  forall (indices : list nat) (e : py_exn),
  sines_from seq_len periods weights phases indices = Err e ->
  e = Builtin IndexError \/ e = ZeroDivisionError.
Proof.
  induction indices as [| i rest IH]; intros e Herr; cbn [sines_from] in Herr.
  - discriminate.
  - destruct (nth_error phases i) as [phase |];
      [| injection Herr as <-; left; reflexivity].
    destruct (nth_error periods i) as [period |];
      [| injection Herr as <-; left; reflexivity].
    destruct (floor_div (INR seq_len) period) as [cycles |];
      [| injection Herr as <-; right; reflexivity].
    destruct (nth_error weights i) as [weight |];
      [| injection Herr as <-; left; reflexivity].
    destruct (sines_from seq_len periods weights phases rest) eqn:Hrest;
      [discriminate |].
    injection Herr as <-. apply IH. reflexivity.
Qed.

(** X28.  The call ends in [AssertionError] exactly when periods are given
    and their number is not [n_sines]; with drawn periods it never does.
    In particular a call that changes [n_sines] and keeps the four default
    periods fails. *)
Theorem target_asserts_number_of_periods
    (rng : draws) (seq_len n_sines : nat)
    (periods weights phases : option (list R)) (normalize : bool) :
  (sum_of_sines_target rng seq_len n_sines periods weights phases normalize
     = Err AssertionError
   <-> exists given, periods = Some given /\ length given <> n_sines) /\
  (n_sines <> 4%nat ->
   sum_of_sines_target rng seq_len n_sines (Some default_periods)
                       weights phases normalize
     = Err AssertionError).
Proof.
  assert (Hif : forall ps, length ps <> n_sines ->
            sum_of_sines_target rng seq_len n_sines (Some ps)
                                weights phases normalize
            = Err AssertionError).
  { intros ps Hne. unfold sum_of_sines_target.
    destruct (Nat.eqb_spec n_sines (length ps)) as [Heq | _];
      [congruence | reflexivity]. }
  split; [| intros Hne; apply Hif; cbn; congruence].
  split; [| intros [given [-> Hne]]; exact (Hif given Hne)].
  intros Herr.
  destruct periods as [given |].
  - exists given. split; [reflexivity |]. intros Hlen.
    unfold sum_of_sines_target in Herr. rewrite Hlen, Nat.eqb_refl in Herr.
    cbn [negb] in Herr. cbv zeta in Herr.
    destruct (sines_from _ _ _ _ _) as [sines | e] eqn:Hloop.
    + destruct normalize; [| discriminate].
      destruct (py_sum sines) as [n | a]; [discriminate |].
      destruct a as [| first rest]; [discriminate |].
      destruct (np_min _); [| discriminate].
      destruct (np_max _); discriminate.
    + destruct (sines_from_errors _ _ _ _ _ _ Hloop) as [-> | ->];
        discriminate.
  - exfalso. unfold sum_of_sines_target in Herr.
    rewrite length_map, length_seq, Nat.eqb_refl in Herr.
    cbn [negb] in Herr. cbv zeta in Herr.
    destruct (sines_from _ _ _ _ _) as [sines | e] eqn:Hloop.
    + destruct normalize; [| discriminate].
      destruct (py_sum sines) as [n | a]; [discriminate |].
      destruct a as [| first rest]; [discriminate |].
      destruct (np_min _); [| discriminate].
      destruct (np_max _); discriminate.
    + destruct (sines_from_errors _ _ _ _ _ _ Hloop) as [-> | ->];
        discriminate.
Qed.

Lemma target_asserts_number_of_periods_witness :
  3%nat <> 4%nat /\
  sum_of_sines_target half_draws 100 3 (Some default_periods) None None true
    = Err AssertionError.
Proof.
  assert (Hne : 3%nat <> 4%nat) by lia.
  split; [exact Hne |].
  exact (proj2 (target_asserts_number_of_periods
                  half_draws 100 3 (Some default_periods) None None true)
               Hne).
Defined.

(** ** Sequences shorter than every period *)

Lemma floor_div_below (n : nat) (p : R) :
  INR n < p -> floor_div (INR n) p = Some 0.
Proof.
  intros Hlt. pose proof (pos_INR n) as Hn.
  rewrite floor_div_nonzero by lra. f_equal.
  assert (Hp : 0 < / p) by (apply Rinv_0_lt_compat; lra).
  assert (H0 : 0 <= INR n / p) by (unfold Rdiv; nra).
  assert (H1 : INR n / p < 1).
  { unfold Rdiv. assert (p * / p = 1) by (apply Rinv_r; lra). nra. }
  rewrite <- (Int_part_spec (INR n / p) 0); [reflexivity |].
  cbn. lra.
Qed.

Lemma map_const {A B : Type} (c : B) (l : list A) :
  map (fun _ => c) l = repeat c (length l).
Proof.
  induction l as [| x l IH]; cbn [map length repeat].
  - reflexivity.
  - rewrite IH. reflexivity.
Qed.

Lemma linspace_flat (start stop : R) (num : nat) :
  stop = start -> linspace start stop num = repeat start num.
Proof.
  intros ->. unfold linspace.
  rewrite (map_ext _ (fun _ => start)).
  - rewrite map_const, length_seq. reflexivity.
  - intros i. unfold Rdiv. ring.
Qed.

Lemma map_repeat {A B : Type} (f : A -> B) (c : A) (n : nat) :
  map f (repeat c n) = repeat (f c) n.
Proof.
  induction n as [| n IH]; cbn [repeat map].
  - reflexivity.
  - rewrite IH. reflexivity.
Qed.

Lemma combine_repeat {A B : Type} (a : A) (b : B) (n : nat) :
  combine (repeat a n) (repeat b n) = repeat (a, b) n.
Proof.
  induction n as [| n IH]; cbn [repeat combine].
  - reflexivity.
  - rewrite IH. reflexivity.
Qed.

(** The loop on periods that are all longer than the sequence: every
    summand is constant over time. *)
Lemma sines_from_flat (seq_len : nat) (periods weights phases : list R) :
  forall indices : list nat,
  (forall i, In i indices ->
     exists ph p w, nth_error phases i = Some ph /\
                    nth_error periods i = Some p /\ INR seq_len < p /\
                    nth_error weights i = Some w) ->
  exists sines,
    sines_from seq_len periods weights phases indices = Ok sines /\
    Forall (fun s => exists c, s = repeat c seq_len) sines /\
    length sines = length indices.
Proof.
  induction indices as [| i rest IH]; intros Hall.
  - exists []. split; [reflexivity |]. split; [constructor | reflexivity].
  - destruct (Hall i) as [ph [p [w [Hph [Hp [Hlong Hw]]]]]];
      [left; reflexivity |].
    destruct IH as [sines [Hrun [Hflat Hlen]]];
      [intros j Hj; apply Hall; right; exact Hj |].
    cbn [sines_from]. rewrite Hph, Hp, (floor_div_below _ _ Hlong), Hw, Hrun.
    eexists. split; [reflexivity |]. split.
    + constructor; [| exact Hflat].
      rewrite linspace_flat by ring. rewrite !map_repeat.
      eexists. reflexivity.
    + cbn [length]. rewrite Hlen. reflexivity.
Qed.

Lemma fold_add_array_flat (L : nat) :
  forall (sines : list (list R)) (c : R),
  Forall (fun s => exists c', s = repeat c' L) sines ->
  exists c', fold_left add_array sines (Array (repeat c L))
             = Array (repeat c' L).
Proof.
  induction sines as [| s sines IH]; intros c Hflat.
  - exists c. reflexivity.
  - apply Forall_cons_iff in Hflat. destruct Hflat as [[c1 ->] Hrest].
    cbn [fold_left add_array]. rewrite combine_repeat, map_repeat.
    cbn [fst snd]. apply IH. exact Hrest.
Qed.

(** X29.  A target shorter than every period is flat: when [seq_len] is
    positive and below each of the [n_sines] given periods, no sinusoid
    completes a cycle, every summand is constant over time, and the
    normalised target is zero at all [seq_len] positions, whatever the
    weights and phases are. *)
Theorem target_shorter_than_every_period_is_flat
    (rng : draws) (seq_len n_sines : nat)
    (given_periods : list R) (weights phases : option (list R))
    (Hlen : (0 < seq_len)%nat) (Hn : (0 < n_sines)%nat)
    (Hperiods : length given_periods = n_sines)
    (Hlong : Forall (fun p => INR seq_len < p) given_periods)
    (Hweights : forall given, weights = Some given ->
                  (n_sines <= length given)%nat)
    (Hphases : forall given, phases = Some given ->
                 (n_sines <= length given)%nat) :
  sum_of_sines_target rng seq_len n_sines (Some given_periods)
                      weights phases true
    = Ok (Array (repeat 0 seq_len)).
Proof.
  assert (Hnz : Forall (fun p => p <> 0) given_periods).
  { apply Forall_forall. intros p Hp.
    pose proof (proj1 (Forall_forall _ _) Hlong p Hp) as Hlt.
    pose proof (pos_INR seq_len). lra. }
  destruct (resolved_inputs_ok rng n_sines (Some given_periods) weights phases
              (conj Hperiods Hnz) Hweights Hphases) as [_ Hall].
  cbv zeta in Hall.
  match type of Hall with
  | forall i, _ -> exists ph p w,
      nth_error ?phases' i = _ /\ _ /\ _ /\ nth_error ?weights' i = _ =>
      destruct (sines_from_flat seq_len given_periods weights' phases'
                  (seq 0 n_sines)) as [sines [Hrun [Hflat Hcount]]]
  end.
  { intros i Hi. destruct (Hall i Hi) as [ph [p [w [Hph [Hp [_ Hw]]]]]].
    exists ph, p, w. repeat split; try assumption.
    apply (proj1 (Forall_forall _ _) Hlong). eapply nth_error_In. exact Hp. }
  unfold sum_of_sines_target. cbv zeta.
  rewrite Hperiods, Nat.eqb_refl. cbn [negb]. rewrite Hrun.
  rewrite length_seq in Hcount.
  destruct sines as [| s sines]; [cbn [length] in Hcount; lia |].
  apply Forall_cons_iff in Hflat. destruct Hflat as [[c0 ->] Hrest].
  unfold py_sum. cbn [fold_left add_array]. rewrite map_repeat.
  destruct (fold_add_array_flat seq_len sines (IZR 0 + c0) Hrest)
    as [c Hsum].
  rewrite Hsum.
  destruct seq_len as [| n]; [lia |]. cbn [repeat].
  destruct (normalize_value c (repeat c n)) as [lo [hi [Hlo [Hhi _]]]].
  cbn [repeat] in Hlo, Hhi. rewrite Hlo, Hhi.
  cbn [map]. rewrite !map_repeat.
  do 2 f_equal. f_equal.
  - unfold Rdiv. ring.
  - f_equal. unfold Rdiv. ring.
Qed.

Lemma target_shorter_than_every_period_is_flat_witness :
  (0 < 199)%nat /\ (0 < 4)%nat /\
  length default_periods = 4%nat /\
  Forall (fun p => INR 199 < p) default_periods /\
  sum_of_sines_target half_draws 199 4 (Some default_periods) None None true
    = Ok (Array (repeat 0 199)).
Proof.
  assert (Hlong : Forall (fun p => INR 199 < p) default_periods).
  { replace (INR 199) with 199 by (rewrite INR_IZR_INZ; reflexivity).
    unfold default_periods. repeat constructor; lra. }
  split; [lia |]. split; [lia |]. split; [reflexivity |].
  split; [exact Hlong |].
  apply (target_shorter_than_every_period_is_flat
           half_draws 199 4 default_periods None None).
  - lia.
  - lia.
  - reflexivity.
  - exact Hlong.
  - intros given Heq. discriminate Heq.
  - intros given Heq. discriminate Heq.
Defined.

(** X30.  Degenerate sizes are not handled: with no sinusoid the sum is the
    integer 0, which is returned as such without normalisation and cannot be
    indexed with it, so the normalising call ends in [TypeError]; with
    sinusoids but [seq_len = 0] the sum is the empty array, which is
    returned as such without normalisation, and the normalising call ends in
    [IndexError]. *)
Theorem target_degenerate_sizes
    (rng : draws) (seq_len n_sines : nat)
    (periods weights phases : option (list R)) :
  (n_sines = 0%nat -> periods = None \/ periods = Some [] ->
   sum_of_sines_target rng seq_len n_sines periods weights phases true
     = Err TypeError /\
   sum_of_sines_target rng seq_len n_sines periods weights phases false
     = Ok (Scalar 0)) /\
  (seq_len = 0%nat -> (0 < n_sines)%nat ->
   match periods with
   | Some given => length given = n_sines /\ Forall (fun p => p <> 0) given
   | None => forall i, 0 <= u_periods rng i < 1
   end ->
   (forall given, weights = Some given -> (n_sines <= length given)%nat) ->
   (forall given, phases = Some given -> (n_sines <= length given)%nat) ->
   sum_of_sines_target rng seq_len n_sines periods weights phases true
     = Err (Builtin IndexError) /\
   sum_of_sines_target rng seq_len n_sines periods weights phases false
     = Ok (Array [])).
Proof.
  split.
  - intros -> [-> | ->]; split; reflexivity.
  - intros -> Hn Hperiods Hweights Hphases.
    destruct (target_before_normalize rng 0 n_sines periods weights phases
                Hn Hperiods Hweights Hphases) as [raw [Hraw [_ Hrun]]].
    destruct raw as [| x raw]; [| discriminate Hraw].
    split; [exact (Hrun true) | exact (Hrun false)].
Qed.

Lemma target_degenerate_sizes_witness :
  (0 < 4)%nat /\
  (length default_periods = 4%nat /\
   Forall (fun p => p <> 0) default_periods) /\
  sum_of_sines_target half_draws 10 0 (Some []) None None true
    = Err TypeError /\
  sum_of_sines_target half_draws 0 4 (Some default_periods) None None true
    = Err (Builtin IndexError).
Proof.
  assert (Hperiods : length default_periods = 4%nat /\
                     Forall (fun p => p <> 0) default_periods).
  { split; [reflexivity |]. unfold default_periods.
    repeat constructor; lra. }
  split; [lia |]. split; [exact Hperiods |]. split.
  - destruct (target_degenerate_sizes half_draws 10 0 (Some []) None None)
      as [Hnone _].
    exact (proj1 (Hnone eq_refl (or_intror eq_refl))).
  - destruct (target_degenerate_sizes half_draws 0 4 (Some default_periods)
                None None) as [_ Hempty].
    apply Hempty.
    + reflexivity.
    + lia.
    + exact Hperiods.
    + intros given Heq. discriminate Heq.
    + intros given Heq. discriminate Heq.
Defined.
